(** * fetch_versions: a shallow embedding of [fetch_versions.py]

    The development follows the script top to bottom: the pieces of the
    Python runtime the script leans on ([str.strip], [int], [list.sort],
    [str.join], ...), the three tag patterns and the version selector
    [get_latest_version_tag], the two paginated fetch loops over an
    explicit transport, and finally [main] with the two flat files it
    rewrites.

    A Python [str] is modelled as a [string] whose characters are code
    points below 256: a character is its code point ([ord]), and the
    character classes of the runtime ([str.isspace], the regex class
    [\d], [str.lower]) are the ones Python has on that range; the
    decimal digits of other scripts, which [\d] and [int] also accept,
    lie above it.  Python integers are unbounded, hence [N].  [Py.int]
    is the integer a digit string denotes; [Py.int_checked] is the call
    [int(s)], which the interpreter refuses above
    [sys.int_info.default_max_str_digits] digits.  Accordingly
    [get_latest_version_tag] is the selection on the integers the tags
    denote, and [get_latest_version_tag_call] a call of the function,
    which raises where a conversion does.  The text of a file is the
    text Python reads and writes.  Console output is not modelled.

    The transport of [main] is typed the way the script expects its
    replies: a page of repositories is a list of records with a
    [name], a page of tags is such a list or one object carrying a
    [message].  [fetch_repos_raw] is [fetch_repos] on the replies the
    API can give for the listing, the object it sends when it refuses
    a request included. *)

From Stdlib Require Import Ascii.
From stdpp Require Import gmap strings list sorting.

Local Open Scope N_scope.

(** ** The Python runtime, as far as the script uses it *)

Module Py.

Definition ord (c : ascii) : N := Ascii.N_of_ascii c.
Definition chr (n : N) : ascii := Ascii.ascii_of_N n.

Definition LF : ascii := chr 10.
Definition CR : ascii := chr 13.

(** [str.isspace] on one character: TAB, LF, VT, FF, CR, the four
    separators FS GS RS US, SPACE, NEL and NO-BREAK SPACE. *)
Definition isspace (c : ascii) : bool :=
  let n := ord c in
  ((9 <=? n) && (n <=? 13)) || ((28 <=? n) && (n <=? 32))
  || (n =? 133) || (n =? 160).

(** The regex class [\d]: below 256 the decimal digits are [0-9]. *)
Definition isdigit (c : ascii) : bool :=
  let n := ord c in (48 <=? n) && (n <=? 57).

Definition digit_value (c : ascii) : N := ord c - 48.

Fixpoint lstrip (s : string) : string :=
  match s with
  | EmptyString => EmptyString
  | String c s' => if isspace c then lstrip s' else s
  end.

Fixpoint rstrip (s : string) : string :=
  match s with
  | EmptyString => EmptyString
  | String c s' =>
      match rstrip s' with
      | EmptyString => if isspace c then EmptyString else String c EmptyString
      | r => String c r
      end
  end.

(** [s.strip()] *)
Definition strip (s : string) : string := rstrip (lstrip s).

(** [int(s)] on a string of decimal digits, most significant first. *)
Fixpoint int_from (acc : N) (s : string) : N :=
  match s with
  | EmptyString => acc
  | String c s' => int_from (10 * acc + digit_value c) s'
  end.
Definition int (s : string) : N := int_from 0 s.

(** [sys.int_info.default_max_str_digits]: the longest digit string the
    interpreter converts, leading zeros counted. *)
Definition int_max_str_digits : N := 4300.

(** The call [int(s)] on a string of decimal digits: [None] when it
    raises [ValueError] for a string above the limit. *)
Definition int_checked (s : string) : option N :=
  if int_max_str_digits <? N.of_nat (String.length s) then None
  else Some (int s).

(** [str.lower] on one character: [A-Z] and the Latin-1 capitals. *)
Definition lower_char (c : ascii) : ascii :=
  let n := ord c in
  if ((65 <=? n) && (n <=? 90))
     || ((192 <=? n) && (n <=? 222) && negb (n =? 215))
  then chr (n + 32) else c.

Fixpoint lower (s : string) : string :=
  match s with
  | EmptyString => EmptyString
  | String c s' => String (lower_char c) (lower s')
  end.

(** [sep.join(parts)] *)
Fixpoint join (sep : string) (parts : list string) : string :=
  match parts with
  | [] => EmptyString
  | [p] => p
  | p :: ps => p +:+ sep +:+ join sep ps
  end.

(** *** [list.sort(key=..., reverse=...)]

    CPython's sort is stable and compares keys with [<] only; with
    [reverse=True] it reverses the list, sorts, and reverses the
    result, which keeps equal keys in their original order.  A stable
    sort has one possible result, computed here by insertion. *)
Section sort.
Context {A K : Type} (lt : K → K → bool) (key : A → K).

Fixpoint insert_sorted (x : A) (l : list A) : list A :=
  match l with
  | [] => [x]
  | y :: l' =>
      if lt (key y) (key x) then y :: insert_sorted x l' else x :: l
  end.

Definition stable_sort (l : list A) : list A :=
  foldr insert_sorted [] l.

Definition sort (rev : bool) (l : list A) : list A :=
  if rev then reverse (stable_sort (reverse l)) else stable_sort l.
End sort.

(** [<] on pairs of integers (tuple comparison). *)
Definition pair_ltb (a b : N * N) : bool :=
  (a.1 <? b.1) || ((a.1 =? b.1) && (a.2 <? b.2)).

End Py.

(** ** The three tag patterns *)

(** The longest run of [\d] at the front of [s], and what follows it. *)
Fixpoint span_digits (s : string) : string * string :=
  match s with
  | EmptyString => (EmptyString, EmptyString)
  | String c s' =>
      if Py.isdigit c
      then let '(ds, rest) := span_digits s' in (String c ds, rest)
      else (EmptyString, s)
  end.

(** The anchor [$] (no MULTILINE): the end of the string, or just before
    a line feed that ends the string. *)
Definition at_end (s : string) : bool :=
  match s with
  | EmptyString => true
  | String c EmptyString => Ascii.eqb c Py.LF
  | _ => false
  end.

Definition nonempty (s : string) : bool :=
  match s with EmptyString => false | _ => true end.

(** [(\d+)$] at the current position, giving the group.  The group is
    greedy, and giving digits back cannot help: [$] would then face a
    digit. *)
Definition digits_then_end (s : string) : option string :=
  let '(ds, rest) := span_digits s in
  if nonempty ds && at_end rest then Some ds else None.

(** [re.compile(r"^v(\d+)$").match], giving [group(1)]. *)
Definition vinteger_pattern (s : string) : option string :=
  match s with
  | String c s' => if Ascii.eqb c "v"%char then digits_then_end s' else None
  | EmptyString => None
  end.

(** [re.compile(r"^(\d+)$").match], giving [group(1)]. *)
Definition integer_pattern (s : string) : option string :=
  digits_then_end s.

(** [re.compile(r"^(\d+)\.(\d+)$").match], giving [group(1)] and
    [group(2)]. *)
Definition major_minor_pattern (s : string) : option (string * string) :=
  let '(ds, rest) := span_digits s in
  match rest with
  | String c rest' =>
      if nonempty ds && Ascii.eqb c "."%char
      then match digits_then_end rest' with
           | Some ds' => Some (ds, ds')
           | None => None
           end
      else None
  | EmptyString => None
  end.

(** ** The version selector *)

(** The three candidate lists built by the three [for] loops, with the
    integers the digit groups denote; the limit of [int] on the length
    of a group comes in with [get_latest_version_tag_call] below. *)
Definition vinteger_tags (tags : list string) : list (N * string) :=
  omap (λ tag, (λ g, (Py.int g, Py.strip tag)) <$>
                 vinteger_pattern (Py.strip tag)) tags.

Definition integer_tags (tags : list string) : list (N * string) :=
  omap (λ tag, (λ g, (Py.int g, Py.strip tag)) <$>
                 integer_pattern (Py.strip tag)) tags.

Definition major_minor_tags (tags : list string) : list (N * N * string) :=
  omap (λ tag, (λ g, (Py.int g.1, Py.int g.2, Py.strip tag)) <$>
                 major_minor_pattern (Py.strip tag)) tags.

Definition get_latest_version_tag (tags : list string) : option string :=
  match vinteger_tags tags with
  | (_ :: _) as cands => snd <$> head (Py.sort N.ltb fst true cands)
  | [] =>
      match integer_tags tags with
      | (_ :: _) as cands => snd <$> head (Py.sort N.ltb fst true cands)
      | [] =>
          match major_minor_tags tags with
          | (_ :: _) as cands =>
              snd <$> head (Py.sort Py.pair_ltb fst true cands)
          | [] => None
          end
      end
  end.

(** ** The world the script runs in *)

(** A repository record and a tag record of the API, as far as the
    script reads them: their [name] field. *)
Record repo := Repo { repo_name : string }.
Record tag := Tag { tag_name : string }.

(** What [json.loads] gives for a page of tags: a list of tag records,
    or a single object carrying [message]. *)
Inductive tags_page :=
| TagList (page_tags : list tag)
| ApiError (message : string).

(** One [curl] call, by the query it carries. *)
Inductive request :=
| ReposRequest (org : string) (per_page page : N)
| TagsRequest (org repo_name : string) (per_page page : N).

(** The transport: the parsed reply to each query, [None] when
    [subprocess.run(..., check=True)] or [json.loads] raises. *)
Record transport := Transport {
  repos_reply : string → N → N → option (list repo);
  tags_reply : string → string → N → N → option tags_page
}.

Inductive file := VERSIONS_FILE | UNVERSIONED_FILE | README_FILE.

Global Instance file_eq_dec : EqDecision file.
Proof. solve_decision. Defined.

(** The requests made so far, oldest first, and the text of each file
    ([None]: the file does not exist). *)
Record world := World {
  requests : list request;
  files : file → option string
}.

(** A call returns, raises, or is still looping when the fuel of the
    model runs out. *)
Inductive outcome (A : Type) :=
| Returned (a : A)
| Raised
| OutOfFuel.
Global Arguments Returned {A} a.
Global Arguments Raised {A}.
Global Arguments OutOfFuel {A}.

Definition M (A : Type) : Type := world → outcome A * world.

Definition ret {A} (a : A) : M A := λ w, (Returned a, w).
Definition raise {A} : M A := λ w, (Raised, w).
Definition out_of_fuel {A} : M A := λ w, (OutOfFuel, w).

Definition bind {A B} (m : M A) (k : A → M B) : M B := λ w,
  match m w with
  | (Returned a, w') => k a w'
  | (Raised, w') => (Raised, w')
  | (OutOfFuel, w') => (OutOfFuel, w')
  end.

Notation "'do' x <- m ; k" := (bind m (λ x, k))
  (at level 10, x name, m at level 100, k at level 200,
   format "'[v' 'do'  x  <-  m ; '/' k ']'").
Notation "'do' ' p <- m ; k" := (bind m (λ x, match x with p => k end))
  (at level 10, p pattern, m at level 100, k at level 200,
   format "'[v' 'do'  ' p  <-  m ; '/' k ']'").

(** A [for] loop threading the variables it updates. *)
Fixpoint for_each {A B} (body : B → A → M B) (acc : B) (l : list A) : M B :=
  match l with
  | [] => ret acc
  | x :: l' => do acc' <- body acc x; for_each body acc' l'
  end.

Definition log_request (rq : request) : M unit := λ w,
  (Returned tt, World (requests w ++ [rq]) (files w)).

Definition read_text (f : file) : M (option string) := λ w,
  (Returned (files w f), w).

(** [open(f, "w")] and the writes that follow: the old text is gone. *)
Definition write_text (f : file) (text : string) : M unit := λ w,
  (Returned tt,
   World (requests w) (λ g, if decide (g = f) then Some text else files w g)).

(** ** Constants of the script *)

Definition nl : string := String Py.LF EmptyString.

Definition README_START_MARKER : string := "<!-- VERSIONS_START -->".
Definition README_END_MARKER : string := "<!-- VERSIONS_END -->".
Definition ORG_NAME : string := "actions".

Definition EXTRA_REPOS : list string := [
  "DeLaGuardo/setup-clojure";
  "DeterminateSystems/determinate-nix-action";
  "DeterminateSystems/flake-checker-action";
  "DeterminateSystems/flakehub-cache-action";
  "DeterminateSystems/flakehub-push";
  "DeterminateSystems/magic-nix-cache-action";
  "DeterminateSystems/nix-installer-action";
  "docker/build-push-action";
  "tailscale/github-action"
].

(** ** The unversioned cache *)

(** The line boundaries of [str.splitlines] below 256. *)
Definition is_linebreak (c : ascii) : bool :=
  let n := Py.ord c in
  ((10 <=? n) && (n <=? 13)) || ((28 <=? n) && (n <=? 30)) || (n =? 133).

(** [text.splitlines()], with [line] the characters of the current line
    read so far; CR LF is one boundary. *)
Fixpoint splitlines_from (line : string) (text : string) : list string :=
  match text with
  | EmptyString => if nonempty line then [line] else []
  | String c text' =>
      if is_linebreak c then
        line :: match text' with
                | String c' text'' =>
                    if Ascii.eqb c Py.CR && Ascii.eqb c' Py.LF
                    then splitlines_from EmptyString text''
                    else splitlines_from EmptyString text'
                | EmptyString => []
                end
      else splitlines_from (line +:+ String c EmptyString) text'
  end.

Definition splitlines (text : string) : list string :=
  splitlines_from EmptyString text.

(** The set comprehension of [load_unversioned]. *)
Definition parse_unversioned (text : string) : gset string :=
  list_to_set
    (omap (λ line, if nonempty (Py.strip line)
                   then Some (Py.strip line) else None)
          (splitlines text)).

Definition load_unversioned : M (gset string) :=
  do text <- read_text UNVERSIONED_FILE;
  match text with
  | None => ret ∅
  | Some text => ret (parse_unversioned text)
  end.

(** [sorted(repos)] on a set of strings. *)
Definition sorted_set (repos : gset string) : list string :=
  Py.sort String.ltb id false (elements repos).

(** The text [save_unversioned] writes: one [f"{repo_name}\n"] per
    element. *)
Definition unversioned_text (repos : gset string) : string :=
  foldr (λ repo_name text, repo_name +:+ nl +:+ text) EmptyString
        (sorted_set repos).

Definition save_unversioned (repos : gset string) : M unit :=
  write_text UNVERSIONED_FILE (unversioned_text repos).

(** ** The two fetch loops *)

Definition per_page : N := 100.

Section script.
Variable net : transport.

Definition curl_repos (org : string) (page : N) : M (list repo) :=
  do _ <- log_request (ReposRequest org per_page page);
  match repos_reply net org per_page page with
  | Some page_repos => ret page_repos
  | None => raise
  end.

Definition curl_tags (org repo_name : string) (page : N) : M tags_page :=
  do _ <- log_request (TagsRequest org repo_name per_page page);
  match tags_reply net org repo_name per_page page with
  | Some page_tags => ret page_tags
  | None => raise
  end.

(** The [while True] of [fetch_repos], entered with the current [repos]
    and [page]. *)
Fixpoint fetch_repos_loop (fuel : nat) (org : string)
    (repos : list repo) (page : N) : M (list repo) :=
  match fuel with
  | O => out_of_fuel
  | S fuel' =>
      do page_repos <- curl_repos org page;
      match page_repos with
      | [] => ret repos
      | _ =>
          let repos := repos ++ page_repos in
          if N.of_nat (length page_repos) <? per_page then ret repos
          else fetch_repos_loop fuel' org repos (page + 1)
      end
  end.

Definition fetch_repos (fuel : nat) (org : string) : M (list repo) :=
  fetch_repos_loop fuel org [] 1.

(** The [while True] of [fetch_tags]. *)
Fixpoint fetch_tags_loop (fuel : nat) (org repo_name : string)
    (tags : list string) (page : N) : M (list string) :=
  match fuel with
  | O => out_of_fuel
  | S fuel' =>
      do page_tags <- curl_tags org repo_name page;
      match page_tags with
      | ApiError _ => ret tags
      | TagList [] => ret tags
      | TagList page_tags =>
          let tags := tags ++ (tag_name <$> page_tags) in
          if N.of_nat (length page_tags) <? per_page then ret tags
          else fetch_tags_loop fuel' org repo_name tags (page + 1)
      end
  end.

Definition fetch_tags (fuel : nat) (org repo_name : string) : M (list string) :=
  fetch_tags_loop fuel org repo_name [] 1.

(** ** [main] *)

(** [s.split(sep, 1)] when [sep] occurs in [s]. *)
Fixpoint split_once (sep : ascii) (s : string) : option (string * string) :=
  match s with
  | EmptyString => None
  | String c s' =>
      if Ascii.eqb c sep then Some (EmptyString, s')
      else match split_once sep s' with
           | Some (l, r) => Some (String c l, r)
           | None => None
           end
  end.

(** The body both [for] loops of [main] share: the cache test, the
    fetch, the selection, and the two accumulators.  The loop over the
    organization runs it with the bare name as [cache_key], the loop
    over [EXTRA_REPOS] with the full path. *)
Definition process_repo (fuel : nat) (unversioned : gset string)
    (org repo_name cache_key full_repo : string)
    (acc : list (string * string) * gset string)
    : M (list (string * string) * gset string) :=
  let '(versions, new_unversioned) := acc in
  if decide (cache_key ∈ unversioned)
  then ret (versions, new_unversioned ∪ {[cache_key]})
  else
    do tags <- fetch_tags fuel org repo_name;
    match get_latest_version_tag tags with
    | Some latest_tag =>
        if nonempty latest_tag
        then ret (versions ++ [(full_repo, latest_tag)], new_unversioned)
        else ret (versions, new_unversioned ∪ {[cache_key]})
    | None => ret (versions, new_unversioned ∪ {[cache_key]})
    end.

Definition process_org_repo (fuel : nat) (unversioned : gset string)
    (acc : list (string * string) * gset string) (r : repo) :=
  let repo_name := repo_name r in
  process_repo fuel unversioned ORG_NAME repo_name repo_name
    (ORG_NAME +:+ "/" +:+ repo_name) acc.

Definition process_extra_repo (fuel : nat) (unversioned : gset string)
    (acc : list (string * string) * gset string) (full_repo : string) :=
  match split_once "/" full_repo with
  | Some (org, repo_name) =>
      process_repo fuel unversioned org repo_name full_repo full_repo acc
  | None => raise
  end.

(** [main] up to the end of the second loop: the accepted records and
    the rebuilt unversioned set. *)
Definition collect (fuel : nat)
    : M (list (string * string) * gset string) :=
  do unversioned <- load_unversioned;
  do repos <- fetch_repos fuel ORG_NAME;
  do acc <- for_each (process_org_repo fuel unversioned) ([], ∅) repos;
  for_each (process_extra_repo fuel unversioned) acc EXTRA_REPOS.

(** [versions.sort(key=lambda x: x[0].lower())] *)
Definition sort_versions (versions : list (string * string))
    : list (string * string) :=
  Py.sort String.ltb (λ x, Py.lower x.1) false versions.

Definition version_line (x : string * string) : string :=
  x.1 +:+ "@" +:+ x.2.

Definition versions_content (versions : list (string * string)) : string :=
  Py.join nl (version_line <$> sort_versions versions) +:+ nl.

(** [needle in hay] *)
Fixpoint contains (needle hay : string) : bool :=
  String.prefix needle hay
  || match hay with
     | EmptyString => false
     | String _ hay' => contains needle hay'
     end.

(** [pattern.sub(new_section, readme_text)] for the pattern made of the
    two markers: the regex module, not the script, does the work.
    [None]: it raises. *)
Variable re_sub : string → string → option string.

Definition update_readme (versions_content : string) : M unit :=
  do readme <- read_text README_FILE;
  match readme with
  | None => ret tt
  | Some readme_text =>
      let new_section :=
        README_START_MARKER +:+ nl +:+ "## Latest versions" +:+ nl
        +:+ nl +:+ "```" +:+ nl +:+ versions_content +:+ "```" +:+ nl
        +:+ README_END_MARKER in
      if contains README_START_MARKER readme_text
         && contains README_END_MARKER readme_text
      then match re_sub new_section readme_text with
           | Some new_readme => write_text README_FILE new_readme
           | None => raise
           end
      else write_text README_FILE
             (Py.rstrip readme_text +:+ nl +:+ nl +:+ new_section +:+ nl)
  end.

(** [main] from the sort on: the three files are written in this
    order. *)
Definition publish (versions : list (string * string))
    (new_unversioned : gset string) : M unit :=
  let versions_content := versions_content versions in
  do _ <- write_text VERSIONS_FILE versions_content;
  do _ <- update_readme versions_content;
  save_unversioned new_unversioned.

Definition main (fuel : nat) : M unit :=
  do '(versions, new_unversioned) <- collect fuel;
  publish versions new_unversioned.

End script.

(** ** The selector, as the interpreter runs it

    Each of the three loops of [get_latest_version_tag] calls [int] on
    the groups of every tag it matches.  A call of the function
    therefore raises [ValueError] in the first loop that meets a group
    above the limit of [int]; a loop that is not reached converts
    nothing. *)

(** One [for] loop: the candidates in list order, [None] when a
    conversion raises. *)
Fixpoint candidates {G V : Type} (pattern : string → option G)
    (convert : G → option V) (tags : list string)
    : option (list (V * string)) :=
  match tags with
  | [] => Some []
  | tag :: tags' =>
      match pattern (Py.strip tag) with
      | Some g =>
          match convert g with
          | Some v =>
              (λ cands, (v, Py.strip tag) :: cands)
                <$> candidates pattern convert tags'
          | None => None
          end
      | None => candidates pattern convert tags'
      end
  end.

(** [int(match.group(1))], then [int(match.group(2))]. *)
Definition int_pair (g : string * string) : option (N * N) :=
  match Py.int_checked g.1 with
  | Some major =>
      match Py.int_checked g.2 with
      | Some minor => Some (major, minor)
      | None => None
      end
  | None => None
  end.

Definition get_latest_version_tag_call (tags : list string)
    : outcome (option string) :=
  match candidates vinteger_pattern Py.int_checked tags with
  | None => Raised
  | Some ((_ :: _) as cands) =>
      Returned (snd <$> head (Py.sort N.ltb fst true cands))
  | Some [] =>
      match candidates integer_pattern Py.int_checked tags with
      | None => Raised
      | Some ((_ :: _) as cands) =>
          Returned (snd <$> head (Py.sort N.ltb fst true cands))
      | Some [] =>
          match candidates major_minor_pattern int_pair tags with
          | None => Raised
          | Some ((_ :: _) as cands) =>
              Returned (snd <$> head (Py.sort Py.pair_ltb fst true cands))
          | Some [] => Returned None
          end
      end
  end.

(** ** [fetch_repos] on the replies of the API

    [fetch_repos] never looks at the shape of a page: it tests it for
    emptiness, extends [repos] with it and takes its length.  When the
    API refuses a request (rate limit, unknown organization) the page
    is one object and not a list; an empty object is falsy, the length
    of an object is the number of its keys, and extending a list with
    an object appends its keys. *)
Inductive repos_page :=
| RepoList (page_repos : list repo)
| RepoObject (keys : list string).

(** What [repos] holds then: records of list pages, keys of objects. *)
Inductive repos_entry :=
| RepoRecord (r : repo)
| ObjectKey (k : string).

(** The elements [repos.extend(page_repos)] appends. *)
Definition page_entries (page_repos : repos_page) : list repos_entry :=
  match page_repos with
  | RepoList page_repos => RepoRecord <$> page_repos
  | RepoObject keys => ObjectKey <$> keys
  end.

Section raw_transport.
Variable reply : string → N → N → option repos_page.

Definition curl_repos_raw (org : string) (page : N) : M repos_page :=
  do _ <- log_request (ReposRequest org per_page page);
  match reply org per_page page with
  | Some page_repos => ret page_repos
  | None => raise
  end.

Fixpoint fetch_repos_loop_raw (fuel : nat) (org : string)
    (repos : list repos_entry) (page : N) : M (list repos_entry) :=
  match fuel with
  | O => out_of_fuel
  | S fuel' =>
      do page_repos <- curl_repos_raw org page;
      match page_entries page_repos with
      | [] => ret repos
      | _ =>
          let repos := repos ++ page_entries page_repos in
          if N.of_nat (length (page_entries page_repos)) <? per_page
          then ret repos
          else fetch_repos_loop_raw fuel' org repos (page + 1)
      end
  end.

Definition fetch_repos_raw (fuel : nat) (org : string)
    : M (list repos_entry) :=
  fetch_repos_loop_raw fuel org [] 1.

End raw_transport.

(** The records of a list, as entries of [repos]. *)
Definition record_entries (o : outcome (list repo))
    : outcome (list repos_entry) :=
  match o with
  | Returned repos => Returned (RepoRecord <$> repos)
  | Raised => Raised
  | OutOfFuel => OutOfFuel
  end.

(** The replies of a typed transport, as pages of the API. *)
Definition list_pages (net : transport) (org : string) (per_page page : N)
    : option repos_page :=
  RepoList <$> repos_reply net org per_page page.

(** ** Vocabulary of the statements *)

(** What [list.sort] asks of [<] on the keys. *)
Class StrictWeakOrder {K : Type} (lt : K → K → bool) : Prop := {
  lt_irrefl a : lt a a = false;
  lt_trans a b c : lt a b = true → lt b c = true → lt a c = true;
  lt_incomp a b c : lt a b = false → lt b c = false → lt a c = false
}.

(** The integer a stripped tag carries under each convention. *)
Definition vinteger_of (s : string) : option N :=
  Py.int <$> vinteger_pattern s.
Definition integer_of (s : string) : option N :=
  Py.int <$> integer_pattern s.
Definition major_minor_of (s : string) : option (N * N) :=
  (λ g, (Py.int g.1, Py.int g.2)) <$> major_minor_pattern s.

(** Every character is in the class [\d]. *)
Fixpoint all_digits (s : string) : bool :=
  match s with
  | EmptyString => true
  | String c s' => Py.isdigit c && all_digits s'
  end.

(** The digit group without its leading zeros. *)
Fixpoint drop_zeros (s : string) : string :=
  match s with
  | EmptyString => EmptyString
  | String c s' => if Ascii.eqb c "0"%char then drop_zeros s' else s
  end.

(** No leading zero: empty, or starting with another character. *)
Definition no_leading_zero (s : string) : bool :=
  match s with
  | EmptyString => true
  | String c _ => negb (Ascii.eqb c "0"%char)
  end.

(** The way [str(n)] writes an integer: no zero in front, except for
    the single digit of 0. *)
Definition canonical (g : string) : bool :=
  match g with
  | EmptyString => false
  | String c rest => negb (Ascii.eqb c "0"%char) || negb (nonempty rest)
  end.

(** [len(s)] *)
Definition len (s : string) : N := N.of_nat (String.length s).

(** [int] converts the digit group: it is within the limit. *)
Definition convertible (g : string) : Prop :=
  len g ≤ Py.int_max_str_digits.

(** A loop of the selector is reached and has a group to convert that
    is above the limit: the [vN] loop, or the bare-integer loop when
    no tag matches [vN], or the major.minor loop when no tag matches
    either. *)
Definition raising (tags : list string) : Prop :=
  (∃ t g, t ∈ tags ∧ vinteger_pattern (Py.strip t) = Some g
     ∧ ¬ convertible g)
  ∨ ((∀ t, t ∈ tags → vinteger_pattern (Py.strip t) = None)
     ∧ ∃ t g, t ∈ tags ∧ integer_pattern (Py.strip t) = Some g
         ∧ ¬ convertible g)
  ∨ ((∀ t, t ∈ tags → vinteger_pattern (Py.strip t) = None)
     ∧ (∀ t, t ∈ tags → integer_pattern (Py.strip t) = None)
     ∧ ∃ t a b, t ∈ tags ∧ major_minor_pattern (Py.strip t) = Some (a, b)
         ∧ (¬ convertible a ∨ ¬ convertible b)).

(** Written with the characters [0] to [9] only. *)
Fixpoint ascii_digits (s : string) : bool :=
  match s with
  | EmptyString => true
  | String c s' =>
      (48 <=? Py.ord c) && (Py.ord c <=? 57) && ascii_digits s'
  end.

(** [c * n] *)
Fixpoint repeat_char (c : ascii) (n : nat) : string :=
  match n with
  | O => EmptyString
  | S n' => String c (repeat_char c n')
  end.

(** [s[-1]], when there is one. *)
Fixpoint last_char (s : string) : option ascii :=
  match s with
  | EmptyString => None
  | String c EmptyString => Some c
  | String _ s' => last_char s'
  end.

(** A text made of lines, each followed by a line feed. *)
Definition lines_text (lines : list string) : string :=
  foldr (λ line text, line +:+ nl +:+ text) EmptyString lines.

(** Every character is whitespace for [str.strip]. *)
Fixpoint all_space (s : string) : bool :=
  match s with
  | EmptyString => true
  | String c s' => Py.isspace c && all_space s'
  end.

(** [s[0]], when there is one. *)
Definition first_char (s : string) : option ascii :=
  match s with
  | EmptyString => None
  | String c _ => Some c
  end.

(** The world after the requests [rqs] were made in [w]. *)
Definition logged (rqs : list request) (w : world) : world :=
  World (requests w ++ rqs) (files w).

(** The requests for [n] successive pages starting at [page]. *)
Definition pages_from (mk : N → request) (page : N) (n : nat) : list request :=
  (λ i, mk (page + N.of_nat i)) <$> seq 0 n.

(** The set [load_unversioned] returns in a given world. *)
Definition cached (w : world) : gset string :=
  match files w UNVERSIONED_FILE with
  | None => ∅
  | Some text => parse_unversioned text
  end.

(** A repository to process: where its tags are, the key it has in the
    cache, and the path it has in the manifest. *)
Record target := Target {
  t_org : string; t_repo : string; t_key : string; t_path : string
}.

(** The target the first loop of [main] makes of a record of the
    organization, and the second of an entry of [EXTRA_REPOS]. *)
Definition org_target (r : repo) : option target :=
  Some (Target ORG_NAME (repo_name r) (repo_name r)
               (ORG_NAME +:+ "/" +:+ repo_name r)).

Definition extra_target (full_repo : string) : option target :=
  (λ p, Target p.1 p.2 full_repo full_repo) <$> split_once "/" full_repo.

Section loop_vocabulary.
Context (net : transport) (fuel : nat) (unversioned : gset string).

(** The selector found nothing to accept in the fetched tags. *)
Definition found_unversioned (t : target) : Prop :=
  ∃ w0 tags w1,
    fetch_tags net fuel (t_org t) (t_repo t) w0 = (Returned tags, w1)
    ∧ get_latest_version_tag tags = None.

(** The body of either loop of [main], by the target it works on. *)
Definition process_target {A : Type} (tgt : A → option target)
    (acc : list (string * string) * gset string) (x : A)
    : M (list (string * string) * gset string) :=
  match tgt x with
  | Some t =>
      process_repo net fuel unversioned
        (t_org t) (t_repo t) (t_key t) (t_path t) acc
  | None => raise
  end.

End loop_vocabulary.

(** No character is a line boundary of [str.splitlines]. *)
Fixpoint no_linebreak (s : string) : bool :=
  match s with
  | EmptyString => true
  | String c s' => negb (is_linebreak c) && no_linebreak s'
  end.

(** An identifier the cache file gives back as it was written: not
    empty, no whitespace at its ends, no line boundary inside. *)
Definition clean_identifier (s : string) : Prop :=
  nonempty s = true ∧ Py.strip s = s ∧ no_linebreak s = true.

(** What follows a line boundary [c]: the line feed of a CR LF pair
    belongs to the boundary. *)
Definition after_break (c : ascii) (text : string) : string :=
  match text with
  | String c' text' =>
      if Ascii.eqb c Py.CR && Ascii.eqb c' Py.LF then text' else text
  | EmptyString => EmptyString
  end.

(** The characters a selected tag is made of. *)
Definition tag_char (c : ascii) : bool :=
  Py.isdigit c || Ascii.eqb c "v"%char || Ascii.eqb c "."%char.

Fixpoint all_tag_chars (s : string) : bool :=
  match s with
  | EmptyString => true
  | String c s' => tag_char c && all_tag_chars s'
  end.

(** The tag matches one of the three patterns once stripped. *)
Definition classified (t : string) : bool :=
  bool_decide (is_Some (vinteger_pattern (Py.strip t)))
  || bool_decide (is_Some (integer_pattern (Py.strip t)))
  || bool_decide (is_Some (major_minor_pattern (Py.strip t))).

(** The selector accepted [latest_tag] among the fetched tags. *)
Definition accepted (net : transport) (fuel : nat) (t : target)
    (latest_tag : string) : Prop :=
  ∃ w0 tags w1,
    fetch_tags net fuel (t_org t) (t_repo t) w0 = (Returned tags, w1)
    ∧ get_latest_version_tag tags = Some latest_tag.

(** The section [update_readme] puts between the markers. *)
Definition readme_section (versions_content : string) : string :=
  README_START_MARKER +:+ nl +:+ "## Latest versions" +:+ nl
  +:+ nl +:+ "```" +:+ nl +:+ versions_content +:+ "```" +:+ nl
  +:+ README_END_MARKER.

(** [sep in s], for one character. *)
Fixpoint has_char (sep : ascii) (s : string) : bool :=
  match s with
  | EmptyString => false
  | String c s' => Ascii.eqb c sep || has_char sep s'
  end.

(** ** Sample transports and worlds *)

(** A digit group one digit above the limit of [int], and tags made of
    it. *)
Definition long_group : string := repeat_char "1" 4301.

Definition long_vinteger_tag : string := String "v" long_group.

Definition long_major_minor_tag : string := "1." +:+ long_group.

(** The object the API sends instead of a page once the rate limit is
    reached, on every page. *)
Definition rate_limit_object : repos_page :=
  RepoObject ["message"; "documentation_url"].

Definition rate_limited_reply (org : string) (per_page page : N)
    : option repos_page :=
  Some rate_limit_object.

(** A full page of tags, and one of repositories. *)
Definition full_page : list tag := replicate 100 (Tag "v1").

Definition full_repo_page : list repo := replicate 100 (Repo "repo").

(** The API answers the second page of tags with a rate-limit error. *)
Definition limited_net : transport :=
  Transport (λ _ _ _, None)
            (λ _ _ _ page,
               if page =? 1 then Some (TagList full_page)
               else Some (ApiError "API rate limit exceeded")).

(** Two pages of repositories, and three of tags, the last one empty. *)
Definition two_page_net : transport :=
  Transport (λ _ _ page,
               if page =? 1 then Some full_repo_page
               else Some [Repo "repo-100"])
            (λ _ _ _ page,
               if page =? 1 then Some (TagList full_page)
               else if page =? 2 then Some (TagList full_page)
               else Some (TagList [])).

(** An organization without repositories, repositories without tags. *)
Definition quiet_net : transport :=
  Transport (λ _ _ _, Some []) (λ _ _ _ _, Some (TagList [])).

Definition fresh_world : world := World [] (λ _, None).

(** A run with a cache: one repository of the organization and one
    extra repository are cached, and one cached name is gone. *)
Definition cache_net : transport :=
  Transport
    (λ _ _ page,
       if page =? 1
       then Some [Repo "setup-python"; Repo "cached-no-tags"; Repo "starter"]
       else Some [])
    (λ org repo_name _ _,
       if String.eqb repo_name "setup-python"
       then Some (TagList [Tag "v1"; Tag "v5"])
       else if String.eqb org "docker"
       then Some (TagList [Tag "v6"; Tag "6.1"])
       else Some (TagList [Tag "nightly"])).

Definition cache_world : world :=
  World [] (λ f, match f with
                 | UNVERSIONED_FILE =>
                     Some ("cached-no-tags" +:+ nl +:+ "gone" +:+ nl
                           +:+ "tailscale/github-action" +:+ nl)
                 | _ => None
                 end).

Definition cache_final : world :=
  (main cache_net (λ _ _, None) 2 cache_world).2.

(** Every page is full, whatever its number. *)
Definition endless_net : transport :=
  Transport (λ _ _ _, Some full_repo_page)
            (λ _ _ _ _, Some (TagList full_page)).

(** The second page of either listing cannot be fetched. *)
Definition broken_net : transport :=
  Transport (λ _ _ page, if page =? 1 then Some full_repo_page else None)
            (λ _ _ _ page,
               if page =? 1 then Some (TagList full_page) else None).

(** A world whose README has no markers yet. *)
Definition plain_readme_world : world :=
  World [] (λ f, match f with
                 | README_FILE => Some ("# actions-latest" +:+ nl +:+ nl)
                 | _ => None
                 end).

(** A README with both markers. *)
Definition marked_readme : string :=
  "# actions-latest" +:+ nl +:+ README_START_MARKER +:+ nl
  +:+ README_END_MARKER +:+ nl.

Definition marked_readme_world : world :=
  World [] (λ f, match f with
                 | README_FILE => Some marked_readme
                 | UNVERSIONED_FILE => Some ("old" +:+ nl)
                 | VERSIONS_FILE => None
                 end).

(** The records and the unversioned set of the sample run. *)
Definition cache_versions : list (string * string) :=
  [("actions/setup-python", "v5"); ("docker/build-push-action", "v6")].

Definition cache_unversioned : gset string :=
  list_to_set
    ["cached-no-tags"; "starter"; "DeLaGuardo/setup-clojure";
     "DeterminateSystems/determinate-nix-action";
     "DeterminateSystems/flake-checker-action";
     "DeterminateSystems/flakehub-cache-action";
     "DeterminateSystems/flakehub-push";
     "DeterminateSystems/magic-nix-cache-action";
     "DeterminateSystems/nix-installer-action";
     "tailscale/github-action"].

Definition sample_cache_text : string :=
  "  repo1 " +:+ nl +:+ nl +:+ "docker/build-push-action".

(** ** Facts about the runtime *)

Lemma append_nil_l s : EmptyString +:+ s = s.
Proof. reflexivity. Qed.

Lemma append_cons c s t : String c s +:+ t = String c (s +:+ t).
Proof. reflexivity. Qed.

Lemma append_nil_r s : s +:+ EmptyString = s.
Proof. induction s as [|c s IH]; [done|]. by rewrite append_cons, IH. Qed.

Lemma append_assoc s t u : (s +:+ t) +:+ u = s +:+ t +:+ u.
Proof.
  induction s as [|c s IH]; [done|]. by rewrite !append_cons, IH.
Qed.

Lemma last_char_snoc s c : last_char (s +:+ String c EmptyString) = Some c.
Proof.
  induction s as [|d s IH]; [done|]. rewrite append_cons.
  destruct s; [done|]. rewrite append_cons in *. exact IH.
Qed.

(** What [rstrip] leaves does not end in whitespace. *)
Lemma rstrip_last s c :
  last_char (Py.rstrip s) = Some c → Py.isspace c = false.
Proof.
  induction s as [|d s IH]; simpl; [done|].
  destruct (Py.rstrip s) as [|e r] eqn:Hr.
  - destruct (Py.isspace d) eqn:Hd; simpl; [done|]. by intros [= <-].
  - simpl. exact IH.
Qed.

(** What [lstrip] leaves does not start with whitespace. *)
Lemma lstrip_first s c s' :
  Py.lstrip s = String c s' → Py.isspace c = false.
Proof.
  induction s as [|d s IH]; simpl; [done|].
  destruct (Py.isspace d) eqn:Hd; [done|]. by intros [= <- _].
Qed.

Lemma rstrip_first s c s' :
  Py.rstrip s = String c s' → ∃ s'', s = String c s''.
Proof.
  destruct s as [|d s]; simpl; [done|].
  destruct (Py.rstrip s); [destruct (Py.isspace d)|]; intros [= <- _]; eauto.
Qed.

Lemma strip_first t c s : Py.strip t = String c s → Py.isspace c = false.
Proof.
  unfold Py.strip. intros [s' Hs']%rstrip_first. by eapply lstrip_first.
Qed.

Lemma strip_not_newline_end t s : Py.strip t ≠ s +:+ nl.
Proof.
  intros H.
  assert (last_char (Py.strip t) = Some Py.LF) as Hl.
  { rewrite H. apply last_char_snoc. }
  by apply rstrip_last in Hl.
Qed.

Lemma lstrip_spec s :
  ∃ l, s = l +:+ Py.lstrip s ∧ all_space l = true.
Proof.
  induction s as [|c s (l & Hl & Hsp)]; [by exists EmptyString|]. simpl.
  destruct (Py.isspace c) eqn:Hc; [|by exists EmptyString].
  exists (String c l). rewrite append_cons, <-Hl. simpl. by rewrite Hc, Hsp.
Qed.

Lemma rstrip_spec s :
  ∃ r, s = Py.rstrip s +:+ r ∧ all_space r = true.
Proof.
  induction s as [|c s (r & Hr & Hsp)]; [by exists EmptyString|]. simpl.
  destruct (Py.rstrip s) as [|e s'] eqn:Hs.
  - rewrite append_nil_l in Hr. subst r.
    destruct (Py.isspace c) eqn:Hc.
    + exists (String c s). rewrite append_nil_l. simpl. by rewrite Hc, Hsp.
    + by exists s.
  - exists r. by rewrite append_cons, <-Hr.
Qed.

(** [strip] removes a run of whitespace at either end, and all of it. *)
Lemma strip_spec s :
  (∃ l r, s = l +:+ Py.strip s +:+ r
     ∧ all_space l = true ∧ all_space r = true)
  ∧ (∀ c, first_char (Py.strip s) = Some c → Py.isspace c = false)
  ∧ (∀ c, last_char (Py.strip s) = Some c → Py.isspace c = false).
Proof.
  split_and!.
  - destruct (lstrip_spec s) as (l & Hl & Hsl).
    destruct (rstrip_spec (Py.lstrip s)) as (r & Hr & Hsr).
    exists l, r. unfold Py.strip. by rewrite <-Hr.
  - intros c. destruct (Py.strip s) as [|d s'] eqn:Hs; [done|].
    intros [= <-]. by eapply strip_first.
  - intros c. apply rstrip_last.
Qed.

Lemma lt_asym {K : Type} (lt : K → K → bool) `{!StrictWeakOrder lt} a b :
  lt a b = true → lt b a = false.
Proof.
  intros Hab. apply not_true_iff_false. intros Hba.
  pose proof (lt_trans _ _ _ Hab Hba) as Haa. by rewrite lt_irrefl in Haa.
Qed.

Global Instance N_ltb_swo : StrictWeakOrder N.ltb.
Proof.
  split.
  - intros a. apply N.ltb_irrefl.
  - intros a b c ?%N.ltb_lt ?%N.ltb_lt. apply N.ltb_lt. lia.
  - intros a b c ?%N.ltb_ge ?%N.ltb_ge. apply N.ltb_ge. lia.
Qed.

Lemma pair_ltb_true a b :
  Py.pair_ltb a b = true ↔ a.1 < b.1 ∨ (a.1 = b.1 ∧ a.2 < b.2).
Proof.
  unfold Py.pair_ltb.
  rewrite orb_true_iff, andb_true_iff, !N.ltb_lt, N.eqb_eq. tauto.
Qed.

Lemma pair_ltb_false a b :
  Py.pair_ltb a b = false ↔ b.1 < a.1 ∨ (a.1 = b.1 ∧ b.2 ≤ a.2).
Proof.
  rewrite <-not_true_iff_false, pair_ltb_true. lia.
Qed.

Global Instance pair_ltb_swo : StrictWeakOrder Py.pair_ltb.
Proof.
  split.
  - intros a. apply pair_ltb_false. lia.
  - intros a b c. rewrite !pair_ltb_true. lia.
  - intros a b c. rewrite !pair_ltb_false. lia.
Qed.

Lemma string_ltb_leb a b : String.ltb a b = negb (String.leb b a).
Proof.
  unfold String.ltb, String.leb. rewrite (String.compare_antisym b a).
  by destruct (String.compare a b).
Qed.

Global Instance string_ltb_swo : StrictWeakOrder String.ltb.
Proof.
  split.
  - intros a. rewrite string_ltb_leb. apply negb_false_iff.
    apply Is_true_true. by apply (reflexivity (R:=String.le)).
  - intros a b c. rewrite !string_ltb_leb, !negb_true_iff.
    intros Hba Hcb. apply not_true_iff_false. intros Hca.
    destruct (String.leb_total a b) as [Hab|Hab]; [|congruence].
    assert (String.le c b) as Hle.
    { transitivity a; by apply Is_true_true. }
    apply Is_true_true in Hle. congruence.
  - intros a b c. rewrite !string_ltb_leb, !negb_false_iff.
    intros Hba Hcb. apply Is_true_true.
    change (String.le c a). transitivity b; by apply Is_true_true.
Qed.

Section sort_facts.
Context {A K : Type} (lt : K → K → bool) (key : A → K).
Context `{!StrictWeakOrder lt}.

Local Abbreviation insert_sorted := (Py.insert_sorted lt key).
Local Abbreviation stable_sort := (Py.stable_sort lt key).

Lemma insert_sorted_perm x l : insert_sorted x l ≡ₚ x :: l.
Proof.
  induction l as [|y l IH]; simpl; [done|].
  destruct (lt (key y) (key x)); [|done].
  rewrite IH. apply Permutation_swap.
Qed.

Lemma stable_sort_perm l : stable_sort l ≡ₚ l.
Proof.
  induction l as [|x l IH]; simpl; [done|].
  rewrite insert_sorted_perm. by f_equiv.
Qed.

Lemma sort_perm rev l : Py.sort lt key rev l ≡ₚ l.
Proof.
  destruct rev; simpl; [|apply stable_sort_perm].
  by rewrite reverse_Permutation, stable_sort_perm, reverse_Permutation.
Qed.

(** The element that ends up last after an insertion. *)
Lemma last_insert_sorted x l :
  last (insert_sorted x l)
  = if forallb (λ y, lt (key y) (key x)) l then Some x else last l.
Proof.
  induction l as [|y l IH]; simpl; [done|].
  destruct (lt (key y) (key x)) eqn:Hyx; simpl.
  - rewrite last_cons, IH.
    destruct (forallb _ l) eqn:Hall; [done|].
    destruct l as [|a l]; [done|]. rewrite last_cons_cons.
    destruct (last (a :: l)) eqn:E; [done|]. by apply last_None in E.
  - done.
Qed.

(** The last element of the ascending sort is the last of the maximal
    elements of the input. *)
Lemma last_stable_sort l m :
  last (stable_sort l) = Some m →
  ∃ pre post, l = pre ++ m :: post
    ∧ Forall (λ y, lt (key m) (key y) = false) pre
    ∧ Forall (λ y, lt (key y) (key m) = true) post.
Proof.
  revert m. induction l as [|x l IH]; intros m; simpl; [done|].
  rewrite last_insert_sorted.
  destruct (forallb _ (stable_sort l)) eqn:Hall.
  - intros [= <-]. exists [], l. split_and!; [done|constructor|].
    apply Forall_forall. intros y Hy.
    rewrite forallb_forall in Hall. apply Hall.
    apply list_elem_of_In. by rewrite stable_sort_perm.
  - intros Hm. destruct (IH _ Hm) as (pre & post & -> & Hpre & Hpost).
    exists (x :: pre), post. split_and!; [done| |done].
    constructor; [|done].
    apply not_true_iff_false in Hall. apply not_true_iff_false.
    intros Hmx. apply Hall. apply forallb_forall. intros y Hy.
    apply list_elem_of_In in Hy. rewrite stable_sort_perm in Hy.
    apply elem_of_app in Hy as [Hy|Hy].
    + rewrite Forall_forall in Hpre.
      destruct (lt (key y) (key x)) eqn:Hyx; [done|].
      by rewrite (lt_incomp _ _ _ (Hpre _ Hy) Hyx) in Hmx.
    + apply elem_of_cons in Hy as [->|Hy]; [done|].
      rewrite Forall_forall in Hpost. eapply lt_trans; eauto.
Qed.

(** [l.sort(reverse=True); l[0]] is the first of the maximal elements. *)
Lemma head_sort_reverse l m :
  head (Py.sort lt key true l) = Some m →
  ∃ pre post, l = pre ++ m :: post
    ∧ Forall (λ y, lt (key y) (key m) = true) pre
    ∧ Forall (λ y, lt (key m) (key y) = false) post.
Proof.
  simpl. rewrite head_reverse. intros Hm.
  apply last_stable_sort in Hm as (pre & post & Hl & Hpre & Hpost).
  exists (reverse post), (reverse pre). split_and!.
  - rewrite <-(reverse_involutive l), Hl, reverse_app, reverse_cons.
    by rewrite <-app_assoc.
  - by apply Forall_reverse.
  - by apply Forall_reverse.
Qed.

Lemma head_sort_is_Some rev l :
  l ≠ [] → is_Some (head (Py.sort lt key rev l)).
Proof.
  intros Hl. apply head_is_Some. intros Hnil. apply Hl.
  apply Permutation_nil_r. by rewrite <-Hnil, sort_perm.
Qed.

(** The ascending sort is sorted: no element is above a later one. *)
Lemma stable_sort_sorted l :
  StronglySorted (λ a b, lt (key b) (key a) = false) (stable_sort l).
Proof.
  apply Sorted_StronglySorted.
  { intros a b c Hab Hbc. by eapply lt_incomp. }
  induction l as [|x l IH]; simpl; [constructor|].
  revert IH. generalize (stable_sort l) as s. clear l.
  induction s as [|y s IHs]; simpl; intros Hs.
  { repeat constructor. }
  destruct (lt (key y) (key x)) eqn:Hyx.
  - apply Sorted_inv in Hs as [Hs Hhd]. constructor; [by apply IHs|].
    destruct s as [|z s]; simpl.
    + constructor. by apply lt_asym.
    + destruct (lt (key z) (key x)).
      * constructor. by apply HdRel_inv in Hhd.
      * constructor. by apply lt_asym.
  - constructor; [done|]. by constructor.
Qed.
End sort_facts.

Lemma head_sort_reverse_max {A K : Type} (lt : K → K → bool) (key : A → K)
    `{!StrictWeakOrder lt} (l : list A) (m : A) :
  head (Py.sort lt key true l) = Some m →
  m ∈ l ∧ ∀ y, y ∈ l → lt (key m) (key y) = false.
Proof.
  intros (pre & post & -> & Hpre & Hpost)%head_sort_reverse; [|done].
  split; [set_solver|]. intros y Hy.
  rewrite Forall_forall in Hpre. rewrite Forall_forall in Hpost.
  apply elem_of_app in Hy as [Hy|Hy]; [by apply lt_asym, Hpre|].
  apply elem_of_cons in Hy as [->|Hy]; [apply lt_irrefl|by apply Hpost].
Qed.

Section omap_facts.
Context {A B : Type} (f : A → option B).

Lemma omap_nil_iff (l : list A) : omap f l = [] ↔ ∀ x, x ∈ l → f x = None.
Proof.
  induction l as [|x l IH]; simpl.
  - split; [intros _ y Hy; inversion Hy|done].
  - destruct (f x) eqn:Hx.
    + split; [done|]. intros H. specialize (H x). rewrite Hx in H.
      discriminate H. left.
    + rewrite IH. split.
      * intros H y [->|Hy]%elem_of_cons; auto.
      * intros H y Hy. apply H. by right.
Qed.

(** A split of the filtered list comes from a split of the input. *)
Lemma omap_app_cons_inv (l : list A) pre m post :
  omap f l = pre ++ m :: post →
  ∃ lpre x lpost, l = lpre ++ x :: lpost ∧ f x = Some m
    ∧ omap f lpre = pre ∧ omap f lpost = post.
Proof.
  revert pre. induction l as [|x l IH]; intros pre; simpl.
  { by destruct pre. }
  destruct (f x) as [y|] eqn:Hx.
  - destruct pre as [|p pre]; simpl.
    + intros [= -> <-]. by exists [], x, l.
    + intros [= -> Hl]. destruct (IH _ Hl) as (lp & z & lq & -> & ? & ? & ?).
      exists (x :: lp), z, lq. simpl. rewrite Hx. by subst.
  - intros Hl. destruct (IH _ Hl) as (lp & z & lq & -> & ? & ? & ?).
    exists (x :: lp), z, lq. simpl. by rewrite Hx.
Qed.
End omap_facts.

(** ** Facts about the patterns *)

Lemma span_digits_not_digit c s :
  Py.isdigit c = false → span_digits (String c s) = (EmptyString, String c s).
Proof. intros H. simpl. by rewrite H. Qed.

Lemma vinteger_not_integer s :
  is_Some (vinteger_pattern s) →
  integer_pattern s = None ∧ major_minor_pattern s = None.
Proof.
  destruct s as [|c s]; simpl; [by intros [? ?]|].
  destruct (Ascii.eqb_spec c "v") as [->|]; [|by intros [? ?]].
  intros _. unfold integer_pattern, digits_then_end, major_minor_pattern.
  by rewrite span_digits_not_digit.
Qed.

Lemma integer_not_major_minor s :
  is_Some (integer_pattern s) →
  vinteger_pattern s = None ∧ major_minor_pattern s = None.
Proof.
  intros Hint. split.
  - destruct (vinteger_pattern s) eqn:Hv; [|done].
    destruct (vinteger_not_integer s) as [Hn _]; [by eexists|].
    rewrite Hn in Hint. by destruct Hint.
  - revert Hint. unfold integer_pattern, digits_then_end, major_minor_pattern.
    destruct (span_digits s) as [ds rest].
    destruct (nonempty ds); simpl; [|by intros [? ?]].
    destruct rest as [|c [|c' rest]]; simpl; [done| |by intros [? ?]].
    destruct (Ascii.eqb_spec c Py.LF) as [->|]; [done|by intros [? ?]].
Qed.

Lemma major_minor_not_integer s :
  is_Some (major_minor_pattern s) →
  vinteger_pattern s = None ∧ integer_pattern s = None.
Proof.
  intros Hmm. split.
  - destruct (vinteger_pattern s) eqn:Hv; [|done].
    destruct (vinteger_not_integer s) as [_ Hn]; [by eexists|].
    rewrite Hn in Hmm. by destruct Hmm.
  - destruct (integer_pattern s) eqn:Hv; [|done].
    destruct (integer_not_major_minor s) as [_ Hn]; [by eexists|].
    rewrite Hn in Hmm. by destruct Hmm.
Qed.

(** ** Facts about the selector *)

Lemma elem_of_vinteger_tags m tags :
  m ∈ vinteger_tags tags ↔
  ∃ t, t ∈ tags ∧ vinteger_of (Py.strip t) = Some m.1 ∧ m.2 = Py.strip t.
Proof.
  unfold vinteger_tags, vinteger_of. rewrite list_elem_of_omap.
  split; intros (t & Ht & H); exists t; (split; [done|]).
  - destruct (vinteger_pattern _); simplify_eq/=. done.
  - destruct H as [H1 H2]. destruct m as [n r].
    destruct (vinteger_pattern _); simplify_eq/=. done.
Qed.

Lemma elem_of_integer_tags m tags :
  m ∈ integer_tags tags ↔
  ∃ t, t ∈ tags ∧ integer_of (Py.strip t) = Some m.1 ∧ m.2 = Py.strip t.
Proof.
  unfold integer_tags, integer_of. rewrite list_elem_of_omap.
  split; intros (t & Ht & H); exists t; (split; [done|]).
  - destruct (integer_pattern _); simplify_eq/=. done.
  - destruct H as [H1 H2]. destruct m as [n r].
    destruct (integer_pattern _); simplify_eq/=. done.
Qed.

Lemma elem_of_major_minor_tags m tags :
  m ∈ major_minor_tags tags ↔
  ∃ t, t ∈ tags ∧ major_minor_of (Py.strip t) = Some m.1 ∧ m.2 = Py.strip t.
Proof.
  unfold major_minor_tags, major_minor_of. rewrite list_elem_of_omap.
  split; intros (t & Ht & H); exists t; (split; [done|]).
  - destruct (major_minor_pattern _); simplify_eq/=. done.
  - destruct H as [H1 H2]. destruct m as [[a b] r].
    destruct (major_minor_pattern _) as [[g1 g2]|]; simplify_eq/=. done.
Qed.

Lemma vinteger_tags_nil tags :
  vinteger_tags tags = [] ↔
  ∀ t, t ∈ tags → vinteger_pattern (Py.strip t) = None.
Proof.
  unfold vinteger_tags. rewrite omap_nil_iff.
  split; intros H t Ht; specialize (H t Ht);
    by destruct (vinteger_pattern _).
Qed.

Lemma integer_tags_nil tags :
  integer_tags tags = [] ↔
  ∀ t, t ∈ tags → integer_pattern (Py.strip t) = None.
Proof.
  unfold integer_tags. rewrite omap_nil_iff.
  split; intros H t Ht; specialize (H t Ht);
    by destruct (integer_pattern _).
Qed.

Lemma major_minor_tags_nil tags :
  major_minor_tags tags = [] ↔
  ∀ t, t ∈ tags → major_minor_pattern (Py.strip t) = None.
Proof.
  unfold major_minor_tags. rewrite omap_nil_iff.
  split; intros H t Ht; specialize (H t Ht);
    by destruct (major_minor_pattern _).
Qed.

(** Which branch of the selector runs. *)
Lemma get_latest_vinteger tags :
  vinteger_tags tags ≠ [] →
  get_latest_version_tag tags
  = snd <$> head (Py.sort N.ltb fst true (vinteger_tags tags)).
Proof. unfold get_latest_version_tag. by destruct (vinteger_tags tags). Qed.

Lemma get_latest_integer tags :
  vinteger_tags tags = [] → integer_tags tags ≠ [] →
  get_latest_version_tag tags
  = snd <$> head (Py.sort N.ltb fst true (integer_tags tags)).
Proof.
  unfold get_latest_version_tag. intros ->.
  by destruct (integer_tags tags).
Qed.

Lemma get_latest_major_minor tags :
  vinteger_tags tags = [] → integer_tags tags = [] →
  major_minor_tags tags ≠ [] →
  get_latest_version_tag tags
  = snd <$> head (Py.sort Py.pair_ltb fst true (major_minor_tags tags)).
Proof.
  unfold get_latest_version_tag. intros -> ->.
  by destruct (major_minor_tags tags).
Qed.

Lemma get_latest_none tags :
  vinteger_tags tags = [] → integer_tags tags = [] →
  major_minor_tags tags = [] →
  get_latest_version_tag tags = None.
Proof. unfold get_latest_version_tag. by intros -> -> ->. Qed.

(** The candidate the [vN] branch returns: the first one, in list order,
    of those with the largest integer. *)
Lemma select_first_max {V : Type} (lt : V → V → bool) `{!StrictWeakOrder lt}
    (cands : list (V * string)) :
  cands ≠ [] →
  ∃ pre m post, cands = pre ++ m :: post
    ∧ snd <$> head (Py.sort lt fst true cands) = Some m.2
    ∧ Forall (λ y, lt y.1 m.1 = true) pre
    ∧ Forall (λ y, lt m.1 y.1 = false) post.
Proof.
  intros Hne.
  destruct (head_sort_is_Some lt fst true cands Hne) as [m Hm].
  destruct (head_sort_reverse lt fst cands m Hm) as (pre & post & ? & ? & ?).
  exists pre, m, post. by rewrite Hm.
Qed.

Lemma select_max {V : Type} (lt : V → V → bool) `{!StrictWeakOrder lt}
    (cands : list (V * string)) :
  cands ≠ [] →
  ∃ m, snd <$> head (Py.sort lt fst true cands) = Some m.2
    ∧ m ∈ cands ∧ ∀ y, y ∈ cands → lt m.1 y.1 = false.
Proof.
  intros Hne.
  destruct (head_sort_is_Some lt fst true cands Hne) as [m Hm].
  destruct (head_sort_reverse_max lt fst cands m Hm) as [? ?].
  exists m. by rewrite Hm.
Qed.

Lemma vinteger_tags_ne tags t :
  t ∈ tags → is_Some (vinteger_pattern (Py.strip t)) → vinteger_tags tags ≠ [].
Proof.
  intros Ht [g Hg] Hnil. rewrite vinteger_tags_nil in Hnil.
  by rewrite (Hnil t Ht) in Hg.
Qed.

Lemma integer_tags_ne tags t :
  t ∈ tags → is_Some (integer_pattern (Py.strip t)) → integer_tags tags ≠ [].
Proof.
  intros Ht [g Hg] Hnil. rewrite integer_tags_nil in Hnil.
  by rewrite (Hnil t Ht) in Hg.
Qed.

Lemma major_minor_tags_ne tags t :
  t ∈ tags → is_Some (major_minor_pattern (Py.strip t)) →
  major_minor_tags tags ≠ [].
Proof.
  intros Ht [g Hg] Hnil. rewrite major_minor_tags_nil in Hnil.
  by rewrite (Hnil t Ht) in Hg.
Qed.

(** The selector returns a tag of the [vN] pool as soon as the pool is
    not empty, and the one with the largest integer. *)
Lemma select_vinteger tags :
  vinteger_tags tags ≠ [] →
  ∃ t n, t ∈ tags
    ∧ get_latest_version_tag tags = Some (Py.strip t)
    ∧ vinteger_of (Py.strip t) = Some n
    ∧ ∀ u k, u ∈ tags → vinteger_of (Py.strip u) = Some k → k ≤ n.
Proof.
  intros Hne. rewrite (get_latest_vinteger _ Hne).
  destruct (select_max N.ltb _ Hne) as ([n r] & -> & Hm & Hmax).
  apply elem_of_vinteger_tags in Hm as (t & Ht & Hn & Hr). simpl in *.
  exists t, n. subst r. split_and!; [done..|].
  intros u k Hu Hk. apply N.ltb_ge.
  apply (Hmax (k, Py.strip u)). apply elem_of_vinteger_tags. eauto.
Qed.

Lemma select_integer tags :
  vinteger_tags tags = [] → integer_tags tags ≠ [] →
  ∃ t n, t ∈ tags
    ∧ get_latest_version_tag tags = Some (Py.strip t)
    ∧ integer_of (Py.strip t) = Some n
    ∧ ∀ u k, u ∈ tags → integer_of (Py.strip u) = Some k → k ≤ n.
Proof.
  intros Hv Hne. rewrite (get_latest_integer _ Hv Hne).
  destruct (select_max N.ltb _ Hne) as ([n r] & -> & Hm & Hmax).
  apply elem_of_integer_tags in Hm as (t & Ht & Hn & Hr). simpl in *.
  exists t, n. subst r. split_and!; [done..|].
  intros u k Hu Hk. apply N.ltb_ge.
  apply (Hmax (k, Py.strip u)). apply elem_of_integer_tags. eauto.
Qed.

Lemma select_major_minor tags :
  vinteger_tags tags = [] → integer_tags tags = [] →
  major_minor_tags tags ≠ [] →
  ∃ t a b, t ∈ tags
    ∧ get_latest_version_tag tags = Some (Py.strip t)
    ∧ major_minor_of (Py.strip t) = Some (a, b)
    ∧ ∀ u c d, u ∈ tags → major_minor_of (Py.strip u) = Some (c, d) →
        c < a ∨ (c = a ∧ d ≤ b).
Proof.
  intros Hv Hi Hne. rewrite (get_latest_major_minor _ Hv Hi Hne).
  destruct (select_max Py.pair_ltb _ Hne) as ([[a b] r] & -> & Hm & Hmax).
  apply elem_of_major_minor_tags in Hm as (t & Ht & Hn & Hr). simpl in *.
  exists t, a, b. subst r. split_and!; [done..|].
  intros u c d Hu Hk.
  assert (Py.pair_ltb (a, b) (c, d) = false) as Hlt.
  { apply (Hmax (c, d, Py.strip u)). apply elem_of_major_minor_tags. eauto. }
  apply pair_ltb_false in Hlt. simpl in Hlt. lia.
Qed.

Lemma is_Some_fmap_inv {A B} (f : A → B) (o : option A) :
  is_Some (f <$> o) → is_Some o.
Proof. destruct o; [by eexists|by intros [? ?]]. Qed.

(** ** The selector, called: when it returns and when it raises *)

Lemma int_checked_Some g n :
  Py.int_checked g = Some n ↔ convertible g ∧ n = Py.int g.
Proof.
  unfold Py.int_checked, convertible, len.
  destruct (N.ltb_spec Py.int_max_str_digits (N.of_nat (String.length g))).
  - split; [done|]. intros [? _]. lia.
  - split; [by intros [= <-]|by intros [_ ->]].
Qed.

Lemma int_checked_None g : Py.int_checked g = None ↔ ¬ convertible g.
Proof.
  unfold Py.int_checked, convertible, len.
  destruct (N.ltb_spec Py.int_max_str_digits (N.of_nat (String.length g))).
  - split; [intros _; lia|done].
  - split; [done|]. intros Hn. by destruct Hn.
Qed.

Lemma int_checked_convertible g :
  convertible g → Py.int_checked g = Some (Py.int g).
Proof. intros Hg. by apply int_checked_Some. Qed.

Lemma convertible_dec g : convertible g ∨ ¬ convertible g.
Proof. unfold convertible. lia. Qed.

Lemma int_pair_Some g v :
  int_pair g = Some v ↔
  convertible g.1 ∧ convertible g.2 ∧ v = (Py.int g.1, Py.int g.2).
Proof.
  unfold int_pair.
  destruct (Py.int_checked g.1) as [a|] eqn:Ha.
  - apply int_checked_Some in Ha as [Ha ->].
    destruct (Py.int_checked g.2) as [b|] eqn:Hb.
    + apply int_checked_Some in Hb as [Hb ->].
      split; [by intros [= <-]|by intros (_ & _ & ->)].
    + apply int_checked_None in Hb. split; [done|]. by intros (_ & ? & _).
  - apply int_checked_None in Ha. split; [done|]. by intros (? & _).
Qed.

Lemma int_pair_None g :
  int_pair g = None ↔ ¬ convertible g.1 ∨ ¬ convertible g.2.
Proof.
  split.
  - intros Hn.
    destruct (convertible_dec g.1) as [H1|H1]; [|by left].
    destruct (convertible_dec g.2) as [H2|H2]; [|by right].
    assert (int_pair g = Some (Py.int g.1, Py.int g.2)) as Hs
      by by apply int_pair_Some.
    by rewrite Hn in Hs.
  - intros Hn. destruct (int_pair g) as [v|] eqn:Hv; [|done].
    apply int_pair_Some in Hv as (? & ? & _). by destruct Hn.
Qed.

(** A loop that returns has built the candidates of the selection; a
    loop that raises has met a group its conversion refuses. *)
Lemma candidates_spec {G V : Type} (pattern : string → option G)
    (convert : G → option V) (value : G → V) (tags : list string) :
  (∀ g v, convert g = Some v → v = value g) →
  match candidates pattern convert tags with
  | Some cands =>
      cands = omap (λ tag, (λ g, (value g, Py.strip tag))
                             <$> pattern (Py.strip tag)) tags
      ∧ ∀ t g, t ∈ tags → pattern (Py.strip t) = Some g →
          is_Some (convert g)
  | None =>
      ∃ t g, t ∈ tags ∧ pattern (Py.strip t) = Some g ∧ convert g = None
  end.
Proof.
  intros Hvalue. induction tags as [|tag tags IH]; simpl.
  { split; [done|]. intros t g Ht. inversion Ht. }
  destruct (pattern (Py.strip tag)) as [g|] eqn:Hg.
  - destruct (convert g) as [v|] eqn:Hv.
    + destruct (candidates pattern convert tags) as [cands|]; simpl.
      * destruct IH as [-> Hall]. split.
        { by rewrite (Hvalue g v Hv). }
        intros t g' [->|Ht]%elem_of_cons Hg'; [|by eapply Hall].
        rewrite Hg in Hg'. injection Hg' as <-. by eexists.
      * destruct IH as (t & g' & Ht & Hg' & Hn).
        exists t, g'. split_and!; [by right|done..].
    + exists tag, g. split_and!; [by left|done..].
  - destruct (candidates pattern convert tags) as [cands|].
    + destruct IH as [-> Hall]. split; [done|].
      intros t g' [->|Ht]%elem_of_cons Hg'; [|by eapply Hall].
      by rewrite Hg in Hg'.
    + destruct IH as (t & g' & Ht & Hg' & Hn).
      exists t, g'. split_and!; [by right|done..].
Qed.

Lemma candidates_vinteger tags :
  match candidates vinteger_pattern Py.int_checked tags with
  | Some cands =>
      cands = vinteger_tags tags
      ∧ ∀ t g, t ∈ tags → vinteger_pattern (Py.strip t) = Some g →
          convertible g
  | None =>
      ∃ t g, t ∈ tags ∧ vinteger_pattern (Py.strip t) = Some g
        ∧ ¬ convertible g
  end.
Proof.
  pose proof (candidates_spec vinteger_pattern Py.int_checked Py.int tags)
    as H.
  destruct (candidates vinteger_pattern Py.int_checked tags) as [cands|].
  - destruct H as [-> Hall]; [by intros g v [_ ->]%int_checked_Some|].
    split; [done|]. intros t g Ht Hg.
    destruct (Hall t g Ht Hg) as [n Hn]. by apply int_checked_Some in Hn as [? _].
  - destruct H as (t & g & Ht & Hg & Hn);
      [by intros g v [_ ->]%int_checked_Some|].
    exists t, g. split_and!; [done..|]. by apply int_checked_None.
Qed.

Lemma candidates_integer tags :
  match candidates integer_pattern Py.int_checked tags with
  | Some cands =>
      cands = integer_tags tags
      ∧ ∀ t g, t ∈ tags → integer_pattern (Py.strip t) = Some g →
          convertible g
  | None =>
      ∃ t g, t ∈ tags ∧ integer_pattern (Py.strip t) = Some g
        ∧ ¬ convertible g
  end.
Proof.
  pose proof (candidates_spec integer_pattern Py.int_checked Py.int tags)
    as H.
  destruct (candidates integer_pattern Py.int_checked tags) as [cands|].
  - destruct H as [-> Hall]; [by intros g v [_ ->]%int_checked_Some|].
    split; [done|]. intros t g Ht Hg.
    destruct (Hall t g Ht Hg) as [n Hn]. by apply int_checked_Some in Hn as [? _].
  - destruct H as (t & g & Ht & Hg & Hn);
      [by intros g v [_ ->]%int_checked_Some|].
    exists t, g. split_and!; [done..|]. by apply int_checked_None.
Qed.

Lemma candidates_major_minor tags :
  match candidates major_minor_pattern int_pair tags with
  | Some cands =>
      cands = major_minor_tags tags
      ∧ ∀ t a b, t ∈ tags → major_minor_pattern (Py.strip t) = Some (a, b) →
          convertible a ∧ convertible b
  | None =>
      ∃ t a b, t ∈ tags ∧ major_minor_pattern (Py.strip t) = Some (a, b)
        ∧ (¬ convertible a ∨ ¬ convertible b)
  end.
Proof.
  pose proof (candidates_spec major_minor_pattern int_pair
                (λ g, (Py.int g.1, Py.int g.2)) tags) as H.
  destruct (candidates major_minor_pattern int_pair tags) as [cands|].
  - destruct H as [-> Hall]; [by intros g v (_ & _ & ->)%int_pair_Some|].
    split; [done|]. intros t a b Ht Hg.
    destruct (Hall t (a, b) Ht Hg) as [n Hn].
    by apply int_pair_Some in Hn as (? & ? & _).
  - destruct H as (t & [a b] & Ht & Hg & Hn);
      [by intros g v (_ & _ & ->)%int_pair_Some|].
    exists t, a, b. split_and!; [done..|]. by apply int_pair_None in Hn.
Qed.

(** A call raises, or returns what the selection gives; which of the
    two is decided by the groups of the convention that wins. *)
Lemma call_cases tags :
  (get_latest_version_tag_call tags = Raised ∧ raising tags)
  ∨ (get_latest_version_tag_call tags
       = Returned (get_latest_version_tag tags)
     ∧ ¬ raising tags).
Proof.
  unfold get_latest_version_tag_call, get_latest_version_tag, raising.
  pose proof (candidates_vinteger tags) as Hv.
  destruct (candidates vinteger_pattern Py.int_checked tags) as [cv|];
    [|left; split; [done|by left]].
  destruct Hv as [-> Hvok].
  destruct (vinteger_tags tags) as [|c cv] eqn:Hvt.
  2:{ right. split; [done|].
      assert (vinteger_tags tags ≠ []) as Hne by by rewrite Hvt.
      rewrite vinteger_tags_nil in Hne.
      intros [(t & g & Ht & Hg & Hn)|[[Hnone _]|[Hnone _]]]; [|done..].
      by apply Hn, (Hvok t g). }
  pose proof (proj1 (vinteger_tags_nil tags) Hvt) as Hvn.
  pose proof (candidates_integer tags) as Hi.
  destruct (candidates integer_pattern Py.int_checked tags) as [ci|];
    [|left; split; [done|right; left; by split]].
  destruct Hi as [-> Hiok].
  destruct (integer_tags tags) as [|c ci] eqn:Hit.
  2:{ right. split; [done|].
      assert (integer_tags tags ≠ []) as Hne by by rewrite Hit.
      rewrite integer_tags_nil in Hne.
      intros [(t & g & Ht & Hg & Hn)|[[_ (t & g & Ht & Hg & Hn)]|(_ & Hnone & _)]];
        [|by apply Hn, (Hiok t g)|done].
      by rewrite (Hvn t Ht) in Hg. }
  pose proof (proj1 (integer_tags_nil tags) Hit) as Hin.
  pose proof (candidates_major_minor tags) as Hm.
  destruct (candidates major_minor_pattern int_pair tags) as [cm|];
    [|left; split; [done|right; right; by split_and!]].
  destruct Hm as [-> Hmok]. right. split.
  { by destruct (major_minor_tags tags). }
  intros [(t & g & Ht & Hg & Hn)|[[_ (t & g & Ht & Hg & Hn)]
         |(_ & _ & t & a & b & Ht & Hg & Hn)]].
  - by rewrite (Hvn t Ht) in Hg.
  - by rewrite (Hin t Ht) in Hg.
  - destruct (Hmok t a b Ht Hg). by destruct Hn.
Qed.

Lemma call_Returned tags o :
  get_latest_version_tag_call tags = Returned o →
  o = get_latest_version_tag tags ∧ ¬ raising tags.
Proof.
  destruct (call_cases tags) as [[-> _]|[-> Hn]]; [done|].
  by intros [= <-].
Qed.

Lemma call_Raised_iff tags :
  get_latest_version_tag_call tags = Raised ↔ raising tags.
Proof.
  destruct (call_cases tags) as [[-> Hr]|[-> Hn]]; [done|].
  split; [done|]. intros Hr. by destruct Hn.
Qed.

Lemma call_not_raising tags :
  ¬ raising tags →
  get_latest_version_tag_call tags = Returned (get_latest_version_tag tags).
Proof. destruct (call_cases tags) as [[_ Hr]|[-> _]]; [by intros []|done]. Qed.

(** The call returns from the [vN] loop when that loop has a match and
    can convert its groups, whatever the other tags are. *)
Lemma call_vinteger tags :
  (∀ t g, t ∈ tags → vinteger_pattern (Py.strip t) = Some g →
     convertible g) →
  (∃ t, t ∈ tags ∧ is_Some (vinteger_pattern (Py.strip t))) →
  get_latest_version_tag_call tags = Returned (get_latest_version_tag tags).
Proof.
  intros Hok (t & Ht & [g Hg]). apply call_not_raising.
  intros [(u & h & Hu & Hh & Hn)|[[Hnone _]|[Hnone _]]].
  - by apply Hn, (Hok u h).
  - by rewrite (Hnone t Ht) in Hg.
  - by rewrite (Hnone t Ht) in Hg.
Qed.

Lemma call_integer tags :
  (∀ t, t ∈ tags → vinteger_pattern (Py.strip t) = None) →
  (∀ t g, t ∈ tags → integer_pattern (Py.strip t) = Some g →
     convertible g) →
  (∃ t, t ∈ tags ∧ is_Some (integer_pattern (Py.strip t))) →
  get_latest_version_tag_call tags = Returned (get_latest_version_tag tags).
Proof.
  intros Hv Hok (t & Ht & [g Hg]). apply call_not_raising.
  intros [(u & h & Hu & Hh & Hn)|[[_ (u & h & Hu & Hh & Hn)]|(_ & Hnone & _)]].
  - by rewrite (Hv u Hu) in Hh.
  - by apply Hn, (Hok u h).
  - by rewrite (Hnone t Ht) in Hg.
Qed.

Lemma call_major_minor tags :
  (∀ t, t ∈ tags → vinteger_pattern (Py.strip t) = None) →
  (∀ t, t ∈ tags → integer_pattern (Py.strip t) = None) →
  (∀ t a b, t ∈ tags → major_minor_pattern (Py.strip t) = Some (a, b) →
     convertible a ∧ convertible b) →
  get_latest_version_tag_call tags = Returned (get_latest_version_tag tags).
Proof.
  intros Hv Hi Hok. apply call_not_raising.
  intros [(u & h & Hu & Hh & Hn)|[[_ (u & h & Hu & Hh & Hn)]
         |(_ & _ & u & a & b & Hu & Hh & Hn)]].
  - by rewrite (Hv u Hu) in Hh.
  - by rewrite (Hi u Hu) in Hh.
  - destruct (Hok u a b Hu Hh). by destruct Hn.
Qed.

(** ** The unit tests of the selector, replayed on the model *)

Example test_get_latest_version_tag_vinteger :
  get_latest_version_tag ["v1"; "v2"; "v3"; "v10"; "v2.1.0"] = Some "v10".
Proof. reflexivity. Qed.

Example test_get_latest_version_tag_integer :
  get_latest_version_tag ["1"; "2"; "13"; "12.5"] = Some "13".
Proof. reflexivity. Qed.

Example test_get_latest_version_tag_major_minor :
  get_latest_version_tag ["13.4"; "13.3"; "12.9"; "12.1"] = Some "13.4".
Proof. reflexivity. Qed.

Example test_vinteger_takes_priority_over_integer :
  get_latest_version_tag ["v1"; "v2"; "13"; "14"] = Some "v2".
Proof. reflexivity. Qed.

Example test_integer_takes_priority_over_major_minor :
  get_latest_version_tag ["5"; "13.4"; "13.3"] = Some "5".
Proof. reflexivity. Qed.

Example test_get_latest_version_tag_no_match :
  get_latest_version_tag ["v1.0.0"; "v2.0.0"; "release-1"; "beta"] = None.
Proof. reflexivity. Qed.

Example test_version_ordering_vinteger :
  get_latest_version_tag ["v9"; "v10"; "v2"; "v1"] = Some "v10".
Proof. reflexivity. Qed.

Example test_version_ordering_major_minor :
  get_latest_version_tag ["9.9"; "10.1"; "2.5"; "1.0"] = Some "10.1".
Proof. reflexivity. Qed.

Example test_valid_tags :
  Forall (λ t, get_latest_version_tag [t] = Some t)
    ["v1"; "v2"; "v10"; "v100"; "v999"; "1"; "2"; "10"; "100"; "999";
     "1.0"; "2.5"; "10.10"; "13.4"].
Proof. repeat constructor. Qed.

(** ** The selector: priority, ranking, strictness *)

(** C1, as stated, fails: a tag made of [v] and 4301 digits matches
    [^v(\d+)$], and on a list that holds it the call raises
    [ValueError], from [int], instead of returning a [vN] tag. *)
Lemma C1_counterexample :
  vinteger_pattern (Py.strip long_vinteger_tag) = Some long_group
  ∧ len long_group = 4301
  ∧ get_latest_version_tag_call [long_vinteger_tag; "13"] = Raised
  ∧ get_latest_version_tag_call ["v1"; long_vinteger_tag] = Raised.
Proof. split_and!; by vm_compute. Qed.

(** C1, amended. The three conventions are tried in strict priority
    order and the first one with a matching tag supplies the result,
    provided [int] converts the digit groups of that convention: if
    some tag matches [^v(\d+)$] after stripping and the [vN] groups are
    within the limit, the call returns one of the tags matching it (and
    so matches neither other pattern), whatever bare integers or
    major.minor tags the list holds; if none does but some tag matches
    [^(\d+)$], the result is one of those; only when neither convention
    has a match is a major.minor tag returned.  The call raises exactly
    when the first convention with a match has a group above the
    limit. *)
Theorem C1_priority_order (tags : list string) :
  ((∀ t g, t ∈ tags → vinteger_pattern (Py.strip t) = Some g →
      convertible g) →
   (∃ t, t ∈ tags ∧ is_Some (vinteger_pattern (Py.strip t))) →
     ∃ r, get_latest_version_tag_call tags = Returned (Some r)
        ∧ r ∈ Py.strip <$> tags
        ∧ is_Some (vinteger_pattern r)
        ∧ integer_pattern r = None ∧ major_minor_pattern r = None)
  ∧ ((∀ t, t ∈ tags → vinteger_pattern (Py.strip t) = None) →
     (∀ t g, t ∈ tags → integer_pattern (Py.strip t) = Some g →
        convertible g) →
     (∃ t, t ∈ tags ∧ is_Some (integer_pattern (Py.strip t))) →
     ∃ r, get_latest_version_tag_call tags = Returned (Some r)
        ∧ r ∈ Py.strip <$> tags
        ∧ is_Some (integer_pattern r)
        ∧ vinteger_pattern r = None ∧ major_minor_pattern r = None)
  ∧ ((∀ t, t ∈ tags → vinteger_pattern (Py.strip t) = None) →
     (∀ t, t ∈ tags → integer_pattern (Py.strip t) = None) →
     (∀ t a b, t ∈ tags → major_minor_pattern (Py.strip t) = Some (a, b) →
        convertible a ∧ convertible b) →
     (∃ t, t ∈ tags ∧ is_Some (major_minor_pattern (Py.strip t))) →
     ∃ r, get_latest_version_tag_call tags = Returned (Some r)
        ∧ r ∈ Py.strip <$> tags
        ∧ is_Some (major_minor_pattern r)
        ∧ vinteger_pattern r = None ∧ integer_pattern r = None)
  ∧ (get_latest_version_tag_call tags = Raised ↔ raising tags).
Proof.
  split_and!; [| | |apply call_Raised_iff].
  - intros Hok (t & Ht & Hm).
    assert (get_latest_version_tag_call tags
            = Returned (get_latest_version_tag tags)) as Hcall
      by (apply call_vinteger; eauto).
    destruct (select_vinteger tags) as (u & n & Hu & Hs & Hn & _).
    { by eapply vinteger_tags_ne. }
    apply fmap_Some in Hn as (g & Hg & _).
    exists (Py.strip u).
    split_and!; [by rewrite Hcall, Hs|by apply list_elem_of_fmap_2|..].
    + by eexists.
    + by apply vinteger_not_integer; eexists.
    + by apply vinteger_not_integer; eexists.
  - intros Hv Hok (t & Ht & Hm).
    assert (get_latest_version_tag_call tags
            = Returned (get_latest_version_tag tags)) as Hcall
      by (apply call_integer; eauto).
    apply vinteger_tags_nil in Hv.
    destruct (select_integer tags Hv) as (u & n & Hu & Hs & Hn & _).
    { by eapply integer_tags_ne. }
    apply fmap_Some in Hn as (g & Hg & _).
    exists (Py.strip u).
    split_and!; [by rewrite Hcall, Hs|by apply list_elem_of_fmap_2|..].
    + by eexists.
    + by apply integer_not_major_minor; eexists.
    + by apply integer_not_major_minor; eexists.
  - intros Hv Hi Hok (t & Ht & Hm).
    assert (get_latest_version_tag_call tags
            = Returned (get_latest_version_tag tags)) as Hcall
      by by apply call_major_minor.
    apply vinteger_tags_nil in Hv. apply integer_tags_nil in Hi.
    destruct (select_major_minor tags Hv Hi) as (u & a & b & Hu & Hs & Hn & _).
    { by eapply major_minor_tags_ne. }
    apply fmap_Some in Hn as (g & Hg & _).
    exists (Py.strip u).
    split_and!; [by rewrite Hcall, Hs|by apply list_elem_of_fmap_2|..].
    + by eexists.
    + by apply major_minor_not_integer; eexists.
    + by apply major_minor_not_integer; eexists.
Qed.

Lemma C1_priority_order_witness :
  (∃ r, get_latest_version_tag_call ["v1"; "v2"; "13"; "14"]
        = Returned (Some r)
      ∧ r ∈ Py.strip <$> ["v1"; "v2"; "13"; "14"]
      ∧ is_Some (vinteger_pattern r)
      ∧ integer_pattern r = None ∧ major_minor_pattern r = None)
  ∧ (∃ r, get_latest_version_tag_call ["5"; "13.4"; "13.3"]
          = Returned (Some r)
      ∧ r ∈ Py.strip <$> ["5"; "13.4"; "13.3"]
      ∧ is_Some (integer_pattern r)
      ∧ vinteger_pattern r = None ∧ major_minor_pattern r = None)
  ∧ (∃ r, get_latest_version_tag_call ["13.4"; "beta"] = Returned (Some r)
      ∧ r ∈ Py.strip <$> ["13.4"; "beta"]
      ∧ is_Some (major_minor_pattern r)
      ∧ vinteger_pattern r = None ∧ integer_pattern r = None).
Proof.
  split_and!.
  - apply (proj1 (C1_priority_order ["v1"; "v2"; "13"; "14"])).
    + intros t g Ht Hg.
      repeat (apply elem_of_cons in Ht as [->|Ht];
              [vm_compute in Hg; simplify_eq; by vm_compute|]).
      inversion Ht.
    + exists "v1". split; [left|by eexists].
  - apply (proj1 (proj2 (C1_priority_order ["5"; "13.4"; "13.3"]))).
    + intros t Ht. repeat (apply elem_of_cons in Ht as [->|Ht]; [reflexivity|]).
      inversion Ht.
    + intros t g Ht Hg.
      repeat (apply elem_of_cons in Ht as [->|Ht];
              [vm_compute in Hg; simplify_eq; by vm_compute|]).
      inversion Ht.
    + exists "5". split; [left|by eexists].
  - apply (proj1 (proj2 (proj2 (C1_priority_order ["13.4"; "beta"])))).
    + intros t Ht. repeat (apply elem_of_cons in Ht as [->|Ht]; [reflexivity|]).
      inversion Ht.
    + intros t Ht. repeat (apply elem_of_cons in Ht as [->|Ht]; [reflexivity|]).
      inversion Ht.
    + intros t a b Ht Hg.
      repeat (apply elem_of_cons in Ht as [->|Ht];
              [vm_compute in Hg; simplify_eq; split; by vm_compute|]).
      inversion Ht.
    + exists "13.4". split; [left|by eexists].
Defined.

(** C2, as stated, fails for the same reason: [v10] matches
    [^v(\d+)$], yet with a [vN] tag of 4301 digits next to it the call
    raises instead of returning the tag of largest integer; and with
    the major.minor convention selected a minor of 4301 digits does the
    same. *)
Lemma C2_counterexample :
  is_Some (vinteger_pattern (Py.strip "v10"))
  ∧ is_Some (vinteger_pattern (Py.strip long_vinteger_tag))
  ∧ get_latest_version_tag_call ["v10"; long_vinteger_tag] = Raised
  ∧ major_minor_pattern (Py.strip long_major_minor_tag)
    = Some ("1", long_group)
  ∧ get_latest_version_tag_call ["9.9"; long_major_minor_tag] = Raised.
Proof.
  split_and!; [by eexists|eexists; by vm_compute|by vm_compute..].
Qed.

(** C2, amended. Inside the winning convention the ranking is numeric:
    when some tag matches [^v(\d+)$] and [int] converts the [vN]
    groups, the result is a matching tag whose integer is at least that
    of every matching tag, whatever else the list holds; when the
    major.minor convention is the one selected and its groups are
    within the limit, the result's pair (major, minor) is at least
    every matching pair, major compared first; so v10 beats v9 and
    10.1 beats 9.9. *)
Theorem C2_numeric_ranking (tags : list string) :
  ((∀ t g, t ∈ tags → vinteger_pattern (Py.strip t) = Some g →
      convertible g) →
   (∃ t, t ∈ tags ∧ is_Some (vinteger_pattern (Py.strip t))) →
     ∃ r n, get_latest_version_tag_call tags = Returned (Some r)
        ∧ r ∈ Py.strip <$> tags
        ∧ vinteger_of r = Some n
        ∧ ∀ u k, u ∈ tags → vinteger_of (Py.strip u) = Some k → k ≤ n)
  ∧ ((∀ t, t ∈ tags → vinteger_pattern (Py.strip t) = None) →
     (∀ t, t ∈ tags → integer_pattern (Py.strip t) = None) →
     (∀ t a b, t ∈ tags → major_minor_pattern (Py.strip t) = Some (a, b) →
        convertible a ∧ convertible b) →
     (∃ t, t ∈ tags ∧ is_Some (major_minor_pattern (Py.strip t))) →
     ∃ r a b, get_latest_version_tag_call tags = Returned (Some r)
        ∧ r ∈ Py.strip <$> tags
        ∧ major_minor_of r = Some (a, b)
        ∧ ∀ u c d, u ∈ tags → major_minor_of (Py.strip u) = Some (c, d) →
            c < a ∨ (c = a ∧ d ≤ b))
  ∧ get_latest_version_tag_call ["v9"; "v10"; "v2"; "v1"]
    = Returned (Some "v10")
  ∧ get_latest_version_tag_call ["9.9"; "10.1"; "2.5"; "1.0"]
    = Returned (Some "10.1").
Proof.
  split_and!; [| |reflexivity..].
  - intros Hok (t & Ht & Hm).
    assert (get_latest_version_tag_call tags
            = Returned (get_latest_version_tag tags)) as Hcall
      by (apply call_vinteger; eauto).
    destruct (select_vinteger tags) as (u & n & Hu & Hs & Hn & Hmax).
    { by eapply vinteger_tags_ne. }
    exists (Py.strip u), n.
    split_and!; [by rewrite Hcall, Hs|by apply list_elem_of_fmap_2|done..].
  - intros Hv Hi Hok (t & Ht & Hm).
    assert (get_latest_version_tag_call tags
            = Returned (get_latest_version_tag tags)) as Hcall
      by by apply call_major_minor.
    apply vinteger_tags_nil in Hv. apply integer_tags_nil in Hi.
    destruct (select_major_minor tags Hv Hi)
      as (u & a & b & Hu & Hs & Hn & Hmax).
    { by eapply major_minor_tags_ne. }
    exists (Py.strip u), a, b.
    split_and!; [by rewrite Hcall, Hs|by apply list_elem_of_fmap_2|done..].
Qed.

Lemma C2_numeric_ranking_witness :
  (∃ r n, get_latest_version_tag_call ["v1"; "v2"; "v3"; "v10"; "v2.1.0"]
          = Returned (Some r)
     ∧ r ∈ Py.strip <$> ["v1"; "v2"; "v3"; "v10"; "v2.1.0"]
     ∧ vinteger_of r = Some n
     ∧ ∀ u k, u ∈ ["v1"; "v2"; "v3"; "v10"; "v2.1.0"] →
         vinteger_of (Py.strip u) = Some k → k ≤ n)
  ∧ (∃ r a b, get_latest_version_tag_call ["13.4"; "13.3"; "12.9"; "12.1"]
              = Returned (Some r)
     ∧ r ∈ Py.strip <$> ["13.4"; "13.3"; "12.9"; "12.1"]
     ∧ major_minor_of r = Some (a, b)
     ∧ ∀ u c d, u ∈ ["13.4"; "13.3"; "12.9"; "12.1"] →
         major_minor_of (Py.strip u) = Some (c, d) → c < a ∨ (c = a ∧ d ≤ b)).
Proof.
  split.
  - apply (proj1 (C2_numeric_ranking ["v1"; "v2"; "v3"; "v10"; "v2.1.0"])).
    + intros t g Ht Hg.
      repeat (apply elem_of_cons in Ht as [->|Ht];
              [vm_compute in Hg; simplify_eq; by vm_compute|]).
      inversion Ht.
    + exists "v10". split; [do 3 right; left|by eexists].
  - apply (proj1 (proj2 (C2_numeric_ranking ["13.4"; "13.3"; "12.9"; "12.1"]))).
    + intros t Ht. repeat (apply elem_of_cons in Ht as [->|Ht]; [reflexivity|]).
      inversion Ht.
    + intros t Ht. repeat (apply elem_of_cons in Ht as [->|Ht]; [reflexivity|]).
      inversion Ht.
    + intros t a b Ht Hg.
      repeat (apply elem_of_cons in Ht as [->|Ht];
              [vm_compute in Hg; simplify_eq; split; by vm_compute|]).
      inversion Ht.
    + exists "13.4". split; [left|by eexists].
Defined.

(** The candidate lists only see the stripped tags. *)
Lemma vinteger_tags_strip tags :
  vinteger_tags tags
  = omap (λ s, (λ g, (Py.int g, s)) <$> vinteger_pattern s) (Py.strip <$> tags).
Proof.
  unfold vinteger_tags. induction tags as [|t tags IH]; [done|].
  csimpl. by rewrite IH.
Qed.

Lemma integer_tags_strip tags :
  integer_tags tags
  = omap (λ s, (λ g, (Py.int g, s)) <$> integer_pattern s) (Py.strip <$> tags).
Proof.
  unfold integer_tags. induction tags as [|t tags IH]; [done|].
  csimpl. by rewrite IH.
Qed.

Lemma major_minor_tags_strip tags :
  major_minor_tags tags
  = omap (λ s, (λ g, (Py.int g.1, Py.int g.2, s)) <$> major_minor_pattern s)
         (Py.strip <$> tags).
Proof.
  unfold major_minor_tags. induction tags as [|t tags IH]; [done|].
  csimpl. by rewrite IH.
Qed.

Lemma get_latest_strip tags tags' :
  Py.strip <$> tags = Py.strip <$> tags' →
  get_latest_version_tag tags = get_latest_version_tag tags'.
Proof.
  intros H. unfold get_latest_version_tag.
  by rewrite !vinteger_tags_strip, !integer_tags_strip,
    !major_minor_tags_strip, H.
Qed.

Lemma get_latest_None_iff tags :
  get_latest_version_tag tags = None ↔
  ∀ t, t ∈ tags →
    vinteger_pattern (Py.strip t) = None
    ∧ integer_pattern (Py.strip t) = None
    ∧ major_minor_pattern (Py.strip t) = None.
Proof.
  split.
  - intros Hnone.
    assert (vinteger_tags tags = []) as Hv.
    { destruct (decide (vinteger_tags tags = [])) as [|Hne]; [done|].
      destruct (select_vinteger tags Hne) as (? & ? & _ & Hs & _).
      by rewrite Hs in Hnone. }
    assert (integer_tags tags = []) as Hi.
    { destruct (decide (integer_tags tags = [])) as [|Hne]; [done|].
      destruct (select_integer tags Hv Hne) as (? & ? & _ & Hs & _).
      by rewrite Hs in Hnone. }
    assert (major_minor_tags tags = []) as Hm.
    { destruct (decide (major_minor_tags tags = [])) as [|Hne]; [done|].
      destruct (select_major_minor tags Hv Hi Hne) as (? & ? & ? & _ & Hs & _).
      by rewrite Hs in Hnone. }
    rewrite vinteger_tags_nil in Hv. rewrite integer_tags_nil in Hi.
    rewrite major_minor_tags_nil in Hm. auto.
  - intros H. apply get_latest_none.
    + apply vinteger_tags_nil. intros t Ht. by apply H.
    + apply integer_tags_nil. intros t Ht. by apply H.
    + apply major_minor_tags_nil. intros t Ht. by apply H.
Qed.

(** C3. Only the stripped form of a tag is matched (two lists with the
    same stripped tags select the same; the stripped form is the tag
    without the whitespace at its two ends), nothing else is normalised:
    V1, v1a, v1.0.0, v, 1.0.0, release-1, beta, abc and v1-beta match no
    convention and select nothing alone; the selector returns [None],
    and not an error, exactly when no tag matches any convention after
    stripping, in particular on the empty list. *)
Theorem C3_strict_matching :
  (∀ tags tags', Py.strip <$> tags = Py.strip <$> tags' →
     get_latest_version_tag tags = get_latest_version_tag tags')
  ∧ (∀ t,
       (∃ l r, t = l +:+ Py.strip t +:+ r
          ∧ all_space l = true ∧ all_space r = true)
       ∧ (∀ c, first_char (Py.strip t) = Some c → Py.isspace c = false)
       ∧ (∀ c, last_char (Py.strip t) = Some c → Py.isspace c = false))
  ∧ (∀ t, t ∈ ["V1"; "v1a"; "v1.0.0"; "v"; "1.0.0"; "release-1"; "beta";
                "abc"; "v1-beta"] →
       vinteger_pattern (Py.strip t) = None
       ∧ integer_pattern (Py.strip t) = None
       ∧ major_minor_pattern (Py.strip t) = None
       ∧ get_latest_version_tag [t] = None)
  ∧ (∀ tags,
       (∀ t, t ∈ tags →
          vinteger_pattern (Py.strip t) = None
          ∧ integer_pattern (Py.strip t) = None
          ∧ major_minor_pattern (Py.strip t) = None) →
       get_latest_version_tag tags = None)
  ∧ get_latest_version_tag [] = None
  ∧ get_latest_version_tag [" v3 "] = Some "v3"
  ∧ get_latest_version_tag [String Py.LF "7.2" +:+ nl] = Some "7.2".
Proof.
  split_and!; [apply get_latest_strip|apply strip_spec| | |reflexivity..].
  - intros t Ht.
    repeat (apply elem_of_cons in Ht as [->|Ht]; [by vm_compute|]).
    inversion Ht.
  - intros tags. apply get_latest_None_iff.
Qed.

Lemma C3_strict_matching_witness :
  get_latest_version_tag [" v3"; "v1 "] = get_latest_version_tag ["v3 "; " v1"]
  ∧ get_latest_version_tag ["V1"] = None
  ∧ get_latest_version_tag ["v1.0.0"; "v2.0.0"; "release-1"; "beta"] = None.
Proof.
  destruct C3_strict_matching as (Hstrip & _ & Hlist & Hnone & _).
  split_and!.
  - apply Hstrip. reflexivity.
  - apply (Hlist "V1"). left.
  - apply Hnone. intros t Ht.
    repeat (apply elem_of_cons in Ht as [->|Ht]; [by vm_compute|]).
    inversion Ht.
Defined.

(** What comes back is a stripped element of the list that matched. *)
Lemma get_latest_Some_inv (tags : list string) (r : string) :
  get_latest_version_tag tags = Some r →
  (∃ t, t ∈ tags ∧ r = Py.strip t)
  ∧ (is_Some (vinteger_pattern r) ∨ is_Some (integer_pattern r)
     ∨ is_Some (major_minor_pattern r)).
Proof.
  intros Hr.
  destruct (decide (vinteger_tags tags = [])) as [Hv|Hv].
  2:{ destruct (select_vinteger tags Hv) as (t & n & Ht & Hs & Hn & _).
      rewrite Hs in Hr. injection Hr as <-.
      split; [by exists t|]. left. by eapply is_Some_fmap_inv; eexists. }
  destruct (decide (integer_tags tags = [])) as [Hi|Hi].
  2:{ destruct (select_integer tags Hv Hi) as (t & n & Ht & Hs & Hn & _).
      rewrite Hs in Hr. injection Hr as <-.
      split; [by exists t|]. right; left.
      by eapply is_Some_fmap_inv; eexists. }
  destruct (decide (major_minor_tags tags = [])) as [Hm|Hm].
  2:{ destruct (select_major_minor tags Hv Hi Hm)
        as (t & a & b & Ht & Hs & Hn & _).
      rewrite Hs in Hr. injection Hr as <-.
      split; [by exists t|]. right; right.
      by eapply is_Some_fmap_inv; eexists. }
  by rewrite (get_latest_none _ Hv Hi Hm) in Hr.
Qed.

(** C9. A tag the selector returns is the stripped form of an element of
    the input and matches one of the three patterns; for an element
    with surrounding whitespace the stripped form is what comes back,
    not the element itself. *)
Theorem C9_result_is_stripped_tag (tags : list string) (r : string) :
  get_latest_version_tag tags = Some r →
  (∃ t, t ∈ tags ∧ r = Py.strip t)
  ∧ (is_Some (vinteger_pattern r) ∨ is_Some (integer_pattern r)
     ∨ is_Some (major_minor_pattern r)).
Proof. apply get_latest_Some_inv. Qed.

Lemma C9_result_is_stripped_tag_witness :
  get_latest_version_tag [" v3 "; "v1"] = Some "v3"
  ∧ (∃ t, t ∈ [" v3 "; "v1"] ∧ "v3" = Py.strip t)
  ∧ (is_Some (vinteger_pattern "v3") ∨ is_Some (integer_pattern "v3")
     ∨ is_Some (major_minor_pattern "v3"))
  ∧ "v3" ≠ " v3 ".
Proof.
  split; [reflexivity|].
  destruct (C9_result_is_stripped_tag [" v3 "; "v1"] "v3" eq_refl) as [H1 H2].
  split_and!; [exact H1|exact H2|discriminate].
Defined.

(** ** Digit groups and their integers *)

Lemma len_cons c s : len (String c s) = N.succ (len s).
Proof. unfold len. simpl String.length. lia. Qed.

Lemma int_from_acc acc s : Py.int_from acc s = acc * 10 ^ len s + Py.int s.
Proof.
  unfold Py.int. revert acc. induction s as [|c s IH]; intros acc.
  - simpl. change (len EmptyString) with 0. rewrite N.pow_0_r. lia.
  - simpl Py.int_from. rewrite (IH (10 * acc + _)), (IH (10 * 0 + _)).
    rewrite len_cons, N.pow_succ_r'. lia.
Qed.

Lemma int_cons c s :
  Py.int (String c s) = Py.digit_value c * 10 ^ len s + Py.int s.
Proof.
  unfold Py.int at 1. simpl Py.int_from. rewrite int_from_acc. lia.
Qed.

Lemma int_snoc s c :
  Py.int (s +:+ String c EmptyString) = 10 * Py.int s + Py.digit_value c.
Proof.
  unfold Py.int. generalize 0 as acc.
  induction s as [|d s IH]; intros acc; [done|].
  rewrite append_cons. simpl Py.int_from. apply IH.
Qed.

Lemma isdigit_value c : Py.isdigit c = true → Py.digit_value c ≤ 9.
Proof.
  unfold Py.isdigit, Py.digit_value. intros [? ?]%andb_true_iff.
  apply N.leb_le in H. apply N.leb_le in H0. lia.
Qed.

Lemma digit_value_inj c d :
  Py.isdigit c = true → Py.isdigit d = true →
  Py.digit_value c = Py.digit_value d → c = d.
Proof.
  unfold Py.isdigit, Py.digit_value, Py.ord.
  intros [Hc _]%andb_true_iff [Hd _]%andb_true_iff Heq.
  apply N.leb_le in Hc. apply N.leb_le in Hd.
  rewrite <-(ascii_N_embedding c), <-(ascii_N_embedding d). f_equal. lia.
Qed.

Lemma digit_value_zero c :
  Py.isdigit c = true → Py.digit_value c = 0 → c = "0"%char.
Proof. intros Hc H0. by apply digit_value_inj. Qed.

Lemma int_bound s : all_digits s = true → Py.int s < 10 ^ len s.
Proof.
  induction s as [|c s IH]; simpl.
  - intros _. change (Py.int EmptyString) with 0.
    change (len EmptyString) with 0. rewrite N.pow_0_r. lia.
  - intros [Hc Hs]%andb_true_iff. rewrite int_cons, len_cons, N.pow_succ_r'.
    specialize (IH Hs). apply isdigit_value in Hc. nia.
Qed.

Lemma int_lower_bound c s :
  Py.isdigit c = true → c ≠ "0"%char → 10 ^ len s ≤ Py.int (String c s).
Proof.
  intros Hc Hnz. rewrite int_cons.
  assert (Py.digit_value c ≠ 0) by (intros ?; by apply Hnz, digit_value_zero).
  nia.
Qed.

Lemma int_inj_same_length a :
  ∀ b, all_digits a = true → all_digits b = true →
    String.length a = String.length b → Py.int a = Py.int b → a = b.
Proof.
  induction a as [|c a IH]; intros [|d b]; simpl; try done.
  intros [Hc Ha]%andb_true_iff [Hd Hb]%andb_true_iff [= Hlen].
  rewrite !int_cons. unfold len. rewrite Hlen. intros Heq.
  pose proof (int_bound a Ha) as Ba. pose proof (int_bound b Hb) as Bb.
  unfold len in Ba, Bb. rewrite Hlen in Ba.
  set (k := 10 ^ N.of_nat (String.length b)) in *.
  assert (Py.digit_value c = Py.digit_value d ∧ Py.int a = Py.int b)
    as [Hcd Hab] by (apply (N.div_mod_unique k); lia).
  f_equal; [by apply digit_value_inj|by apply IH].
Qed.

(** Digit groups without leading zeros are determined by their value. *)
Lemma int_inj_no_leading_zero a b :
  all_digits a = true → all_digits b = true →
  no_leading_zero a = true → no_leading_zero b = true →
  Py.int a = Py.int b → a = b.
Proof.
  intros Ha Hb Hza Hzb Heq.
  apply int_inj_same_length; [done..| |done].
  pose proof (int_bound a Ha) as Ba. pose proof (int_bound b Hb) as Bb.
  assert (∀ s, all_digits s = true → no_leading_zero s = true →
            s ≠ EmptyString → 10 ^ len s ≤ 10 * Py.int s) as Hlow.
  { intros [|c s]; [done|]. simpl.
    intros [Hc _]%andb_true_iff Hnz%negb_true_iff%Ascii.eqb_neq _.
    rewrite len_cons, N.pow_succ_r'.
    pose proof (int_lower_bound c s Hc Hnz). lia. }
  destruct (decide (len a = len b)) as [Hl|Hl]; [unfold len in Hl; lia|].
  exfalso.
  assert (∀ x y, len x < len y → 10 * 10 ^ len x ≤ 10 ^ len y) as Hpow.
  { intros x y Hxy. rewrite <-N.pow_succ_r'.
    apply N.pow_le_mono_r; lia. }
  destruct (N.lt_ge_cases (len a) (len b)) as [Hlt|Hge].
  - specialize (Hpow _ _ Hlt).
    assert (b ≠ EmptyString) as Hne.
    { intros ->. change (len EmptyString) with 0 in Hlt. lia. }
    specialize (Hlow b Hb Hzb Hne). lia.
  - assert (len b < len a) as Hlt by lia. specialize (Hpow _ _ Hlt).
    assert (a ≠ EmptyString) as Hne.
    { intros ->. change (len EmptyString) with 0 in Hlt. lia. }
    specialize (Hlow a Ha Hza Hne). lia.
Qed.

Lemma drop_zeros_digits s : all_digits s = true → all_digits (drop_zeros s) = true.
Proof.
  induction s as [|c s IH]; simpl; [done|].
  intros [Hc Hs]%andb_true_iff.
  destruct (Ascii.eqb c "0"); [by apply IH|]. simpl. by rewrite Hc, Hs.
Qed.

Lemma drop_zeros_no_leading_zero s : no_leading_zero (drop_zeros s) = true.
Proof.
  induction s as [|c s IH]; simpl; [done|].
  destruct (Ascii.eqb c "0") eqn:Hc; [done|]. simpl. by rewrite Hc.
Qed.

Lemma int_drop_zeros s : Py.int (drop_zeros s) = Py.int s.
Proof.
  induction s as [|c s IH]; simpl; [done|].
  destruct (Ascii.eqb_spec c "0") as [->|]; [|done].
  rewrite IH, int_cons. change (Py.digit_value "0") with 0. lia.
Qed.

(** Two digit groups have the same value exactly when they agree up to
    leading zeros. *)
Lemma int_eq_iff_drop_zeros g h :
  all_digits g = true → all_digits h = true →
  Py.int g = Py.int h ↔ drop_zeros g = drop_zeros h.
Proof.
  intros Hg Hh. split.
  - intros Heq. apply int_inj_no_leading_zero;
      auto using drop_zeros_digits, drop_zeros_no_leading_zero.
    by rewrite !int_drop_zeros.
  - intros Heq. by rewrite <-(int_drop_zeros g), <-(int_drop_zeros h), Heq.
Qed.

Lemma canonical_inj g h :
  all_digits g = true → all_digits h = true →
  canonical g = true → canonical h = true →
  Py.int g = Py.int h → g = h.
Proof.
  assert (∀ c s, Py.isdigit c = true → all_digits s = true →
            canonical (String c s) = true →
            Py.int (String c s) = 0 → String c s = "0") as Hzero.
  { intros c s Hc Hs Hcan H0. simpl in Hcan.
    destruct (Ascii.eqb_spec c "0") as [->|Hnz].
    - destruct s; [done|]. simpl in Hcan. done.
    - pose proof (int_lower_bound c s Hc Hnz).
      assert (0 < 10 ^ len s) by (apply N.neq_0_lt_0, N.pow_nonzero; lia).
      lia. }
  intros Hg Hh Cg Ch Heq.
  destruct g as [|c g]; [done|]. destruct h as [|d h]; [done|].
  simpl in Hg, Hh.
  apply andb_true_iff in Hg as [Hc Hg]. apply andb_true_iff in Hh as [Hd Hh].
  destruct (Ascii.eqb_spec c "0") as [->|Hcz].
  { destruct g; [|done]. symmetry. apply Hzero; [done..|].
    by rewrite <-Heq. }
  destruct (Ascii.eqb_spec d "0") as [->|Hdz].
  { destruct h; [|done]. apply Hzero; [done..|]. by rewrite Heq. }
  apply int_inj_no_leading_zero; simpl.
  - by rewrite Hc, Hg.
  - by rewrite Hd, Hh.
  - by apply negb_true_iff, Ascii.eqb_neq.
  - by apply negb_true_iff, Ascii.eqb_neq.
  - done.
Qed.

(** ** What a match says about the string *)

Lemma span_digits_spec s :
  ∀ ds rest, span_digits s = (ds, rest) →
    s = ds +:+ rest ∧ all_digits ds = true.
Proof.
  induction s as [|c s IH]; simpl; intros ds rest.
  - by intros [= <- <-].
  - destruct (Py.isdigit c) eqn:Hc.
    + destruct (span_digits s) as [ds' rest'].
      intros [= <- <-]. destruct (IH _ _ eq_refl) as [-> Hds].
      simpl. by rewrite Hc, Hds.
    + by intros [= <- <-].
Qed.

Lemma span_digits_all g :
  all_digits g = true → span_digits g = (g, EmptyString).
Proof.
  induction g as [|c g IH]; simpl; [done|].
  intros [Hc Hg]%andb_true_iff. by rewrite Hc, (IH Hg).
Qed.

Lemma at_end_inv s : at_end s = true → s = EmptyString ∨ s = nl.
Proof.
  destruct s as [|c [|c' s]]; simpl; [by left| |done].
  intros ->%Ascii.eqb_eq. by right.
Qed.

Lemma digits_then_end_inv s g :
  digits_then_end s = Some g →
  nonempty g = true ∧ all_digits g = true ∧ (s = g ∨ s = g +:+ nl).
Proof.
  unfold digits_then_end.
  destruct (span_digits s) as [ds rest] eqn:Hspan.
  destruct (nonempty ds) eqn:Hne; simpl; [|done].
  destruct (at_end rest) eqn:Hend; [|done]. intros [= <-].
  apply span_digits_spec in Hspan as [-> Hds].
  split_and!; [done..|].
  apply at_end_inv in Hend as [->| ->]; [left|by right].
  by rewrite append_nil_r.
Qed.

Lemma digits_then_end_all g :
  nonempty g = true → all_digits g = true → digits_then_end g = Some g.
Proof.
  intros Hne Hg. unfold digits_then_end.
  by rewrite (span_digits_all g Hg), Hne.
Qed.

Lemma isdigit_not_space c : Py.isdigit c = true → Py.isspace c = false.
Proof.
  unfold Py.isdigit, Py.isspace. intros [H1 H2]%andb_true_iff.
  apply N.leb_le in H1. apply N.leb_le in H2.
  repeat (apply orb_false_iff; split);
    try apply andb_false_iff; rewrite ?N.leb_gt, ?N.eqb_neq; lia.
Qed.

Lemma rstrip_digits g : all_digits g = true → Py.rstrip g = g.
Proof.
  induction g as [|c g IH]; simpl; [done|].
  intros [Hc Hg]%andb_true_iff. rewrite (IH Hg).
  destruct g; [|done]. by rewrite (isdigit_not_space c Hc).
Qed.

(** On a stripped tag, [^v(\d+)$] matches the whole string. *)
Lemma vinteger_pattern_strip t g :
  vinteger_pattern (Py.strip t) = Some g →
  Py.strip t = String "v" g ∧ nonempty g = true ∧ all_digits g = true.
Proof.
  intros Hm. destruct (Py.strip t) as [|c s] eqn:Ht; simpl in Hm; [done|].
  destruct (Ascii.eqb_spec c "v") as [->|]; [|done].
  apply digits_then_end_inv in Hm as (Hne & Hg & [->| ->]); [done|].
  by destruct (strip_not_newline_end t (String "v" g)).
Qed.

Lemma vinteger_pattern_digits g :
  nonempty g = true → all_digits g = true →
  Py.strip (String "v" g) = String "v" g
  ∧ vinteger_pattern (String "v" g) = Some g.
Proof.
  intros Hne Hg. split; [|by apply digits_then_end_all].
  unfold Py.strip. simpl. rewrite (rstrip_digits g Hg). by destruct g.
Qed.

(** Every integer has a canonical digit group. *)
Lemma exists_canonical_below (k : nat) :
  ∀ n, n < 10 ^ N.of_nat k →
    ∃ g, all_digits g = true ∧ canonical g = true ∧ Py.int g = n
       ∧ (n ≠ 0 → no_leading_zero g = true).
Proof.
  assert (∀ d, d < 10 →
    Py.isdigit (Py.chr (48 + d)) = true
    ∧ Py.digit_value (Py.chr (48 + d)) = d) as Hdigit.
  { intros d Hd. unfold Py.isdigit, Py.digit_value, Py.ord, Py.chr.
    rewrite N_ascii_embedding by lia. split; [|lia].
    apply andb_true_iff. rewrite !N.leb_le. lia. }
  induction k as [|k IH]; intros n Hn.
  { exists "0". assert (n = 0) as -> by (simpl in Hn; lia). done. }
  destruct (N.lt_ge_cases n 10) as [Hlt|Hge].
  - destruct (Hdigit n Hlt) as [Hd Hv].
    exists (String (Py.chr (48 + n)) EmptyString). split_and!.
    + simpl. by rewrite Hd.
    + simpl. apply orb_true_r.
    + rewrite int_cons, Hv. change (len EmptyString) with 0.
      change (Py.int EmptyString) with 0. rewrite N.pow_0_r. lia.
    + intros Hnz. simpl. apply negb_true_iff, Ascii.eqb_neq. intros Hc.
      rewrite Hc in Hv. change (Py.digit_value "0") with 0 in Hv. lia.
  - assert (n / 10 < 10 ^ N.of_nat k) as Hq.
    { apply N.Div0.div_lt_upper_bound.
      by rewrite <-N.pow_succ_r', <-Nat2N.inj_succ. }
    assert (n / 10 ≠ 0) as Hq0.
    { intros H0. apply N.div_small_iff in H0; lia. }
    destruct (IH _ Hq) as (g & Hg & Hcan & Hint & Hnz).
    assert (n mod 10 < 10) as Hr by (apply N.mod_lt; lia).
    destruct (Hdigit _ Hr) as [Hd Hv].
    exists (g +:+ String (Py.chr (48 + n mod 10)) EmptyString).
    specialize (Hnz Hq0). destruct g as [|c g]; [done|].
    split_and!.
    + clear -Hg Hd. revert Hg. generalize (String c g) as s.
      induction s as [|e s IHs]; [by simpl; rewrite Hd|].
      rewrite append_cons. simpl.
      intros [-> Hs]%andb_true_iff. by apply IHs.
    + rewrite append_cons. simpl in *. by rewrite Hnz.
    + rewrite int_snoc, Hint, Hv. symmetry. apply N.div_mod. lia.
    + intros _. rewrite append_cons. exact Hnz.
Qed.

Lemma exists_canonical n :
  ∃ g, all_digits g = true ∧ canonical g = true ∧ Py.int g = n.
Proof.
  destruct (exists_canonical_below (N.to_nat n) n) as (g & ? & ? & ? & _).
  { rewrite N2Nat.id. apply N.pow_gt_lin_r. lia. }
  by exists g.
Qed.

Lemma canonical_nonempty g : canonical g = true → nonempty g = true.
Proof. by destruct g. Qed.

(** With several candidates of the largest integer, the [vN] branch
    returns the first of them in the order of the tag list. *)
Lemma select_vinteger_first tags :
  vinteger_tags tags ≠ [] →
  ∃ pre t post n, tags = pre ++ t :: post
    ∧ get_latest_version_tag tags = Some (Py.strip t)
    ∧ vinteger_of (Py.strip t) = Some n
    ∧ (∀ u k, u ∈ pre → vinteger_of (Py.strip u) = Some k → k < n)
    ∧ (∀ u k, u ∈ post → vinteger_of (Py.strip u) = Some k → k ≤ n).
Proof.
  intros Hne. rewrite (get_latest_vinteger _ Hne).
  destruct (select_first_max N.ltb _ Hne)
    as (cpre & [n r] & cpost & Hc & -> & Hpre & Hpost).
  apply omap_app_cons_inv in Hc as (pre & t & post & -> & Ht & <- & <-).
  assert (vinteger_of (Py.strip t) = Some n ∧ r = Py.strip t) as [Hn ->].
  { unfold vinteger_of. destruct (vinteger_pattern (Py.strip t));
      simplify_eq/=. done. }
  exists pre, t, post, n. split_and!; [done..| |].
  - intros u k Hu Hk. apply N.ltb_lt.
    rewrite Forall_forall in Hpre. apply (Hpre (k, Py.strip u)).
    apply list_elem_of_omap. exists u. split; [done|].
    unfold vinteger_of in Hk.
    destruct (vinteger_pattern (Py.strip u)); simplify_eq/=. done.
  - intros u k Hu Hk. apply N.ltb_ge.
    rewrite Forall_forall in Hpost. apply (Hpost (k, Py.strip u)).
    apply list_elem_of_omap. exists u. split; [done|].
    unfold vinteger_of in Hk.
    destruct (vinteger_pattern (Py.strip u)); simplify_eq/=. done.
Qed.

(** ** Ties inside the [vN] convention *)

(** C4, as stated, fails: [v1] and [v01] are two different strings, both
    match [^v(\d+)$], and both carry the integer 1; which one the
    selector returns depends on their order in the list. *)
Lemma C4_counterexample :
  Py.strip "v1" ≠ Py.strip "v01"
  ∧ vinteger_pattern (Py.strip "v1") = Some "1"
  ∧ vinteger_pattern (Py.strip "v01") = Some "01"
  ∧ Py.int "1" = Py.int "01"
  ∧ get_latest_version_tag ["v01"; "v1"] = Some "v01"
  ∧ get_latest_version_tag ["v1"; "v01"] = Some "v1".
Proof. split_and!; [discriminate|reflexivity..]. Qed.

Lemma ascii_digits_all_digits s : ascii_digits s = all_digits s.
Proof. induction s as [|c s IH]; [done|]. simpl. by rewrite IH. Qed.

(** A group written the way [str(n)] writes it is as short as its
    value allows. *)
Lemma canonical_len g L :
  all_digits g = true → canonical g = true → 0 < L →
  Py.int g < 10 ^ L → len g ≤ L.
Proof.
  destruct g as [|c g]; [done|]. simpl.
  intros [Hc Hg]%andb_true_iff Hcan HL Hlt. rewrite len_cons.
  destruct (Ascii.eqb_spec c "0") as [->|Hnz].
  - destruct g; [|done]. change (len EmptyString) with 0. lia.
  - pose proof (int_lower_bound c g Hc Hnz) as Hlow.
    assert (10 ^ len g < 10 ^ L) as Hpow by lia.
    apply N.pow_lt_mono_r_iff in Hpow; lia.
Qed.

Lemma exists_canonical_convertible n :
  n < 10 ^ Py.int_max_str_digits →
  ∃ g, all_digits g = true ∧ canonical g = true
     ∧ Py.int_checked g = Some n.
Proof.
  intros Hn. destruct (exists_canonical n) as (g & Hg & Hcan & Hint).
  exists g. split_and!; [done..|]. apply int_checked_Some. split; [|done].
  apply canonical_len; [done..| |by rewrite Hint]. by vm_compute.
Qed.

(** With several candidates of the largest integer, a call that the
    [vN] loop decides returns the first of them in the order of the
    tag list. *)
Lemma call_vinteger_first tags :
  (∀ t g, t ∈ tags → vinteger_pattern (Py.strip t) = Some g →
     convertible g) →
  (∃ t, t ∈ tags ∧ is_Some (vinteger_pattern (Py.strip t))) →
  ∃ pre t post n, tags = pre ++ t :: post
    ∧ get_latest_version_tag_call tags = Returned (Some (Py.strip t))
    ∧ vinteger_of (Py.strip t) = Some n
    ∧ (∀ u k, u ∈ pre → vinteger_of (Py.strip u) = Some k → k < n)
    ∧ (∀ u k, u ∈ post → vinteger_of (Py.strip u) = Some k → k ≤ n).
Proof.
  intros Hok Hm. rewrite (call_vinteger tags Hok Hm).
  destruct Hm as (t & Ht & Hm).
  destruct (select_vinteger_first tags)
    as (pre & u & post & n & -> & Hs & Hn & Hpre & Hpost).
  { by eapply vinteger_tags_ne. }
  exists pre, u, post, n. by rewrite Hs.
Qed.

(** C4, amended. Ties in value can occur: [^v(\d+)$] accepts leading
    zeros.  Two stripped tags that match it with digit groups written
    in the characters 0 to 9, and that [int] converts, carry the same
    integer exactly when the groups agree once leading zeros are
    dropped; among the forms written without superfluous leading zeros
    each integer below [10 ^ 4300] has exactly one matching string.
    Of the tags with the largest integer, duplicates or not, a call
    that converts the [vN] groups returns the one that comes first in
    the list. *)
Theorem C4_ties_up_to_leading_zeros :
  (∀ t u g h n m,
     vinteger_pattern (Py.strip t) = Some g →
     vinteger_pattern (Py.strip u) = Some h →
     ascii_digits g = true → ascii_digits h = true →
     Py.int_checked g = Some n → Py.int_checked h = Some m →
     Py.strip t = String "v" g ∧ Py.strip u = String "v" h
     ∧ (n = m ↔ drop_zeros g = drop_zeros h)
     ∧ (canonical g = true → canonical h = true →
        n = m → Py.strip t = Py.strip u))
  ∧ (∀ n, n < 10 ^ Py.int_max_str_digits →
       ∃ t g,
         Py.strip t = t ∧ vinteger_pattern t = Some g
         ∧ ascii_digits g = true ∧ canonical g = true
         ∧ Py.int_checked g = Some n)
  ∧ (∀ tags,
       (∀ t g, t ∈ tags → vinteger_pattern (Py.strip t) = Some g →
          convertible g) →
       (∃ t, t ∈ tags ∧ is_Some (vinteger_pattern (Py.strip t))) →
       ∃ pre t post n, tags = pre ++ t :: post
         ∧ get_latest_version_tag_call tags = Returned (Some (Py.strip t))
         ∧ vinteger_of (Py.strip t) = Some n
         ∧ (∀ u k, u ∈ pre → vinteger_of (Py.strip u) = Some k → k < n)
         ∧ (∀ u k, u ∈ post → vinteger_of (Py.strip u) = Some k → k ≤ n)).
Proof.
  split_and!.
  - intros t u g h n m Hg Hh Ag Ah Hn Hm.
    rewrite ascii_digits_all_digits in Ag, Ah.
    apply vinteger_pattern_strip in Hg as (-> & _ & _).
    apply vinteger_pattern_strip in Hh as (-> & _ & _).
    apply int_checked_Some in Hn as [_ ->].
    apply int_checked_Some in Hm as [_ ->].
    split_and!; [done..|by apply int_eq_iff_drop_zeros|].
    intros Cg Ch Heq. f_equal. by apply canonical_inj.
  - intros n Hn.
    destruct (exists_canonical_convertible n Hn) as (g & Hg & Hcan & Hint).
    destruct (vinteger_pattern_digits g) as [Hs Hm];
      [by apply canonical_nonempty|done|].
    exists (String "v" g), g. by rewrite ascii_digits_all_digits.
  - apply call_vinteger_first.
Qed.

Lemma C4_ties_up_to_leading_zeros_witness :
  (Py.strip " v007 " = "v007" ∧ Py.strip "v7" = "v7"
   ∧ (7 = 7 ↔ drop_zeros "007" = drop_zeros "7")
   ∧ (canonical "007" = true → canonical "7" = true →
      7 = 7 → Py.strip " v007 " = Py.strip "v7"))
  ∧ (∃ t g,
       Py.strip t = t ∧ vinteger_pattern t = Some g
       ∧ ascii_digits g = true ∧ canonical g = true
       ∧ Py.int_checked g = Some 2024)
  ∧ (∃ pre t post n, ["v2"; "v03"; "v3"; "v1"] = pre ++ t :: post
       ∧ get_latest_version_tag_call ["v2"; "v03"; "v3"; "v1"]
         = Returned (Some (Py.strip t))
       ∧ vinteger_of (Py.strip t) = Some n
       ∧ (∀ u k, u ∈ pre → vinteger_of (Py.strip u) = Some k → k < n)
       ∧ (∀ u k, u ∈ post → vinteger_of (Py.strip u) = Some k → k ≤ n)).
Proof.
  destruct C4_ties_up_to_leading_zeros as (Hties & Hform & Hfirst).
  split; [|split].
  - apply (Hties " v007 " "v7" "007" "7" 7 7); reflexivity.
  - apply (Hform 2024). apply N.ltb_lt. by vm_compute.
  - apply (Hfirst ["v2"; "v03"; "v3"; "v1"]).
    + intros t g Ht Hg.
      repeat (apply elem_of_cons in Ht as [->|Ht];
              [vm_compute in Hg; simplify_eq; by vm_compute|]).
      inversion Ht.
    + exists "v2". split; [left|by eexists].
Defined.

(** ** The fetch loops, one page at a time *)

Lemma logged_nil w : logged [] w = w.
Proof. destruct w. unfold logged. simpl. by rewrite app_nil_r. Qed.

Lemma logged_logged rqs rqs' w :
  logged rqs' (logged rqs w) = logged (rqs ++ rqs') w.
Proof. unfold logged. simpl. by rewrite app_assoc. Qed.

Section fetch_facts.
Context (net : transport).

Lemma curl_tags_reply org repo_name page w :
  curl_tags net org repo_name page w
  = (match tags_reply net org repo_name per_page page with
     | Some page_tags => Returned page_tags
     | None => Raised
     end, logged [TagsRequest org repo_name per_page page] w).
Proof.
  unfold curl_tags, bind, log_request. simpl.
  by destruct (tags_reply net org repo_name per_page page).
Qed.

Lemma curl_repos_reply org page w :
  curl_repos net org page w
  = (match repos_reply net org per_page page with
     | Some page_repos => Returned page_repos
     | None => Raised
     end, logged [ReposRequest org per_page page] w).
Proof.
  unfold curl_repos, bind, log_request. simpl.
  by destruct (repos_reply net org per_page page).
Qed.

Lemma fetch_tags_loop_S fuel org repo_name tags page w :
  fetch_tags_loop net (S fuel) org repo_name tags page w
  = let w' := logged [TagsRequest org repo_name per_page page] w in
    match tags_reply net org repo_name per_page page with
    | None => (Raised, w')
    | Some (ApiError _) => (Returned tags, w')
    | Some (TagList page_tags) =>
        if N.of_nat (length page_tags) <? per_page
        then (Returned (tags ++ (tag_name <$> page_tags)), w')
        else fetch_tags_loop net fuel org repo_name
               (tags ++ (tag_name <$> page_tags)) (page + 1) w'
    end.
Proof.
  simpl. unfold bind at 1. rewrite curl_tags_reply.
  destruct (tags_reply net org repo_name per_page page) as [[l|m]|]; try done.
  destruct l as [|x l].
  - unfold ret. simpl. by rewrite app_nil_r.
  - by destruct (N.of_nat (length (x :: l)) <? per_page).
Qed.

Lemma fetch_repos_loop_S fuel org repos page w :
  fetch_repos_loop net (S fuel) org repos page w
  = let w' := logged [ReposRequest org per_page page] w in
    match repos_reply net org per_page page with
    | None => (Raised, w')
    | Some page_repos =>
        if N.of_nat (length page_repos) <? per_page
        then (Returned (repos ++ page_repos), w')
        else fetch_repos_loop net fuel org (repos ++ page_repos) (page + 1) w'
    end.
Proof.
  simpl. unfold bind at 1. rewrite curl_repos_reply.
  destruct (repos_reply net org per_page page) as [l|]; try done.
  destruct l as [|x l].
  - unfold ret. simpl. by rewrite app_nil_r.
  - by destruct (N.of_nat (length (x :: l)) <? per_page).
Qed.

Lemma pages_from_S mk page n :
  pages_from mk page (S n) = mk page :: pages_from mk (page + 1) n.
Proof.
  unfold pages_from. simpl. rewrite N.add_0_r. f_equal.
  rewrite <-fmap_S_seq, <-list_fmap_compose. apply list_fmap_ext.
  intros _ i _. simpl. f_equal. lia.
Qed.

(** A run of full pages is consumed page by page. *)
Lemma fetch_tags_loop_full org repo_name (full : list (list tag)) :
  ∀ fuel tags page w,
    (∀ i l, full !! i = Some l →
       tags_reply net org repo_name per_page (page + N.of_nat i)
         = Some (TagList l)
       ∧ (100 ≤ length l)%nat) →
    fetch_tags_loop net (length full + fuel) org repo_name tags page w
    = fetch_tags_loop net fuel org repo_name
        (tags ++ (tag_name <$> concat full))
        (page + N.of_nat (length full))
        (logged (pages_from (TagsRequest org repo_name per_page) page
                   (length full)) w).
Proof.
  induction full as [|l full IH]; intros fuel tags page w Hfull.
  - simpl. by rewrite app_nil_r, N.add_0_r, logged_nil.
  - destruct (Hfull 0%nat l eq_refl) as [Hl Hlen]. rewrite N.add_0_r in Hl.
    simpl length. simpl Nat.add. rewrite fetch_tags_loop_S, Hl. cbv zeta.
    assert ((N.of_nat (length l) <? per_page) = false) as ->.
    { apply N.ltb_ge. unfold per_page. lia. }
    rewrite IH.
    + rewrite pages_from_S, logged_logged, concat_cons, fmap_app, app_assoc.
      by replace (page + 1 + N.of_nat (length full))
        with (page + N.of_nat (S (length full))) by lia.
    + intros i l' Hi. destruct (Hfull (S i) l' Hi) as [Hr ?].
      split; [|done]. rewrite <-Hr. f_equal. lia.
Qed.

Lemma fetch_repos_loop_full org (full : list (list repo)) :
  ∀ fuel repos page w,
    (∀ i l, full !! i = Some l →
       repos_reply net org per_page (page + N.of_nat i) = Some l
       ∧ (100 ≤ length l)%nat) →
    fetch_repos_loop net (length full + fuel) org repos page w
    = fetch_repos_loop net fuel org (repos ++ concat full)
        (page + N.of_nat (length full))
        (logged (pages_from (ReposRequest org per_page) page
                   (length full)) w).
Proof.
  induction full as [|l full IH]; intros fuel repos page w Hfull.
  - simpl. by rewrite app_nil_r, N.add_0_r, logged_nil.
  - destruct (Hfull 0%nat l eq_refl) as [Hl Hlen]. rewrite N.add_0_r in Hl.
    simpl length. simpl Nat.add. rewrite fetch_repos_loop_S, Hl. cbv zeta.
    assert ((N.of_nat (length l) <? per_page) = false) as ->.
    { apply N.ltb_ge. unfold per_page. lia. }
    rewrite IH.
    + rewrite pages_from_S, logged_logged, concat_cons, app_assoc.
      by replace (page + 1 + N.of_nat (length full))
        with (page + N.of_nat (S (length full))) by lia.
    + intros i l' Hi. destruct (Hfull (S i) l' Hi) as [Hr ?].
      split; [|done]. rewrite <-Hr. f_equal. lia.
Qed.

Lemma pages_from_snoc mk page n :
  pages_from mk page n ++ [mk (page + N.of_nat n)] = pages_from mk page (S n).
Proof. unfold pages_from. by rewrite seq_S, fmap_app. Qed.

End fetch_facts.

(** ** The fetch loops: pagination and the error page *)

(** C5. When the pages before page [n] of a repository's tags are full
    lists and page [n] is an object carrying a message, [fetch_tags]
    returns (it does not raise, and it does not loop, given fuel for
    [n] pages) exactly the names of pages 1 to [n-1], in order, having
    requested pages 1 to [n] and no other; with [n = 1] the result is
    the empty list. *)
Theorem C5_error_page_stops (net : transport) (org repo_name : string)
    (full : list (list tag)) (message : string) (fuel : nat) (w : world) :
  (∀ i l, full !! i = Some l →
     tags_reply net org repo_name 100 (1 + N.of_nat i) = Some (TagList l)
     ∧ (100 ≤ length l)%nat) →
  tags_reply net org repo_name 100 (1 + N.of_nat (length full))
    = Some (ApiError message) →
  (length full < fuel)%nat →
  fetch_tags net fuel org repo_name w
  = (Returned (tag_name <$> concat full),
     logged (pages_from (TagsRequest org repo_name 100) 1
               (S (length full))) w).
Proof.
  intros Hfull Herr Hfuel.
  replace fuel with (length full + S (fuel - S (length full)))%nat by lia.
  unfold fetch_tags. rewrite (fetch_tags_loop_full net _ _ full _ _ _ _ Hfull).
  rewrite fetch_tags_loop_S. change per_page with 100. rewrite Herr.
  cbv zeta. by rewrite logged_logged, pages_from_snoc.
Qed.

Lemma C5_error_page_stops_witness :
  fetch_tags limited_net 2 "actions" "cache" (World [] (λ _, None))
  = (Returned (tag_name <$> concat [full_page]),
     logged (pages_from (TagsRequest "actions" "cache" 100) 1 2)
            (World [] (λ _, None))).
Proof.
  apply (C5_error_page_stops limited_net "actions" "cache" [full_page]
           "API rate limit exceeded" 2 (World [] (λ _, None))).
  - intros [|[|i]] l; simpl; intros [= <-]. split; [reflexivity|].
    unfold full_page. rewrite length_replicate. lia.
  - reflexivity.
  - simpl. lia.
Defined.

(** C6. Both loops ask for pages of 100 records, page 1 first and then
    the next one as long as the page received holds at least 100
    records; the first page with fewer than 100 records (possibly none)
    is the last one requested, and the result is all the records
    received (for tags, their names), page after page, the short last
    page included. *)
Theorem C6_pagination (net : transport) (org repo_name : string)
    (fuel : nat) (w : world) :
  (∀ (full : list (list repo)) (final : list repo),
     (∀ i l, full !! i = Some l →
        repos_reply net org 100 (1 + N.of_nat i) = Some l
        ∧ (100 ≤ length l)%nat) →
     repos_reply net org 100 (1 + N.of_nat (length full)) = Some final →
     (length final < 100)%nat →
     (length full < fuel)%nat →
     fetch_repos net fuel org w
     = (Returned (concat full ++ final),
        logged (pages_from (ReposRequest org 100) 1 (S (length full))) w))
  ∧ (∀ (full : list (list tag)) (final : list tag),
     (∀ i l, full !! i = Some l →
        tags_reply net org repo_name 100 (1 + N.of_nat i) = Some (TagList l)
        ∧ (100 ≤ length l)%nat) →
     tags_reply net org repo_name 100 (1 + N.of_nat (length full))
       = Some (TagList final) →
     (length final < 100)%nat →
     (length full < fuel)%nat →
     fetch_tags net fuel org repo_name w
     = (Returned (tag_name <$> (concat full ++ final)),
        logged (pages_from (TagsRequest org repo_name 100) 1
                  (S (length full))) w)).
Proof.
  split.
  - intros full final Hfull Hfinal Hshort Hfuel.
    replace fuel with (length full + S (fuel - S (length full)))%nat by lia.
    unfold fetch_repos.
    rewrite (fetch_repos_loop_full net _ full _ _ _ _ Hfull).
    rewrite fetch_repos_loop_S. change per_page with 100. rewrite Hfinal.
    cbv zeta.
    assert ((N.of_nat (length final) <? 100) = true) as ->
      by (apply N.ltb_lt; lia).
    by rewrite logged_logged, pages_from_snoc.
  - intros full final Hfull Hfinal Hshort Hfuel.
    replace fuel with (length full + S (fuel - S (length full)))%nat by lia.
    unfold fetch_tags.
    rewrite (fetch_tags_loop_full net _ _ full _ _ _ _ Hfull).
    rewrite fetch_tags_loop_S. change per_page with 100. rewrite Hfinal.
    cbv zeta.
    assert ((N.of_nat (length final) <? 100) = true) as ->
      by (apply N.ltb_lt; lia).
    by rewrite logged_logged, pages_from_snoc, fmap_app.
Qed.

Lemma C6_pagination_witness :
  fetch_repos two_page_net 2 "actions" (World [] (λ _, None))
  = (Returned (concat [full_repo_page] ++ [Repo "repo-100"]),
     logged (pages_from (ReposRequest "actions" 100) 1 2)
            (World [] (λ _, None)))
  ∧ fetch_tags two_page_net 3 "actions" "big-repo" (World [] (λ _, None))
  = (Returned (tag_name <$> (concat [full_page; full_page] ++ [])),
     logged (pages_from (TagsRequest "actions" "big-repo" 100) 1 3)
            (World [] (λ _, None))).
Proof.
  split.
  - apply (proj1 (C6_pagination two_page_net "actions" "big-repo" 2
                    (World [] (λ _, None)))).
    + intros [|[|i]] l; simpl; intros [= <-]. split; [reflexivity|].
      unfold full_repo_page. rewrite length_replicate. lia.
    + reflexivity.
    + simpl. lia.
    + simpl. lia.
  - apply (proj2 (C6_pagination two_page_net "actions" "big-repo" 3
                    (World [] (λ _, None)))).
    + intros [|[|[|i]]] l; simpl; intros [= <-];
        (split; [reflexivity|]);
        unfold full_page; rewrite length_replicate; lia.
    + reflexivity.
    + simpl. lia.
    + simpl. lia.
Defined.

(** ** The writer *)

Lemma join_lines lines :
  lines ≠ [] → Py.join nl lines +:+ nl = lines_text lines.
Proof.
  induction lines as [|p [|q lines] IH]; intros Hne; [done| |].
  - simpl. by rewrite append_nil_r.
  - change (Py.join nl (p :: q :: lines))
      with (p +:+ nl +:+ Py.join nl (q :: lines)).
    rewrite !append_assoc, IH by done. done.
Qed.

Lemma string_ltb_total a b :
  String.ltb b a = false → a ≠ b → String.ltb a b = true.
Proof.
  unfold String.ltb. rewrite (String.compare_antisym a b).
  destruct (String.compare b a) eqn:Hc; simpl; try done.
  apply String.compare_eq_iff in Hc. by intros _ [].
Qed.

Lemma string_ltb_false_leb a b : String.ltb b a = false ↔ String.leb a b = true.
Proof. rewrite string_ltb_leb. apply negb_false_iff. Qed.

Lemma StronglySorted_mono {A} (R R' : A → A → Prop) l :
  (∀ a b, R a b → R' a b) → StronglySorted R l → StronglySorted R' l.
Proof.
  intros HR. induction 1 as [|x l Hs IH Hx]; constructor; [done|].
  eapply Forall_impl; [exact Hx|]. intros y. apply HR.
Qed.

Lemma sort_versions_perm versions : sort_versions versions ≡ₚ versions.
Proof. apply (sort_perm String.ltb). Qed.

Lemma sort_versions_sorted versions :
  StronglySorted (λ a b, String.leb (Py.lower a.1) (Py.lower b.1) = true)
                 (sort_versions versions).
Proof.
  eapply StronglySorted_mono;
    [|apply (stable_sort_sorted String.ltb (λ x, Py.lower x.1))].
  intros a b. apply string_ltb_false_leb.
Qed.

Lemma sorted_set_elem_of repos x : x ∈ sorted_set repos ↔ x ∈ repos.
Proof.
  unfold sorted_set. by rewrite (sort_perm String.ltb), elem_of_elements.
Qed.

Lemma sorted_set_NoDup repos : NoDup (sorted_set repos).
Proof.
  unfold sorted_set. rewrite (sort_perm String.ltb). apply NoDup_elements.
Qed.

Lemma sorted_set_sorted repos :
  StronglySorted (λ a b, String.ltb a b = true) (sorted_set repos).
Proof.
  pose proof (sorted_set_NoDup repos) as Hnd.
  pose proof (stable_sort_sorted String.ltb id (elements repos)) as Hs.
  change (Py.stable_sort String.ltb id (elements repos))
    with (sorted_set repos) in Hs.
  induction Hs as [|x l Hs IH Hx]; [constructor|].
  apply NoDup_cons in Hnd as [Hx' Hnd]. constructor; [by apply IH|].
  rewrite Forall_forall in Hx. apply Forall_forall. intros y Hy.
  apply string_ltb_total; [by apply Hx|]. intros ->. done.
Qed.

(** Where the three writes of [publish] leave the files. *)
Lemma update_readme_frame re_sub content w :
  let w' := (update_readme re_sub content w).2 in
  requests w' = requests w
  ∧ files w' VERSIONS_FILE = files w VERSIONS_FILE
  ∧ files w' UNVERSIONED_FILE = files w UNVERSIONED_FILE.
Proof.
  unfold update_readme, bind, read_text. simpl.
  destruct (files w README_FILE) as [text|]; simpl; [|done].
  destruct (_ && _); simpl; [|done].
  by destruct (re_sub _ text).
Qed.

Lemma publish_run re_sub versions new_unversioned w o w' :
  publish re_sub versions new_unversioned w = (o, w') →
  requests w' = requests w
  ∧ files w' VERSIONS_FILE = Some (versions_content versions)
  ∧ (o = Returned tt →
     files w' UNVERSIONED_FILE = Some (unversioned_text new_unversioned)).
Proof.
  unfold publish. unfold bind at 1.
  unfold write_text at 1. cbv beta iota zeta.
  set (w1 := World (requests w) _). unfold bind.
  pose proof (update_readme_frame re_sub (versions_content versions) w1)
    as (Hrq & Hv & _).
  destruct (update_readme re_sub (versions_content versions) w1)
    as [[[]| |] w2]; simpl in Hrq, Hv; simpl; intros [= <- <-];
    by rewrite ?Hrq, ?Hv.
Qed.

Lemma publish_files re_sub versions new_unversioned w :
  let r := publish re_sub versions new_unversioned w in
  requests r.2 = requests w
  ∧ files r.2 VERSIONS_FILE = Some (versions_content versions)
  ∧ (r.1 = Returned tt →
     files r.2 UNVERSIONED_FILE = Some (unversioned_text new_unversioned)).
Proof.
  intros r. apply (publish_run re_sub versions new_unversioned w).
  apply surjective_pairing.
Qed.

Lemma main_unfold net re_sub fuel w :
  main net re_sub fuel w
  = match collect net fuel w with
    | (Returned (versions, new_unversioned), w') =>
        publish re_sub versions new_unversioned w'
    | (Raised, w') => (Raised, w')
    | (OutOfFuel, w') => (OutOfFuel, w')
    end.
Proof.
  unfold main, bind. by destruct (collect net fuel w) as [[[? ?]| |] ?].
Qed.

(** C7. The manifest is one line [owner/repo@tag] per accepted record,
    the records sorted by the lower-cased path, each line followed by a
    line feed (so the text ends with one); the unversioned file holds
    the identifiers of the set, each once, in strictly ascending
    code-point order, one per line; both files are replaced by what is
    written, whatever they held before. *)
Theorem C7_writer_output (re_sub : string → string → option string)
    (versions : list (string * string)) (new_unversioned : gset string)
    (w : world) :
  sort_versions versions ≡ₚ versions
  ∧ StronglySorted (λ a b, String.leb (Py.lower a.1) (Py.lower b.1) = true)
                   (sort_versions versions)
  ∧ (versions ≠ [] →
     versions_content versions
     = lines_text ((λ x, x.1 +:+ "@" +:+ x.2) <$> sort_versions versions))
  ∧ (∀ x, x ∈ sorted_set new_unversioned ↔ x ∈ new_unversioned)
  ∧ NoDup (sorted_set new_unversioned)
  ∧ StronglySorted (λ a b, String.ltb a b = true)
                   (sorted_set new_unversioned)
  ∧ files (save_unversioned new_unversioned w).2 UNVERSIONED_FILE
    = Some (lines_text (sorted_set new_unversioned))
  ∧ files (publish re_sub versions new_unversioned w).2 VERSIONS_FILE
    = Some (versions_content versions)
  ∧ ((publish re_sub versions new_unversioned w).1 = Returned tt →
     files (publish re_sub versions new_unversioned w).2 UNVERSIONED_FILE
     = Some (lines_text (sorted_set new_unversioned))).
Proof.
  split_and!.
  - apply sort_versions_perm.
  - apply sort_versions_sorted.
  - intros Hne. unfold versions_content. apply join_lines.
    intros Hnil. apply fmap_nil_inv in Hnil. apply Hne.
    apply Permutation_nil_r. by rewrite <-Hnil, sort_versions_perm.
  - apply sorted_set_elem_of.
  - apply sorted_set_NoDup.
  - apply sorted_set_sorted.
  - done.
  - apply publish_files.
  - apply publish_files.
Qed.

Lemma C7_writer_output_witness :
  versions_content
    [("actions/setup-python", "v5"); ("Actions/Cache", "v4");
     ("actions/setup-node", "v4")]
  = lines_text ["Actions/Cache@v4"; "actions/setup-node@v4";
                "actions/setup-python@v5"]
  ∧ files (publish (λ _ _, None) [("actions/checkout", "v4")]
             ({["zebra"]} ∪ {["alpha"]} ∪ {["Mango"]})
             (World [] (λ _, Some "old"))).2 UNVERSIONED_FILE
    = Some (lines_text ["Mango"; "alpha"; "zebra"]).
Proof.
  pose proof (C7_writer_output (λ _ _, None)
    [("actions/setup-python", "v5"); ("Actions/Cache", "v4");
     ("actions/setup-node", "v4")] ∅ (World [] (λ _, None)))
    as (_ & _ & Hlines & _).
  pose proof (C7_writer_output (λ _ _, None) [("actions/checkout", "v4")]
    ({["zebra"]} ∪ {["alpha"]} ∪ {["Mango"]}) (World [] (λ _, Some "old")))
    as (_ & _ & _ & _ & _ & _ & _ & _ & Hfile).
  split.
  - rewrite Hlines by discriminate. reflexivity.
  - rewrite Hfile by reflexivity. reflexivity.
Defined.

(** C10. With no accepted record the manifest text is a single line
    feed, and this is what the versions file holds after the run. *)
Theorem C10_empty_manifest (net : transport)
    (re_sub : string → string → option string)
    (new_unversioned : gset string) (fuel : nat) (w w' : world) :
  versions_content [] = String (Py.chr 10) EmptyString
  ∧ String.length (versions_content []) = 1%nat
  ∧ files (publish re_sub [] new_unversioned w).2 VERSIONS_FILE
    = Some (String (Py.chr 10) EmptyString)
  ∧ (collect net fuel w = (Returned ([], new_unversioned), w') →
     files (main net re_sub fuel w).2 VERSIONS_FILE
     = Some (String (Py.chr 10) EmptyString)).
Proof.
  split_and!; [done|done|apply publish_files|].
  intros Hc. rewrite main_unfold, Hc. apply publish_files.
Qed.

Lemma C10_empty_manifest_witness :
  files (main quiet_net (λ _ _, None) 1 fresh_world).2 VERSIONS_FILE
  = Some (String (Py.chr 10) EmptyString).
Proof.
  apply (proj2 (proj2 (proj2
    (C10_empty_manifest quiet_net (λ _ _, None) (list_to_set EXTRA_REPOS) 1
       fresh_world (collect quiet_net 1 fresh_world).2)))).
  vm_compute. reflexivity.
Defined.

(** ** The two loops of [main] *)

Section loops.
Context (net : transport) (fuel : nat) (unversioned : gset string).

Lemma fetch_tags_loop_trace org repo_name :
  ∀ n tags page w o w',
    fetch_tags_loop net n org repo_name tags page w = (o, w') →
    ∃ new, w' = logged new w
      ∧ Forall (λ rq, ∃ p, rq = TagsRequest org repo_name per_page p) new.
Proof.
  induction n as [|n IH]; intros tags page w o w'.
  { intros [= <- <-]. exists []. by rewrite logged_nil. }
  rewrite fetch_tags_loop_S. cbv zeta.
  assert (Forall (λ rq, ∃ p, rq = TagsRequest org repo_name per_page p)
            [TagsRequest org repo_name per_page page]) as Hone.
  { repeat constructor. by eexists. }
  destruct (tags_reply net org repo_name per_page page) as [[l|m]|];
    [|intros [= <- <-]; eauto..].
  destruct (_ <? _); [intros [= <- <-]; eauto|].
  intros (new & -> & Hnew)%IH. rewrite logged_logged.
  eexists. split; [done|]. by apply Forall_app.
Qed.

Lemma fetch_repos_loop_trace org :
  ∀ n repos page w o w',
    fetch_repos_loop net n org repos page w = (o, w') →
    ∃ new, w' = logged new w
      ∧ Forall (λ rq, ∃ p, rq = ReposRequest org per_page p) new.
Proof.
  induction n as [|n IH]; intros repos page w o w'.
  { intros [= <- <-]. exists []. by rewrite logged_nil. }
  rewrite fetch_repos_loop_S. cbv zeta.
  assert (Forall (λ rq, ∃ p, rq = ReposRequest org per_page p)
            [ReposRequest org per_page page]) as Hone.
  { repeat constructor. by eexists. }
  destruct (repos_reply net org per_page page) as [l|];
    [|intros [= <- <-]; eauto..].
  destruct (_ <? _); [intros [= <- <-]; eauto|].
  intros (new & -> & Hnew)%IH. rewrite logged_logged.
  eexists. split; [done|]. by apply Forall_app.
Qed.

Lemma get_latest_nonempty tags r :
  get_latest_version_tag tags = Some r → nonempty r = true.
Proof.
  intros [_ H]%get_latest_Some_inv. destruct r; [|done].
  by destruct H as [[? ?]|[[? ?]|[? ?]]].
Qed.

Lemma process_org_repo_target acc r :
  process_org_repo net fuel unversioned acc r
  = process_target net fuel unversioned org_target acc r.
Proof. reflexivity. Qed.

Lemma process_extra_repo_target acc full_repo :
  process_extra_repo net fuel unversioned acc full_repo
  = process_target net fuel unversioned extra_target acc full_repo.
Proof.
  unfold process_extra_repo, process_target, extra_target.
  by destruct (split_once "/" full_repo) as [[org rn]|].
Qed.

Lemma for_each_ext {A B} (body body' : B → A → M B) l :
  (∀ acc x, body acc x = body' acc x) →
  ∀ acc w, for_each body acc l w = for_each body' acc l w.
Proof.
  intros Hext. induction l as [|x l IH]; intros acc w; [done|].
  simpl. unfold bind. rewrite Hext.
  by destruct (body' acc x w) as [[acc'| |] w'].
Qed.

Lemma process_repo_run (t : target) versions new_unversioned w o w' :
  process_repo net fuel unversioned (t_org t) (t_repo t) (t_key t) (t_path t)
    (versions, new_unversioned) w = (o, w') →
  (t_key t ∈ unversioned
   ∧ o = Returned (versions, new_unversioned ∪ {[t_key t]}) ∧ w' = w)
  ∨ ((t_key t ∉ unversioned)
     ∧ (∃ new, w' = logged new w
          ∧ Forall (λ rq, ∃ p, rq = TagsRequest (t_org t) (t_repo t)
                                      per_page p) new)
     ∧ ∀ acc', o = Returned acc' →
         (∃ latest_tag,
            acc' = (versions ++ [(t_path t, latest_tag)], new_unversioned))
         ∨ (acc' = (versions, new_unversioned ∪ {[t_key t]})
            ∧ found_unversioned net fuel t)).
Proof.
  unfold process_repo.
  destruct (decide (t_key t ∈ unversioned)) as [Hin|Hnin].
  { intros [= <- <-]. by left. }
  intros Hrun. right. split; [done|]. unfold bind in Hrun.
  destruct (fetch_tags net fuel (t_org t) (t_repo t) w)
    as [ot w1] eqn:Hfetch.
  pose proof (fetch_tags_loop_trace _ _ _ _ _ _ _ _ Hfetch) as Htrace.
  destruct ot as [tags| |]; [|by injection Hrun as <- <-..].
  destruct (get_latest_version_tag tags) as [latest_tag|] eqn:Hsel.
  - rewrite (get_latest_nonempty _ _ Hsel) in Hrun.
    injection Hrun as <- <-. split; [done|].
    intros acc' [= <-]. left. by eexists.
  - injection Hrun as <- <-. split; [done|].
    intros acc' [= <-]. right. split; [done|]. by exists w, tags, w1.
Qed.

(** What one [for] loop of [main] does to the accumulators and to the
    list of requests. *)
Lemma loop_spec {A : Type} (tgt : A → option target) (l : list A) :
  ∀ acc w acc' w',
    for_each (process_target net fuel unversioned tgt) acc l w
    = (Returned acc', w') →
    (∃ new, w' = logged new w
       ∧ Forall (λ rq, ∃ x t p, x ∈ l ∧ tgt x = Some t
                   ∧ (t_key t ∉ unversioned)
                   ∧ rq = TagsRequest (t_org t) (t_repo t) per_page p) new)
    ∧ (∀ id, id ∈ acc.2 → id ∈ acc'.2)
    ∧ (∀ x t, x ∈ l → tgt x = Some t → t_key t ∈ unversioned →
         t_key t ∈ acc'.2)
    ∧ (∀ id, id ∈ acc'.2 →
         id ∈ acc.2
         ∨ ∃ x t, x ∈ l ∧ tgt x = Some t ∧ t_key t = id
             ∧ (id ∈ unversioned ∨ found_unversioned net fuel t)).
Proof.
  induction l as [|x l IH]; intros acc w acc' w'.
  { intros [= <- <-]. split_and!.
    - exists []. by rewrite logged_nil.
    - done.
    - intros ? ? Hx. inversion Hx.
    - auto. }
  simpl. unfold bind.
  destruct (process_target net fuel unversioned tgt acc x w)
    as [[acc1| |] w1] eqn:Hstep; [|done..].
  intros (Hreq & Hmono & Hcached & Horigin)%IH.
  unfold process_target in Hstep. destruct (tgt x) as [t|] eqn:Ht; [|done].
  destruct acc as [versions new_unversioned].
  apply process_repo_run in Hstep
    as [(Hin & [= ->] & ->)|(Hnin & (new1 & -> & Hnew1) & Hacc)].
  - split_and!.
    + destruct Hreq as (new & -> & Hnew). exists new. split; [done|].
      eapply Forall_impl; [exact Hnew|].
      intros rq (y & u & p & ? & ? & ? & ?). exists y, u, p.
      split_and!; [by right|done..].
    + intros id Hid. apply Hmono. simpl. apply elem_of_union. by left.
    + intros y u [->|Hy]%elem_of_cons Hu Hkey; [|by eapply Hcached].
      rewrite Ht in Hu. injection Hu as <-. apply Hmono. simpl.
      apply elem_of_union. right. by apply elem_of_singleton.
    + intros id [Hid|(y & u & Hy & Hu & Hk & Hwhy)]%Horigin.
      * simpl in Hid. apply elem_of_union in Hid as [Hid|Hid]; [by left|].
        apply elem_of_singleton in Hid as ->. right.
        exists x, t. split_and!; [left|done|done|by left].
      * right. exists y, u. split_and!; [by right|done..].
  - specialize (Hacc acc1 eq_refl). split_and!.
    + destruct Hreq as (new & -> & Hnew). exists (new1 ++ new).
      rewrite logged_logged. split; [done|]. apply Forall_app. split.
      * eapply Forall_impl; [exact Hnew1|]. intros rq [p ->].
        exists x, t, p. split_and!; [left|done..].
      * eapply Forall_impl; [exact Hnew|].
        intros rq (y & u & p & ? & ? & ? & ?). exists y, u, p.
        split_and!; [by right|done..].
    + intros id Hid. apply Hmono.
      destruct Hacc as [[tag ->]|[-> _]]; simpl in *; [done|].
      apply elem_of_union. by left.
    + intros y u [->|Hy]%elem_of_cons Hu Hkey; [|by eapply Hcached].
      rewrite Ht in Hu. by injection Hu as <-.
    + intros id [Hid|(y & u & Hy & Hu & Hk & Hwhy)]%Horigin.
      * destruct Hacc as [[tag ->]|[-> Hfound]]; simpl in Hid; [by left|].
        apply elem_of_union in Hid as [Hid|Hid]; [by left|].
        apply elem_of_singleton in Hid as ->. right.
        exists x, t. split_and!; [left|done|done|by right].
      * right. exists y, u. split_and!; [by right|done..].
Qed.

End loops.

(** ** [main], end to end *)

Lemma load_unversioned_run w : load_unversioned w = (Returned (cached w), w).
Proof.
  unfold load_unversioned, cached, bind, read_text. simpl.
  by destruct (files w UNVERSIONED_FILE).
Qed.

Lemma collect_run net fuel w acc w' :
  collect net fuel w = (Returned acc, w') →
  ∃ repos w1 acc1 w2,
    fetch_repos net fuel ORG_NAME w = (Returned repos, w1)
    ∧ for_each (process_target net fuel (cached w) org_target)
        ([], ∅) repos w1 = (Returned acc1, w2)
    ∧ for_each (process_target net fuel (cached w) extra_target)
        acc1 EXTRA_REPOS w2 = (Returned acc, w').
Proof.
  unfold collect. unfold bind at 1. rewrite load_unversioned_run.
  unfold bind at 1.
  destruct (fetch_repos net fuel ORG_NAME w) as [[repos| |] w1]; [|done..].
  unfold bind at 1.
  rewrite (for_each_ext _ _ _ (process_org_repo_target net fuel (cached w))).
  destruct (for_each _ _ repos w1) as [[acc1| |] w2] eqn:Hloop1; [|done..].
  rewrite (for_each_ext _ _ _ (process_extra_repo_target net fuel (cached w))).
  intros Hloop2. by exists repos, w1, acc1, w2.
Qed.

Lemma split_once_join sep s a b :
  split_once sep s = Some (a, b) → s = a +:+ String sep b.
Proof.
  revert a. induction s as [|c s IH]; intros a; simpl; [done|].
  destruct (Ascii.eqb_spec c sep) as [->|_].
  - by intros [= <- <-].
  - destruct (split_once sep s) as [[l r]|]; [|done].
    intros [= <- <-]. rewrite append_cons. f_equal. by apply IH.
Qed.

(** No entry of [EXTRA_REPOS] lives in the organization itself. *)
Lemma extra_target_org full_repo t :
  full_repo ∈ EXTRA_REPOS → extra_target full_repo = Some t →
  t_org t ≠ ORG_NAME ∧ t_key t = full_repo.
Proof.
  intros Hin.
  repeat (apply elem_of_cons in Hin as [->|Hin];
          [vm_compute; by intros [= <-]|]).
  inversion Hin.
Qed.

Lemma extra_target_inv full_repo t :
  extra_target full_repo = Some t →
  split_once "/" full_repo = Some (t_org t, t_repo t)
  ∧ t_key t = full_repo ∧ t_path t = full_repo.
Proof.
  unfold extra_target.
  destruct (split_once "/" full_repo) as [[org rn]|]; [|done].
  by intros [= <-].
Qed.

Lemma elem_of_logged rq new w :
  rq ∈ requests (logged new w) ↔ rq ∈ requests w ∨ rq ∈ new.
Proof. unfold logged. simpl. apply elem_of_app. Qed.

(** What a run that reaches the end of the second loop has done. *)
Lemma collect_spec net fuel w versions new_unversioned w' :
  collect net fuel w = (Returned (versions, new_unversioned), w') →
  ∃ repos,
    (fetch_repos net fuel ORG_NAME w).1 = Returned repos
    ∧ (∀ r, r ∈ repos → repo_name r ∈ cached w →
         repo_name r ∈ new_unversioned
         ∧ ∀ pp p, TagsRequest ORG_NAME (repo_name r) pp p ∈ requests w' →
                   TagsRequest ORG_NAME (repo_name r) pp p ∈ requests w)
    ∧ (∀ full_repo org rn,
         full_repo ∈ EXTRA_REPOS → full_repo ∈ cached w →
         split_once "/" full_repo = Some (org, rn) →
         full_repo ∈ new_unversioned
         ∧ ∀ pp p, TagsRequest org rn pp p ∈ requests w' →
                   TagsRequest org rn pp p ∈ requests w)
    ∧ (∀ id, id ∈ new_unversioned →
         (∃ r, r ∈ repos ∧ repo_name r = id
            ∧ (id ∈ cached w
               ∨ ∃ w0 tags w1,
                   fetch_tags net fuel ORG_NAME id w0 = (Returned tags, w1)
                   ∧ get_latest_version_tag tags = None))
         ∨ (id ∈ EXTRA_REPOS
            ∧ (id ∈ cached w
               ∨ ∃ org rn w0 tags w1,
                   split_once "/" id = Some (org, rn)
                   ∧ fetch_tags net fuel org rn w0 = (Returned tags, w1)
                   ∧ get_latest_version_tag tags = None))).
Proof.
  intros (repos & w1 & acc1 & w2 & Hrepos & Hloop1 & Hloop2)%collect_run.
  apply loop_spec in Hloop1
    as ((new1 & -> & Hnew1) & _ & Hcached1 & Horigin1).
  apply loop_spec in Hloop2
    as ((new2 & -> & Hnew2) & Hmono2 & Hcached2 & Horigin2).
  apply fetch_repos_loop_trace in Hrepos as Htrace0.
  destruct Htrace0 as (new0 & -> & Hnew0).
  rewrite Forall_forall in Hnew0. rewrite Forall_forall in Hnew1.
  rewrite Forall_forall in Hnew2.
  exists repos. split; [by rewrite Hrepos|]. simpl in *. split_and!.
  - intros r Hr Hin. split.
    { apply Hmono2. by apply (Hcached1 r _ Hr eq_refl). }
    intros pp p. rewrite !elem_of_app.
    intros [[[?|H0]|H1]|H2]; [done|exfalso..].
    + by destruct (Hnew0 _ H0) as [? ?].
    + destruct (Hnew1 _ H1) as (x & t & q & _ & [= <-] & Hk & [= Heq _ _]).
      simpl in *. by rewrite <-Heq in Hk.
    + destruct (Hnew2 _ H2) as (x & t & q & Hx & Ht & _ & [= Heq _ _ _]).
      by destruct (extra_target_org x t Hx Ht) as [Horg _].
  - intros full_repo org rn Hfull Hin Hsplit.
    assert (extra_target full_repo
            = Some (Target org rn full_repo full_repo)) as Ht.
    { unfold extra_target. by rewrite Hsplit. }
    split.
    { by apply (Hcached2 full_repo _ Hfull Ht). }
    intros pp p. rewrite !elem_of_app.
    intros [[[?|H0]|H1]|H2]; [done|exfalso..].
    + by destruct (Hnew0 _ H0) as [? ?].
    + destruct (Hnew1 _ H1) as (x & t & q & _ & [= <-] & _ & [= Heq _ _ _]).
      simpl in *.
      by destruct (extra_target_org full_repo _ Hfull Ht) as [Horg _].
    + destruct (Hnew2 _ H2) as (x & t & q & Hx & Hu & Hk & [= Ho Hr _ _]).
      apply extra_target_inv in Hu as (Hs & Hkey & _).
      apply split_once_join in Hs. apply split_once_join in Hsplit.
      rewrite Hkey in Hk. apply Hk.
      by rewrite Hs, <-Ho, <-Hr, <-Hsplit.
  - intros id [Hid|(x & t & Hx & Ht & Hk & Hwhy)]%Horigin2.
    + left. apply Horigin1 in Hid
        as [Hid|(r & t & Hr & [= <-] & Hk & Hwhy)]; [by set_unfold|].
      simpl in *. subst id. exists r. split_and!; [done..|].
      destruct Hwhy as [?|(w0 & tags & w3 & ? & ?)]; [by left|right].
      by exists w0, tags, w3.
    + right. apply extra_target_inv in Ht as (Hs & Hkey & _).
      subst x. subst id. split; [done|].
      destruct Hwhy as [?|(w0 & tags & w3 & ? & ?)]; [by left|right].
      by exists (t_org t), (t_repo t), w0, tags, w3.
Qed.

(** C8. In a run of [main] that completes, every repository of the
    organization whose bare name is in the loaded cache, and every
    entry of [EXTRA_REPOS] whose full path is in it, is put into the
    new unversioned set under that same identifier without any tags
    request being made for it; the set written back holds nothing
    else than the identifiers of repositories processed in this run
    that were in the cache or whose fetched tags gave no selection. *)
Theorem C8_unversioned_cache (net : transport)
    (re_sub : string → string → option string) (fuel : nat)
    (w wf : world) :
  main net re_sub fuel w = (Returned tt, wf) →
  ∃ repos new_unversioned,
    (fetch_repos net fuel ORG_NAME w).1 = Returned repos
    ∧ files wf UNVERSIONED_FILE = Some (unversioned_text new_unversioned)
    ∧ (∀ r, r ∈ repos → repo_name r ∈ cached w →
         repo_name r ∈ new_unversioned
         ∧ ∀ pp p, TagsRequest ORG_NAME (repo_name r) pp p ∈ requests wf →
                   TagsRequest ORG_NAME (repo_name r) pp p ∈ requests w)
    ∧ (∀ full_repo org rn,
         full_repo ∈ EXTRA_REPOS → full_repo ∈ cached w →
         split_once "/" full_repo = Some (org, rn) →
         full_repo ∈ new_unversioned
         ∧ ∀ pp p, TagsRequest org rn pp p ∈ requests wf →
                   TagsRequest org rn pp p ∈ requests w)
    ∧ (∀ id, id ∈ new_unversioned →
         (∃ r, r ∈ repos ∧ repo_name r = id
            ∧ (id ∈ cached w
               ∨ ∃ w0 tags w1,
                   fetch_tags net fuel ORG_NAME id w0 = (Returned tags, w1)
                   ∧ get_latest_version_tag tags = None))
         ∨ (id ∈ EXTRA_REPOS
            ∧ (id ∈ cached w
               ∨ ∃ org rn w0 tags w1,
                   split_once "/" id = Some (org, rn)
                   ∧ fetch_tags net fuel org rn w0 = (Returned tags, w1)
                   ∧ get_latest_version_tag tags = None))).
Proof.
  rewrite main_unfold.
  destruct (collect net fuel w) as [[[versions new_unversioned]| |] w']
    eqn:Hcollect; [|done..].
  intros (Hrq & _ & Hfile)%publish_run.
  destruct (collect_spec _ _ _ _ _ _ Hcollect)
    as (repos & Hrepos & Horg & Hextra & Horigin).
  exists repos, new_unversioned. rewrite Hrq.
  split_and!; [done|by apply Hfile|done..].
Qed.

Lemma C8_unversioned_cache_witness :
  ∃ repos new_unversioned,
    (fetch_repos cache_net 2 ORG_NAME cache_world).1 = Returned repos
    ∧ files cache_final UNVERSIONED_FILE
      = Some (unversioned_text new_unversioned)
    ∧ (∀ r, r ∈ repos → repo_name r ∈ cached cache_world →
         repo_name r ∈ new_unversioned
         ∧ ∀ pp p,
             TagsRequest ORG_NAME (repo_name r) pp p ∈ requests cache_final →
             TagsRequest ORG_NAME (repo_name r) pp p ∈ requests cache_world)
    ∧ (∀ full_repo org rn,
         full_repo ∈ EXTRA_REPOS → full_repo ∈ cached cache_world →
         split_once "/" full_repo = Some (org, rn) →
         full_repo ∈ new_unversioned
         ∧ ∀ pp p, TagsRequest org rn pp p ∈ requests cache_final →
                   TagsRequest org rn pp p ∈ requests cache_world)
    ∧ (∀ id, id ∈ new_unversioned →
         (∃ r, r ∈ repos ∧ repo_name r = id
            ∧ (id ∈ cached cache_world
               ∨ ∃ w0 tags w1,
                   fetch_tags cache_net 2 ORG_NAME id w0 = (Returned tags, w1)
                   ∧ get_latest_version_tag tags = None))
         ∨ (id ∈ EXTRA_REPOS
            ∧ (id ∈ cached cache_world
               ∨ ∃ org rn w0 tags w1,
                   split_once "/" id = Some (org, rn)
                   ∧ fetch_tags cache_net 2 org rn w0 = (Returned tags, w1)
                   ∧ get_latest_version_tag tags = None))).
Proof.
  apply (C8_unversioned_cache cache_net (λ _ _, None) 2 cache_world
           cache_final).
  vm_compute. reflexivity.
Defined.

(** * Further properties of the script *)

(** ** The cache file: what is written is what is read back *)

Lemma rstrip_id s :
  (∀ c, last_char s = Some c → Py.isspace c = false) → Py.rstrip s = s.
Proof.
  induction s as [|c s IH]; [done|]. intros Hlast. simpl.
  destruct s as [|d s].
  - simpl. by rewrite (Hlast c eq_refl).
  - rewrite IH; [done|]. intros e He. by apply Hlast.
Qed.

Lemma lstrip_id s :
  (∀ c, first_char s = Some c → Py.isspace c = false) → Py.lstrip s = s.
Proof.
  destruct s as [|c s]; [done|]. intros Hfirst. simpl.
  by rewrite (Hfirst c eq_refl).
Qed.

Lemma strip_id s :
  (∀ c, first_char s = Some c → Py.isspace c = false) →
  (∀ c, last_char s = Some c → Py.isspace c = false) →
  Py.strip s = s.
Proof.
  intros Hf Hl. unfold Py.strip. by rewrite (lstrip_id s Hf), (rstrip_id s Hl).
Qed.

Lemma strip_idemp s : Py.strip (Py.strip s) = Py.strip s.
Proof. destruct (strip_spec s) as (_ & Hf & Hl). by apply strip_id. Qed.

Lemma no_linebreak_lstrip s :
  no_linebreak s = true → no_linebreak (Py.lstrip s) = true.
Proof.
  induction s as [|c s IH]; [done|]. simpl.
  intros [Hc Hs]%andb_true_iff.
  destruct (Py.isspace c); [by apply IH|]. simpl. by rewrite Hc, Hs.
Qed.

Lemma no_linebreak_rstrip s :
  no_linebreak s = true → no_linebreak (Py.rstrip s) = true.
Proof.
  induction s as [|c s IH]; [done|]. simpl.
  intros [Hc Hs]%andb_true_iff. specialize (IH Hs).
  destruct (Py.rstrip s) as [|d r].
  - destruct (Py.isspace c); [done|]. simpl. by rewrite Hc.
  - simpl in *. by rewrite Hc, IH.
Qed.

Lemma no_linebreak_strip s :
  no_linebreak s = true → no_linebreak (Py.strip s) = true.
Proof. intros Hs. by apply no_linebreak_rstrip, no_linebreak_lstrip. Qed.

Lemma no_linebreak_snoc s c :
  no_linebreak s = true → is_linebreak c = false →
  no_linebreak (s +:+ String c EmptyString) = true.
Proof.
  intros Hs Hc. induction s as [|d s IH].
  - simpl. by rewrite Hc.
  - rewrite append_cons. simpl in *.
    apply andb_true_iff in Hs as [-> Hs]. by apply IH.
Qed.

Lemma splitlines_from_break line c text :
  is_linebreak c = true →
  splitlines_from line (String c text)
  = line :: splitlines_from EmptyString (after_break c text).
Proof.
  intros Hc. simpl. rewrite Hc. f_equal. destruct text as [|c' text]; [done|].
  simpl. by destruct (Ascii.eqb c Py.CR && Ascii.eqb c' Py.LF).
Qed.

Lemma splitlines_from_char line c text :
  is_linebreak c = false →
  splitlines_from line (String c text)
  = splitlines_from (line +:+ String c EmptyString) text.
Proof. intros Hc. simpl. by rewrite Hc. Qed.

Lemma after_break_length c text :
  (String.length (after_break c text) ≤ String.length text)%nat.
Proof.
  destruct text as [|c' text]; simpl; [lia|].
  destruct (_ && _); simpl; lia.
Qed.

(** No line of [splitlines] holds a line boundary. *)
Lemma splitlines_from_no_linebreak (n : nat) :
  ∀ text line, (String.length text ≤ n)%nat → no_linebreak line = true →
    Forall (λ l, no_linebreak l = true) (splitlines_from line text).
Proof.
  induction n as [|n IH]; intros [|c text] line Hlen Hline;
    try (simpl in Hlen; lia).
  - simpl. destruct (nonempty line); by repeat constructor.
  - simpl. destruct (nonempty line); by repeat constructor.
  - destruct (is_linebreak c) eqn:Hc.
    + rewrite splitlines_from_break by done. constructor; [done|].
      apply IH; [|done]. pose proof (after_break_length c text).
      simpl in Hlen. lia.
    + rewrite splitlines_from_char by done. apply IH.
      * simpl in Hlen. lia.
      * by apply no_linebreak_snoc.
Qed.

(** A text of clean lines splits back into them. *)
Lemma splitlines_from_line line s rest :
  no_linebreak s = true →
  splitlines_from line (s +:+ String Py.LF rest)
  = (line +:+ s) :: splitlines_from EmptyString rest.
Proof.
  revert line. induction s as [|c s IH]; intros line Hs.
  - rewrite append_nil_l, append_nil_r, splitlines_from_break by done.
    f_equal. by destruct rest.
  - simpl in Hs. apply andb_true_iff in Hs as [Hc%negb_true_iff Hs].
    rewrite append_cons, splitlines_from_char, IH by done.
    by rewrite append_assoc.
Qed.

Lemma splitlines_lines_text lines :
  Forall (λ l, no_linebreak l = true) lines →
  splitlines (lines_text lines) = lines.
Proof.
  unfold splitlines. induction 1 as [|l lines Hl _ IH]; [done|].
  simpl. change (l +:+ nl +:+ lines_text lines)
    with (l +:+ String Py.LF (lines_text lines)).
  by rewrite splitlines_from_line, IH.
Qed.

Lemma elem_of_parse_unversioned text x :
  x ∈ parse_unversioned text ↔
  ∃ line, line ∈ splitlines text ∧ x = Py.strip line ∧ nonempty x = true.
Proof.
  unfold parse_unversioned. rewrite elem_of_list_to_set, list_elem_of_omap.
  split; intros (line & Hline & H); exists line.
  - destruct (nonempty (Py.strip line)) eqn:Hne; [|done].
    injection H as <-. done.
  - destruct H as [-> Hne]. by rewrite Hne.
Qed.

Lemma parse_unversioned_clean text x :
  x ∈ parse_unversioned text → clean_identifier x.
Proof.
  intros (line & Hline & -> & Hne)%elem_of_parse_unversioned.
  split_and!; [done|apply strip_idemp|]. apply no_linebreak_strip.
  pose proof (splitlines_from_no_linebreak (String.length text) text
                EmptyString (le_n _) eq_refl) as Hall.
  rewrite Forall_forall in Hall. by apply Hall.
Qed.

Lemma all_space_strip line : all_space line = true → Py.strip line = EmptyString.
Proof.
  intros Hblank. destruct (strip_spec line) as (_ & Hf & _).
  destruct (Py.strip line) as [|c s] eqn:Hs; [done|].
  assert (Py.isspace c = true) as Hc; [|by rewrite (Hf c eq_refl) in Hc].
  clear -Hblank Hs. unfold Py.strip in Hs.
  apply rstrip_first in Hs as [s' Hs].
  revert Hs. induction line as [|d line IH]; [done|]. simpl in *.
  apply andb_true_iff in Hblank as [Hd Hl]. rewrite Hd. by apply IH.
Qed.

Lemma parse_unversioned_lines (lines : list string) :
  Forall clean_identifier lines →
  parse_unversioned (lines_text lines) = list_to_set lines.
Proof.
  intros Hclean. unfold parse_unversioned. rewrite splitlines_lines_text.
  2:{ eapply Forall_impl; [exact Hclean|]. by intros x (_ & _ & ?). }
  f_equal. induction Hclean as [|x l (Hne & Hs & _) _ IH]; [done|].
  csimpl. by rewrite Hs, Hne, IH.
Qed.

Lemma list_to_set_sorted_set (repos : gset string) :
  list_to_set (sorted_set repos) = repos.
Proof.
  apply set_eq. intros x. by rewrite elem_of_list_to_set, sorted_set_elem_of.
Qed.

Lemma unversioned_round_trip (repos : gset string) :
  (∀ x, x ∈ repos → clean_identifier x) →
  parse_unversioned (unversioned_text repos) = repos.
Proof.
  intros Hclean. unfold unversioned_text.
  change (foldr _ EmptyString (sorted_set repos))
    with (lines_text (sorted_set repos)).
  rewrite parse_unversioned_lines; [apply list_to_set_sorted_set|].
  apply Forall_forall. intros x Hx. by apply Hclean, sorted_set_elem_of.
Qed.

(** X1. Whatever the cache file holds, the identifiers
    [load_unversioned] makes of it are not empty, carry no whitespace
    at their ends and no line boundary inside; a file of blank lines,
    or no file, gives the empty set. *)
Theorem X1_loaded_identifiers_clean (text : string) (x : string) (w : world) :
  (x ∈ parse_unversioned text → clean_identifier x)
  ∧ (x ∈ cached w → clean_identifier x)
  ∧ (files w UNVERSIONED_FILE = None →
     load_unversioned w = (Returned ∅, w))
  ∧ ((∀ line, line ∈ splitlines text → all_space line = true) →
     parse_unversioned text = ∅).
Proof.
  split_and!.
  - apply parse_unversioned_clean.
  - unfold cached.
    destruct (files w UNVERSIONED_FILE); [apply parse_unversioned_clean|].
    by intros ?%not_elem_of_empty.
  - intros Hnone. rewrite load_unversioned_run. unfold cached.
    by rewrite Hnone.
  - intros Hblank. apply set_eq. intros y.
    split; [|by intros ?%not_elem_of_empty].
    intros (line & Hline & -> & Hne)%elem_of_parse_unversioned.
    by rewrite (all_space_strip line (Hblank line Hline)) in Hne.
Qed.

Lemma X1_loaded_identifiers_clean_witness :
  clean_identifier "repo1"
  ∧ load_unversioned fresh_world = (Returned ∅, fresh_world)
  ∧ parse_unversioned (nl +:+ "   " +:+ nl) = ∅.
Proof.
  destruct (X1_loaded_identifiers_clean sample_cache_text "repo1" fresh_world)
    as (Hclean & _ & Hmissing & _).
  destruct (X1_loaded_identifiers_clean (nl +:+ "   " +:+ nl) "repo1"
              fresh_world) as (_ & _ & _ & Hblank).
  split_and!.
  - apply Hclean. apply elem_of_parse_unversioned. exists "  repo1 ".
    split_and!; [|reflexivity..].
    assert (splitlines sample_cache_text
            = ["  repo1 "; EmptyString; "docker/build-push-action"]) as ->
      by reflexivity.
    left.
  - apply Hmissing. reflexivity.
  - apply Hblank. intros line.
    assert (splitlines (nl +:+ "   " +:+ nl) = [EmptyString; "   "]) as ->
      by reflexivity.
    intros Hline.
    repeat (apply elem_of_cons in Hline as [->|Hline]; [reflexivity|]).
    inversion Hline.
Defined.

(** X2. Saving a set of clean identifiers and loading the file again
    gives the same set; and since loaded identifiers are clean, a set
    that was loaded survives any number of save and load rounds. *)
Theorem X2_cache_round_trip (repos : gset string) (text : string) (w : world) :
  ((∀ x, x ∈ repos → clean_identifier x) →
     parse_unversioned (unversioned_text repos) = repos
     ∧ load_unversioned (save_unversioned repos w).2
       = (Returned repos, (save_unversioned repos w).2))
  ∧ parse_unversioned (unversioned_text (parse_unversioned text))
    = parse_unversioned text.
Proof.
  split.
  - intros Hclean. split; [by apply unversioned_round_trip|].
    rewrite load_unversioned_run. f_equal. f_equal. unfold cached. simpl.
    by apply unversioned_round_trip.
  - apply unversioned_round_trip. intros x. apply parse_unversioned_clean.
Qed.

Lemma X2_cache_round_trip_witness :
  parse_unversioned (unversioned_text ({["zebra"]} ∪ {["alpha/beta"]}))
  = {["zebra"]} ∪ {["alpha/beta"]}.
Proof.
  apply (X2_cache_round_trip ({["zebra"]} ∪ {["alpha/beta"]}) EmptyString
           fresh_world).
  intros x [->%elem_of_singleton| ->%elem_of_singleton]%elem_of_union;
    by split_and!.
Defined.

(** ** More about the selector *)

(** X3. The bare-integer convention ranks like the [vN] one: when no
    tag matches [^v(\d+)$], some tag matches [^(\d+)$] and [int]
    converts the bare integers of the list, the call returns a bare
    integer tag of the list whose integer is at least that of every
    other bare integer tag. *)
Theorem X3_integer_ranking (tags : list string) :
  (∀ t, t ∈ tags → vinteger_pattern (Py.strip t) = None) →
  (∀ t g, t ∈ tags → integer_pattern (Py.strip t) = Some g →
     convertible g) →
  (∃ t, t ∈ tags ∧ is_Some (integer_pattern (Py.strip t))) →
  ∃ r n, get_latest_version_tag_call tags = Returned (Some r)
    ∧ r ∈ Py.strip <$> tags
    ∧ integer_of r = Some n
    ∧ ∀ u k, u ∈ tags → integer_of (Py.strip u) = Some k → k ≤ n.
Proof.
  intros Hv Hok (t & Ht & Hm).
  assert (get_latest_version_tag_call tags
          = Returned (get_latest_version_tag tags)) as Hcall
    by (apply call_integer; eauto).
  apply vinteger_tags_nil in Hv.
  destruct (select_integer tags Hv) as (u & n & Hu & Hs & Hn & Hmax).
  { by eapply integer_tags_ne. }
  exists (Py.strip u), n.
  split_and!; [by rewrite Hcall, Hs|by apply list_elem_of_fmap_2|done..].
Qed.

Lemma X3_integer_ranking_witness :
  ∃ r n, get_latest_version_tag_call ["9"; "10"; "2"; "12.5"; "010"]
         = Returned (Some r)
    ∧ r ∈ Py.strip <$> ["9"; "10"; "2"; "12.5"; "010"]
    ∧ integer_of r = Some n
    ∧ ∀ u k, u ∈ ["9"; "10"; "2"; "12.5"; "010"] →
        integer_of (Py.strip u) = Some k → k ≤ n.
Proof.
  apply (X3_integer_ranking ["9"; "10"; "2"; "12.5"; "010"]).
  - intros t Ht. repeat (apply elem_of_cons in Ht as [->|Ht]; [reflexivity|]).
    inversion Ht.
  - intros t g Ht Hg.
    repeat (apply elem_of_cons in Ht as [->|Ht];
            [vm_compute in Hg; simplify_eq; by vm_compute|]).
    inversion Ht.
  - exists "9". split; [left|by eexists].
Defined.

Lemma omap_filter {A B} (f : A → option B) (P : A → Prop)
    `{!∀ x, Decision (P x)} (l : list A) :
  (∀ x, is_Some (f x) → P x) → omap f (filter P l) = omap f l.
Proof.
  intros HP. induction l as [|x l IH]; [done|].
  rewrite filter_cons. destruct (decide (P x)) as [Hx|Hx]; csimpl.
  - by rewrite IH.
  - rewrite IH. destruct (f x) eqn:Hf; [|done].
    destruct Hx. apply HP. by eexists.
Qed.

Lemma classified_true t :
  classified t = true ↔
  is_Some (vinteger_pattern (Py.strip t))
  ∨ is_Some (integer_pattern (Py.strip t))
  ∨ is_Some (major_minor_pattern (Py.strip t)).
Proof.
  unfold classified. rewrite !orb_true_iff, !bool_decide_eq_true. tauto.
Qed.

(** X4. Tags that match none of the three patterns play no part:
    dropping them from the list, wherever they stand, leaves the
    selection as it is. *)
Theorem X4_unclassified_ignored (tags : list string) :
  get_latest_version_tag (filter (λ t, classified t = true) tags)
  = get_latest_version_tag tags.
Proof.
  unfold get_latest_version_tag, vinteger_tags, integer_tags,
    major_minor_tags.
  rewrite !omap_filter; [done|..]; intros t Hm%is_Some_fmap_inv;
    apply classified_true; auto.
Qed.

(** The selection does not depend on the order of the tags, up to the
    choice among tags of the same integers. *)
Lemma get_latest_perm (tags tags' : list string) :
  tags ≡ₚ tags' →
  (get_latest_version_tag tags = None ↔ get_latest_version_tag tags' = None)
  ∧ ∀ r r',
      get_latest_version_tag tags = Some r →
      get_latest_version_tag tags' = Some r' →
      vinteger_of r = vinteger_of r'
      ∧ integer_of r = integer_of r'
      ∧ major_minor_of r = major_minor_of r'.
Proof.
  intros Hperm.
  assert (∀ t, t ∈ tags ↔ t ∈ tags') as Hin by (intros t; by rewrite Hperm).
  split.
  { rewrite !get_latest_None_iff. split; intros H t Ht; by apply H, Hin. }
  assert (∀ r, is_Some (vinteger_pattern r) →
            integer_of r = None ∧ major_minor_of r = None) as Hv.
  { intros r [H1 H2]%vinteger_not_integer. unfold integer_of, major_minor_of.
    by rewrite H1, H2. }
  assert (∀ r, is_Some (integer_pattern r) →
            vinteger_of r = None ∧ major_minor_of r = None) as Hi.
  { intros r [H1 H2]%integer_not_major_minor. unfold vinteger_of, major_minor_of.
    by rewrite H1, H2. }
  assert (∀ r, is_Some (major_minor_pattern r) →
            vinteger_of r = None ∧ integer_of r = None) as Hm.
  { intros r [H1 H2]%major_minor_not_integer. unfold vinteger_of, integer_of.
    by rewrite H1, H2. }
  intros r r' Hr Hr'.
  destruct (decide (vinteger_tags tags = [])) as [Hv0|Hv0].
  2:{ assert (vinteger_tags tags' ≠ []) as Hv0'.
      { rewrite vinteger_tags_nil. rewrite vinteger_tags_nil in Hv0.
        intros H. apply Hv0. intros t Ht. by apply H, Hin. }
      destruct (select_vinteger _ Hv0) as (t & n & Ht & Hs & Hn & Hmax).
      destruct (select_vinteger _ Hv0') as (t' & n' & Ht' & Hs' & Hn' & Hmax').
      rewrite Hs in Hr. rewrite Hs' in Hr'.
      injection Hr as <-. injection Hr' as <-.
      assert (n = n') as <-.
      { apply N.le_antisymm;
          [exact (Hmax' t n (proj1 (Hin t) Ht) Hn)
          |exact (Hmax t' n' (proj2 (Hin t') Ht') Hn')]. }
      destruct (Hv (Py.strip t)) as [-> ->];
        [by eapply is_Some_fmap_inv; eexists|].
      destruct (Hv (Py.strip t')) as [-> ->];
        [by eapply is_Some_fmap_inv; eexists|].
      by rewrite Hn, Hn'. }
  assert (vinteger_tags tags' = []) as Hv0'.
  { rewrite vinteger_tags_nil. rewrite vinteger_tags_nil in Hv0.
    intros t Ht. by apply Hv0, Hin. }
  destruct (decide (integer_tags tags = [])) as [Hi0|Hi0].
  2:{ assert (integer_tags tags' ≠ []) as Hi0'.
      { rewrite integer_tags_nil. rewrite integer_tags_nil in Hi0.
        intros H. apply Hi0. intros t Ht. by apply H, Hin. }
      destruct (select_integer _ Hv0 Hi0) as (t & n & Ht & Hs & Hn & Hmax).
      destruct (select_integer _ Hv0' Hi0')
        as (t' & n' & Ht' & Hs' & Hn' & Hmax').
      rewrite Hs in Hr. rewrite Hs' in Hr'.
      injection Hr as <-. injection Hr' as <-.
      assert (n = n') as <-.
      { apply N.le_antisymm;
          [exact (Hmax' t n (proj1 (Hin t) Ht) Hn)
          |exact (Hmax t' n' (proj2 (Hin t') Ht') Hn')]. }
      destruct (Hi (Py.strip t)) as [-> ->];
        [by eapply is_Some_fmap_inv; eexists|].
      destruct (Hi (Py.strip t')) as [-> ->];
        [by eapply is_Some_fmap_inv; eexists|].
      by rewrite Hn, Hn'. }
  assert (integer_tags tags' = []) as Hi0'.
  { rewrite integer_tags_nil. rewrite integer_tags_nil in Hi0.
    intros t Ht. by apply Hi0, Hin. }
  destruct (decide (major_minor_tags tags = [])) as [Hm0|Hm0].
  { by rewrite (get_latest_none _ Hv0 Hi0 Hm0) in Hr. }
  assert (major_minor_tags tags' ≠ []) as Hm0'.
  { rewrite major_minor_tags_nil. rewrite major_minor_tags_nil in Hm0.
    intros H. apply Hm0. intros t Ht. by apply H, Hin. }
  destruct (select_major_minor _ Hv0 Hi0 Hm0)
    as (t & a & b & Ht & Hs & Hn & Hmax).
  destruct (select_major_minor _ Hv0' Hi0' Hm0')
    as (t' & a' & b' & Ht' & Hs' & Hn' & Hmax').
  rewrite Hs in Hr. rewrite Hs' in Hr'.
  injection Hr as <-. injection Hr' as <-.
  assert (a = a' ∧ b = b') as [<- <-].
  { pose proof (Hmax' t a b (proj1 (Hin t) Ht) Hn).
    pose proof (Hmax t' a' b' (proj2 (Hin t') Ht') Hn'). lia. }
  destruct (Hm (Py.strip t)) as [-> ->];
    [by eapply is_Some_fmap_inv; eexists|].
  destruct (Hm (Py.strip t')) as [-> ->];
    [by eapply is_Some_fmap_inv; eexists|].
  by rewrite Hn, Hn'.
Qed.

Lemma raising_perm (tags tags' : list string) :
  (∀ t, t ∈ tags ↔ t ∈ tags') → raising tags → raising tags'.
Proof.
  intros Hin [(t & g & Ht & Hg & Hn)|[[Hv (t & g & Ht & Hg & Hn)]
             |(Hv & Hi & t & a & b & Ht & Hg & Hn)]].
  - left. exists t, g. split_and!; [by apply Hin|done..].
  - right; left. split; [intros u Hu; by apply Hv, Hin|].
    exists t, g. split_and!; [by apply Hin|done..].
  - right; right. split_and!; [intros u Hu; by apply Hv, Hin
                              |intros u Hu; by apply Hi, Hin|].
    exists t, a, b. split_and!; [by apply Hin|done..].
Qed.

(** X5. The order of the tags changes neither whether a call raises,
    nor which convention wins, nor the version selected: of two lists
    with the same tags both calls raise, or both return nothing, or
    both return tags of the same convention carrying the same integers
    (the two strings can differ, as [v1] and [v01] do). *)
Theorem X5_order_irrelevant (tags tags' : list string) :
  tags ≡ₚ tags' →
  (get_latest_version_tag_call tags = Raised
   ↔ get_latest_version_tag_call tags' = Raised)
  ∧ (get_latest_version_tag_call tags = Returned None
     ↔ get_latest_version_tag_call tags' = Returned None)
  ∧ ∀ r r',
      get_latest_version_tag_call tags = Returned (Some r) →
      get_latest_version_tag_call tags' = Returned (Some r') →
      vinteger_of r = vinteger_of r'
      ∧ integer_of r = integer_of r'
      ∧ major_minor_of r = major_minor_of r'.
Proof.
  intros Hperm.
  assert (∀ t, t ∈ tags ↔ t ∈ tags') as Hin by (intros t; by rewrite Hperm).
  assert (raising tags ↔ raising tags') as Hraise.
  { split; apply raising_perm; [done|]. intros t. by rewrite Hin. }
  destruct (get_latest_perm tags tags' Hperm) as [Hnone Hsame].
  split_and!.
  - by rewrite !call_Raised_iff.
  - split; intros [Ho Hn]%call_Returned.
    + rewrite call_not_raising by by rewrite <-Hraise.
      f_equal. by apply Hnone.
    + rewrite call_not_raising by by rewrite Hraise.
      f_equal. by apply Hnone.
  - intros r r' [Hr _]%call_Returned [Hr' _]%call_Returned.
    by apply Hsame.
Qed.

Lemma X5_order_irrelevant_witness :
  get_latest_version_tag_call ["v1"; "v01"; "7"] = Returned (Some "v1")
  ∧ get_latest_version_tag_call ["7"; "v01"; "v1"] = Returned (Some "v01")
  ∧ vinteger_of "v1" = vinteger_of "v01".
Proof.
  split_and!; [reflexivity..|].
  assert (["v1"; "v01"; "7"] ≡ₚ ["7"; "v01"; "v1"]) as Hperm.
  { symmetry. apply (reverse_Permutation ["v1"; "v01"; "7"]). }
  apply (proj2 (proj2 (X5_order_irrelevant _ _ Hperm)) "v1" "v01");
    reflexivity.
Defined.

(** X17. A call of the selector never loops, and either raises or
    returns what the selection on the integers gives: it raises exactly
    when the first convention with a match has a digit group above the
    limit of [int], a group of a convention that is not reached being
    harmless, and whatever it returns is the result of
    [get_latest_version_tag]. *)
Theorem X17_call_outcome (tags : list string) :
  ((get_latest_version_tag_call tags = Raised ∧ raising tags)
   ∨ (get_latest_version_tag_call tags
        = Returned (get_latest_version_tag tags)
      ∧ ¬ raising tags))
  ∧ get_latest_version_tag_call ["v1"; long_group; long_major_minor_tag]
    = Returned (Some "v1")
  ∧ get_latest_version_tag_call ["7"; long_major_minor_tag]
    = Returned (Some "7")
  ∧ get_latest_version_tag_call ["beta"; long_group] = Raised.
Proof. split_and!; [apply call_cases|by vm_compute..]. Qed.

Lemma integer_pattern_strip t g :
  integer_pattern (Py.strip t) = Some g →
  Py.strip t = g ∧ nonempty g = true ∧ all_digits g = true.
Proof.
  intros (Hne & Hg & [->|Hnl])%digits_then_end_inv; [done|].
  by destruct (strip_not_newline_end t g).
Qed.

Lemma major_minor_pattern_strip t a b :
  major_minor_pattern (Py.strip t) = Some (a, b) →
  Py.strip t = a +:+ String "." b
  ∧ nonempty a = true ∧ all_digits a = true
  ∧ nonempty b = true ∧ all_digits b = true.
Proof.
  unfold major_minor_pattern.
  destruct (span_digits (Py.strip t)) as [ds rest] eqn:Hspan.
  apply span_digits_spec in Hspan as [Hs Hds].
  destruct rest as [|c rest]; [done|].
  destruct (nonempty ds) eqn:Hne; [|done]. simpl.
  destruct (Ascii.eqb_spec c ".") as [->|]; [|done].
  destruct (digits_then_end rest) as [ds'|] eqn:Hrest; [|done].
  intros [= <- <-].
  apply digits_then_end_inv in Hrest as (Hne' & Hds' & [->| ->]); [done|].
  destruct (strip_not_newline_end t (ds +:+ String "." ds')).
  by rewrite Hs, append_assoc, append_cons.
Qed.

Lemma tag_char_plain c :
  tag_char c = true →
  is_linebreak c = false ∧ Py.isspace c = false ∧ c ≠ "@"%char.
Proof.
  unfold tag_char. rewrite !orb_true_iff.
  intros [[Hd| ->%Ascii.eqb_eq]| ->%Ascii.eqb_eq]; [|done..].
  split_and!; [|by apply isdigit_not_space|by intros ->].
  unfold Py.isdigit, is_linebreak in *. apply andb_true_iff in Hd as [H1 H2].
  apply N.leb_le in H1. apply N.leb_le in H2.
  repeat (apply orb_false_iff; split);
    try apply andb_false_iff; rewrite ?N.leb_gt, ?N.eqb_neq; lia.
Qed.

Lemma all_digits_tag_chars g : all_digits g = true → all_tag_chars g = true.
Proof.
  induction g as [|c g IH]; [done|]. simpl.
  intros [Hc Hg]%andb_true_iff. unfold tag_char. by rewrite Hc, IH.
Qed.

Lemma all_tag_chars_app a b :
  all_tag_chars a = true → all_tag_chars b = true →
  all_tag_chars (a +:+ b) = true.
Proof.
  intros Ha Hb. induction a as [|c a IH]; [done|].
  rewrite append_cons. simpl in *. apply andb_true_iff in Ha as [-> Ha].
  by apply IH.
Qed.

Lemma all_tag_chars_no_linebreak r :
  all_tag_chars r = true → no_linebreak r = true.
Proof.
  induction r as [|c r IH]; [done|]. simpl.
  intros [Hc Hr]%andb_true_iff. apply tag_char_plain in Hc as (-> & _).
  by apply IH.
Qed.

(** The three shapes a selected tag can have. *)
Lemma get_latest_shape tags r :
  get_latest_version_tag tags = Some r →
  (∃ g, r = String "v" g ∧ nonempty g = true ∧ all_digits g = true)
  ∨ (nonempty r = true ∧ all_digits r = true)
  ∨ (∃ a b, r = a +:+ String "." b
       ∧ nonempty a = true ∧ all_digits a = true
       ∧ nonempty b = true ∧ all_digits b = true).
Proof.
  intros [(t & _ & ->) [[g Hg]|[[g Hg]|[[a b] Hab]]]]%get_latest_Some_inv.
  - left. exists g. by apply vinteger_pattern_strip.
  - right; left. by apply integer_pattern_strip in Hg as (-> & ? & ?).
  - right; right. exists a, b. by apply major_minor_pattern_strip.
Qed.

Lemma get_latest_tag_chars tags r :
  get_latest_version_tag tags = Some r → all_tag_chars r = true.
Proof.
  intros [(g & -> & _ & Hg)|[[_ Hr]|(a & b & -> & _ & Ha & _ & Hb)]]
    %get_latest_shape.
  - simpl. by apply all_digits_tag_chars.
  - by apply all_digits_tag_chars.
  - apply all_tag_chars_app; [by apply all_digits_tag_chars|].
    simpl. by apply all_digits_tag_chars.
Qed.

(** X6. A selected tag is [v] and digits, or digits, or digits, a dot
    and digits, each digit run non-empty: it is never empty and holds
    no whitespace, no line boundary and no [@], so it cannot break the
    [owner/repo@tag] line it is written on. *)
Theorem X6_selected_tag_shape (tags : list string) (r : string) :
  get_latest_version_tag tags = Some r →
  ((∃ g, r = String "v" g ∧ nonempty g = true ∧ all_digits g = true)
   ∨ (nonempty r = true ∧ all_digits r = true)
   ∨ (∃ a b, r = a +:+ String "." b
        ∧ nonempty a = true ∧ all_digits a = true
        ∧ nonempty b = true ∧ all_digits b = true))
  ∧ nonempty r = true
  ∧ all_tag_chars r = true
  ∧ no_linebreak r = true
  ∧ Py.strip r = r.
Proof.
  intros Hr. split_and!.
  - by eapply get_latest_shape.
  - by eapply get_latest_nonempty.
  - by eapply get_latest_tag_chars.
  - by eapply all_tag_chars_no_linebreak, get_latest_tag_chars.
  - apply get_latest_Some_inv in Hr as [(t & _ & ->) _]. apply strip_idemp.
Qed.

Lemma X6_selected_tag_shape_witness :
  (∃ a b, "13.4" = a +:+ String "." b
     ∧ nonempty a = true ∧ all_digits a = true
     ∧ nonempty b = true ∧ all_digits b = true)
  ∧ all_tag_chars "13.4" = true.
Proof.
  destruct (X6_selected_tag_shape [" 13.4 "; "13.3"; "rc"] "13.4" eq_refl)
    as ([(g & Hg & _)|[[_ Hd]|Hmm]] & _ & Hchars & _).
  - discriminate Hg.
  - discriminate Hd.
  - by split.
Defined.

(** ** Every way a fetch loop can end *)

Lemma logged_pages_S mk page k w :
  logged (pages_from mk (page + 1) k) (logged [mk page] w)
  = logged (pages_from mk page (S k)) w.
Proof. by rewrite logged_logged, pages_from_S. Qed.

Lemma full_pages_cons {A} (reply : N → option A) (ok : A → Prop)
    (page : N) (l : A) (full : list A) :
  reply page = Some l → ok l →
  (∀ i x, full !! i = Some x →
     reply (page + 1 + N.of_nat i) = Some x ∧ ok x) →
  ∀ i x, (l :: full) !! i = Some x →
    reply (page + N.of_nat i) = Some x ∧ ok x.
Proof.
  intros Hl Hok Hfull [|i] x; simpl.
  - intros [= <-]. by rewrite N.add_0_r.
  - intros Hi. destruct (Hfull i x Hi) as [Hr ?]. split; [|done].
    rewrite <-Hr. f_equal. lia.
Qed.

Lemma pages_from_1 mk page : pages_from mk page 1 = [mk page].
Proof. unfold pages_from. simpl. by rewrite N.add_0_r. Qed.

Lemma fetch_repos_loop_run net org :
  ∀ n repos page w o w',
    fetch_repos_loop net n org repos page w = (o, w') →
    ∃ full : list (list repo),
      (∀ i l, full !! i = Some l →
         repos_reply net org 100 (page + N.of_nat i) = Some l
         ∧ (100 ≤ length l)%nat)
      ∧ match o with
        | Returned out =>
            ∃ final,
              repos_reply net org 100 (page + N.of_nat (length full))
                = Some final
              ∧ (length final < 100)%nat
              ∧ out = repos ++ concat full ++ final
              ∧ (length full < n)%nat
              ∧ w' = logged (pages_from (ReposRequest org 100) page
                               (S (length full))) w
        | Raised =>
            repos_reply net org 100 (page + N.of_nat (length full)) = None
            ∧ (length full < n)%nat
            ∧ w' = logged (pages_from (ReposRequest org 100) page
                             (S (length full))) w
        | OutOfFuel =>
            length full = n
            ∧ w' = logged (pages_from (ReposRequest org 100) page n) w
        end.
Proof.
  induction n as [|n IH]; intros repos page w o w'.
  { intros [= <- <-]. exists []. split; [by intros ? ? ?|].
    split; [done|]. by rewrite logged_nil. }
  rewrite fetch_repos_loop_S. cbv zeta. change per_page with 100.
  destruct (repos_reply net org 100 page) as [l|] eqn:Hl.
  2:{ intros [= <- <-]. exists []. split; [by intros ? ? ?|].
      simpl. rewrite N.add_0_r, pages_from_1. split_and!; [done|lia|done]. }
  destruct (N.of_nat (length l) <? 100) eqn:Hlen.
  { intros [= <- <-]. exists []. split; [by intros ? ? ?|].
    exists l. simpl. rewrite N.add_0_r, pages_from_1.
    apply N.ltb_lt in Hlen. split_and!; [done|lia|done|lia|done]. }
  apply N.ltb_ge in Hlen.
  intros (full & Hfull & Hend)%IH. exists (l :: full). split.
  { apply full_pages_cons; [done|lia|done]. }
  simpl length.
  replace (page + N.of_nat (S (length full)))
    with (page + 1 + N.of_nat (length full)) by lia.
  destruct o as [out| |].
  - destruct Hend as (final & Hf & Hshort & -> & Hn & ->). exists final.
    rewrite logged_pages_S, concat_cons, <-!app_assoc.
    split_and!; [done..|lia|done].
  - destruct Hend as (Hf & Hn & ->). rewrite logged_pages_S.
    split_and!; [done|lia|done].
  - destruct Hend as (Hn & ->). rewrite logged_pages_S. by rewrite Hn.
Qed.


Lemma curl_repos_raw_reply reply org page w :
  curl_repos_raw reply org page w
  = (match reply org per_page page with
     | Some page_repos => Returned page_repos
     | None => Raised
     end, logged [ReposRequest org per_page page] w).
Proof.
  unfold curl_repos_raw, bind, log_request. simpl.
  by destruct (reply org per_page page).
Qed.

Lemma fetch_repos_loop_raw_S reply fuel org repos page w :
  fetch_repos_loop_raw reply (S fuel) org repos page w
  = let w' := logged [ReposRequest org per_page page] w in
    match reply org per_page page with
    | None => (Raised, w')
    | Some page_repos =>
        if N.of_nat (length (page_entries page_repos)) <? per_page
        then (Returned (repos ++ page_entries page_repos), w')
        else fetch_repos_loop_raw reply fuel org
               (repos ++ page_entries page_repos) (page + 1) w'
    end.
Proof.
  simpl. unfold bind at 1. rewrite curl_repos_raw_reply.
  destruct (reply org per_page page) as [p|]; try done.
  destruct (page_entries p) as [|x l].
  - unfold ret. simpl. by rewrite app_nil_r.
  - by destruct (N.of_nat (length (x :: l)) <? per_page).
Qed.

Lemma fetch_repos_loop_raw_run reply org :
  ∀ n repos page w o w',
    fetch_repos_loop_raw reply n org repos page w = (o, w') →
    ∃ full : list repos_page,
      (∀ i p, full !! i = Some p →
         reply org 100 (page + N.of_nat i) = Some p
         ∧ (100 ≤ length (page_entries p))%nat)
      ∧ match o with
        | Returned out =>
            ∃ final,
              reply org 100 (page + N.of_nat (length full)) = Some final
              ∧ (length (page_entries final) < 100)%nat
              ∧ out = repos ++ concat (page_entries <$> full)
                        ++ page_entries final
              ∧ (length full < n)%nat
              ∧ w' = logged (pages_from (ReposRequest org 100) page
                               (S (length full))) w
        | Raised =>
            reply org 100 (page + N.of_nat (length full)) = None
            ∧ (length full < n)%nat
            ∧ w' = logged (pages_from (ReposRequest org 100) page
                             (S (length full))) w
        | OutOfFuel =>
            length full = n
            ∧ w' = logged (pages_from (ReposRequest org 100) page n) w
        end.
Proof.
  induction n as [|n IH]; intros repos page w o w'.
  { intros [= <- <-]. exists []. split; [by intros ? ? ?|].
    split; [done|]. by rewrite logged_nil. }
  rewrite fetch_repos_loop_raw_S. cbv zeta. change per_page with 100.
  destruct (reply org 100 page) as [l|] eqn:Hl.
  2:{ intros [= <- <-]. exists []. split; [by intros ? ? ?|].
      simpl. rewrite N.add_0_r, pages_from_1. split_and!; [done|lia|done]. }
  destruct (N.of_nat (length (page_entries l)) <? 100) eqn:Hlen.
  { intros [= <- <-]. exists []. split; [by intros ? ? ?|].
    exists l. simpl. rewrite N.add_0_r, pages_from_1.
    apply N.ltb_lt in Hlen. split_and!; [done|lia|done|lia|done]. }
  apply N.ltb_ge in Hlen.
  intros (full & Hfull & Hend)%IH. exists (l :: full). split.
  { apply (full_pages_cons (reply org 100)
             (λ p, (100 ≤ length (page_entries p))%nat)); [done|lia|done]. }
  simpl length.
  replace (page + N.of_nat (S (length full)))
    with (page + 1 + N.of_nat (length full)) by lia.
  destruct o as [out| |].
  - destruct Hend as (final & Hf & Hshort & -> & Hn & ->). exists final.
    rewrite logged_pages_S, fmap_cons, concat_cons, <-!app_assoc.
    split_and!; [done..|lia|done].
  - destruct Hend as (Hf & Hn & ->). rewrite logged_pages_S.
    split_and!; [done|lia|done].
  - destruct Hend as (Hn & ->). rewrite logged_pages_S. by rewrite Hn.
Qed.

(** On pages that are lists of records the loop is the loop of the
    typed transport. *)
Lemma fetch_repos_loop_raw_list_pages net org :
  ∀ fuel repos page w,
    fetch_repos_loop_raw (list_pages net) fuel org
      (RepoRecord <$> repos) page w
    = (record_entries (fetch_repos_loop net fuel org repos page w).1,
       (fetch_repos_loop net fuel org repos page w).2).
Proof.
  induction fuel as [|fuel IH]; intros repos page w; [done|].
  rewrite fetch_repos_loop_raw_S, fetch_repos_loop_S. cbv zeta.
  unfold list_pages.
  destruct (repos_reply net org per_page page) as [l|]; [|done].
  simpl. rewrite length_fmap, <-fmap_app.
  destruct (N.of_nat (length l) <? per_page); [done|]. apply IH.
Qed.

(** X7. [fetch_repos] on the replies of the API.  However it ends, it
    has asked for the pages 1, 2, ... in order without skipping or
    repeating one, each with 100 per page, and has touched no file; all
    pages before the last one asked for held at least 100 entries.  If
    it returns, the last page held fewer than 100 entries and the
    result is every entry received, in order, the entries of an object
    being its keys: the loop does not tell the object the API sends
    when it refuses a request from a page of records, and returns the
    keys of the rate-limit object as if they were repositories.  It
    raises exactly when the request for the last page failed.  On
    lists of records it is [fetch_repos] of the typed transport. *)
Theorem X7_fetch_repos_outcome :
  (∀ reply org fuel w (o : outcome (list repos_entry)) w',
     fetch_repos_raw reply fuel org w = (o, w') →
     files w' = files w
     ∧ ∃ full : list repos_page,
         (∀ i p, full !! i = Some p →
            reply org 100 (1 + N.of_nat i) = Some p
            ∧ (100 ≤ length (page_entries p))%nat)
         ∧ match o with
           | Returned repos =>
               ∃ final,
                 reply org 100 (1 + N.of_nat (length full)) = Some final
                 ∧ (length (page_entries final) < 100)%nat
                 ∧ repos = concat (page_entries <$> full)
                             ++ page_entries final
                 ∧ w' = logged (pages_from (ReposRequest org 100) 1
                                  (S (length full))) w
           | Raised =>
               reply org 100 (1 + N.of_nat (length full)) = None
               ∧ w' = logged (pages_from (ReposRequest org 100) 1
                                (S (length full))) w
           | OutOfFuel =>
               length full = fuel
               ∧ w' = logged (pages_from (ReposRequest org 100) 1 fuel) w
           end)
  ∧ (∀ fuel w,
       fetch_repos_raw rate_limited_reply (S fuel) ORG_NAME w
       = (Returned [ObjectKey "message"; ObjectKey "documentation_url"],
          logged [ReposRequest ORG_NAME 100 1] w))
  ∧ (∀ net fuel org w,
       fetch_repos_raw (list_pages net) fuel org w
       = (record_entries (fetch_repos net fuel org w).1,
          (fetch_repos net fuel org w).2)).
Proof.
  split_and!.
  - intros reply org fuel w o w'.
    intros (full & Hfull & Hend)%fetch_repos_loop_raw_run.
    assert (files w' = files w) as Hfiles.
    { destruct o; [destruct Hend as (? & _ & _ & _ & _ & ->)
                  |destruct Hend as (_ & _ & ->)|destruct Hend as (_ & ->)];
        done. }
    split; [done|]. exists full. split; [done|]. destruct o.
    + destruct Hend as (final & ? & ? & -> & _ & ->). by exists final.
    + by destruct Hend as (? & _ & ->).
    + done.
  - intros fuel w.
    unfold fetch_repos_raw. by rewrite fetch_repos_loop_raw_S.
  - intros net fuel org w.
    apply (fetch_repos_loop_raw_list_pages net org fuel []).
Qed.

Lemma X7_fetch_repos_outcome_witness :
  files (fetch_repos_raw (list_pages two_page_net) 1 "actions" fresh_world).2
  = files fresh_world
  ∧ (fetch_repos_raw (list_pages two_page_net) 1 "actions" fresh_world).1
    = OutOfFuel
  ∧ (fetch_repos_raw rate_limited_reply 3 ORG_NAME fresh_world).1
    = Returned [ObjectKey "message"; ObjectKey "documentation_url"]
  ∧ files (fetch_repos_raw rate_limited_reply 3 ORG_NAME fresh_world).2
    = files fresh_world.
Proof.
  destruct X7_fetch_repos_outcome as (Hrun & _ & _).
  split_and!; [|reflexivity..|].
  - apply (Hrun (list_pages two_page_net) "actions" 1%nat fresh_world
             (fetch_repos_raw (list_pages two_page_net) 1 "actions"
                fresh_world).1).
    apply surjective_pairing.
  - apply (Hrun rate_limited_reply ORG_NAME 3%nat fresh_world
             (fetch_repos_raw rate_limited_reply 3 ORG_NAME fresh_world).1).
    apply surjective_pairing.
Defined.



Lemma fetch_repos_loop_endless net org :
  ∀ n repos page w,
    (∀ p, page ≤ p → ∃ l, repos_reply net org 100 p = Some l
                          ∧ (100 ≤ length l)%nat) →
    (fetch_repos_loop net n org repos page w).1 = OutOfFuel.
Proof.
  induction n as [|n IH]; intros repos page w Hall; [done|].
  rewrite fetch_repos_loop_S. cbv zeta. change per_page with 100.
  destruct (Hall page (N.le_refl _)) as (l & -> & Hlen).
  assert ((N.of_nat (length l) <? 100) = false) as ->
    by (apply N.ltb_ge; lia).
  apply IH. intros p Hp. apply Hall. lia.
Qed.

Lemma fetch_tags_loop_endless net org repo_name :
  ∀ n tags page w,
    (∀ p, page ≤ p → ∃ l, tags_reply net org repo_name 100 p
                            = Some (TagList l)
                          ∧ (100 ≤ length l)%nat) →
    (fetch_tags_loop net n org repo_name tags page w).1 = OutOfFuel.
Proof.
  induction n as [|n IH]; intros tags page w Hall; [done|].
  rewrite fetch_tags_loop_S. cbv zeta. change per_page with 100.
  destruct (Hall page (N.le_refl _)) as (l & -> & Hlen).
  assert ((N.of_nat (length l) <? 100) = false) as ->
    by (apply N.ltb_ge; lia).
  apply IH. intros p Hp. apply Hall. lia.
Qed.

(** X9. Neither loop bounds the number of pages: against a transport
    whose every page holds at least 100 records the loop is still
    running after any number of iterations. *)
Theorem X9_full_pages_never_end (net : transport) (org repo_name : string)
    (fuel : nat) (w : world) :
  ((∀ p, 1 ≤ p → ∃ l, repos_reply net org 100 p = Some l
                      ∧ (100 ≤ length l)%nat) →
   (fetch_repos net fuel org w).1 = OutOfFuel)
  ∧ ((∀ p, 1 ≤ p → ∃ l, tags_reply net org repo_name 100 p
                          = Some (TagList l)
                        ∧ (100 ≤ length l)%nat) →
     (fetch_tags net fuel org repo_name w).1 = OutOfFuel).
Proof.
  split; intros Hall.
  - by apply fetch_repos_loop_endless.
  - by apply fetch_tags_loop_endless.
Qed.

Lemma X9_full_pages_never_end_witness :
  (fetch_repos endless_net 7 "actions" fresh_world).1 = OutOfFuel
  ∧ (fetch_tags endless_net 7 "actions" "cache" fresh_world).1 = OutOfFuel.
Proof.
  destruct (X9_full_pages_never_end endless_net "actions" "cache" 7
              fresh_world) as [Hrepos Htags].
  split.
  - apply Hrepos. intros p _. exists full_repo_page. split; [reflexivity|].
    unfold full_repo_page. rewrite length_replicate. lia.
  - apply Htags. intros p _. exists full_page. split; [reflexivity|].
    unfold full_page. rewrite length_replicate. lia.
Defined.

(** X10. A request that fails after a run of full pages makes either
    loop raise, whatever was accumulated; no later page is asked for. *)
Theorem X10_transport_failure_raises (net : transport)
    (org repo_name : string) (fuel : nat) (w : world) :
  (∀ full : list (list repo),
     (∀ i l, full !! i = Some l →
        repos_reply net org 100 (1 + N.of_nat i) = Some l
        ∧ (100 ≤ length l)%nat) →
     repos_reply net org 100 (1 + N.of_nat (length full)) = None →
     (length full < fuel)%nat →
     fetch_repos net fuel org w
     = (Raised,
        logged (pages_from (ReposRequest org 100) 1 (S (length full))) w))
  ∧ (∀ full : list (list tag),
     (∀ i l, full !! i = Some l →
        tags_reply net org repo_name 100 (1 + N.of_nat i) = Some (TagList l)
        ∧ (100 ≤ length l)%nat) →
     tags_reply net org repo_name 100 (1 + N.of_nat (length full)) = None →
     (length full < fuel)%nat →
     fetch_tags net fuel org repo_name w
     = (Raised,
        logged (pages_from (TagsRequest org repo_name 100) 1
                  (S (length full))) w)).
Proof.
  split.
  - intros full Hfull Hfail Hfuel.
    replace fuel with (length full + S (fuel - S (length full)))%nat by lia.
    unfold fetch_repos.
    rewrite (fetch_repos_loop_full net _ full _ _ _ _ Hfull).
    rewrite fetch_repos_loop_S. change per_page with 100. rewrite Hfail.
    cbv zeta. by rewrite logged_logged, pages_from_snoc.
  - intros full Hfull Hfail Hfuel.
    replace fuel with (length full + S (fuel - S (length full)))%nat by lia.
    unfold fetch_tags.
    rewrite (fetch_tags_loop_full net _ _ full _ _ _ _ Hfull).
    rewrite fetch_tags_loop_S. change per_page with 100. rewrite Hfail.
    cbv zeta. by rewrite logged_logged, pages_from_snoc.
Qed.

Lemma X10_transport_failure_raises_witness :
  fetch_repos broken_net 3 "actions" fresh_world
  = (Raised, logged (pages_from (ReposRequest "actions" 100) 1 2) fresh_world)
  ∧ fetch_tags broken_net 3 "actions" "cache" fresh_world
  = (Raised,
     logged (pages_from (TagsRequest "actions" "cache" 100) 1 2) fresh_world).
Proof.
  destruct (X10_transport_failure_raises broken_net "actions" "cache" 3
              fresh_world) as [Hrepos Htags].
  split.
  - apply (Hrepos [full_repo_page]).
    + intros [|[|i]] l; simpl; intros [= <-]. split; [reflexivity|].
      unfold full_repo_page. rewrite length_replicate. lia.
    + reflexivity.
    + simpl. lia.
  - apply (Htags [full_page]).
    + intros [|[|i]] l; simpl; intros [= <-]. split; [reflexivity|].
      unfold full_page. rewrite length_replicate. lia.
    + reflexivity.
    + simpl. lia.
Defined.

(** ** [main]: what is written, and when *)






Lemma process_repo_accept net fuel unversioned (t : target)
    versions new_unversioned w acc' w' :
  process_repo net fuel unversioned (t_org t) (t_repo t) (t_key t) (t_path t)
    (versions, new_unversioned) w = (Returned acc', w') →
  (acc' = (versions, new_unversioned ∪ {[t_key t]}))
  ∨ ((t_key t ∉ unversioned)
     ∧ ∃ latest_tag,
         acc' = (versions ++ [(t_path t, latest_tag)], new_unversioned)
         ∧ accepted net fuel t latest_tag).
Proof.
  unfold process_repo.
  destruct (decide (t_key t ∈ unversioned)) as [Hin|Hnin].
  { intros [= <- <-]. by left. }
  unfold bind.
  destruct (fetch_tags net fuel (t_org t) (t_repo t) w)
    as [[tags| |] w1] eqn:Hfetch; [|done..].
  destruct (get_latest_version_tag tags) as [latest_tag|] eqn:Hsel.
  - rewrite (get_latest_nonempty _ _ Hsel). intros [= <- <-].
    right. split; [done|]. exists latest_tag. split; [done|].
    by exists w, tags, w1.
  - intros [= <- <-]. by left.
Qed.

(** What one [for] loop of [main] does to the list of records. *)
Lemma loop_versions_spec {A : Type} net fuel unversioned
    (tgt : A → option target) (l : list A) :
  ∀ acc w acc' w',
    for_each (process_target net fuel unversioned tgt) acc l w
      = (Returned acc', w') →
    (∀ rec, rec ∈ acc.1 → rec ∈ acc'.1)
    ∧ (∀ rec, rec ∈ acc'.1 →
         rec ∈ acc.1
         ∨ ∃ x t, x ∈ l ∧ tgt x = Some t ∧ (t_key t ∉ unversioned)
             ∧ rec.1 = t_path t ∧ accepted net fuel t rec.2)
    ∧ (∀ x t, x ∈ l → tgt x = Some t →
         t_key t ∈ acc'.2 ∨ ∃ latest_tag, (t_path t, latest_tag) ∈ acc'.1).
Proof.
  induction l as [|x l IH]; intros acc w acc' w'.
  { intros [= <- <-]. split_and!; [done|by left|].
    intros ? ? Hx. inversion Hx. }
  simpl. unfold bind.
  destruct (process_target net fuel unversioned tgt acc x w)
    as [[acc1| |] w1] eqn:Hstep; [|done..].
  intros Hrest. pose proof (loop_spec _ _ _ _ _ _ _ _ _ Hrest)
    as (_ & Hmono2 & _).
  apply IH in Hrest as (Hmono & Horigin & Hdone).
  unfold process_target in Hstep. destruct (tgt x) as [t|] eqn:Ht; [|done].
  destruct acc as [versions new_unversioned].
  apply process_repo_accept in Hstep
    as [->|(Hnin & latest_tag & -> & Hacc)]; simpl in *.
  - split_and!; [done|..].
    + intros rec [?|(y & u & ? & ? & ? & ? & ?)]%Horigin; [by left|right].
      exists y, u. split_and!; [by right|done..].
    + intros y u [->|Hy]%elem_of_cons Hu; [|by eapply Hdone].
      rewrite Ht in Hu. injection Hu as <-. left. apply Hmono2.
      apply elem_of_union. right. by apply elem_of_singleton.
  - split_and!.
    + intros rec Hrec. apply Hmono. apply elem_of_app. by left.
    + intros rec [Hrec|(y & u & ? & ? & ? & ? & ?)]%Horigin.
      * apply elem_of_app in Hrec as [?|Hrec]; [by left|right].
        apply list_elem_of_singleton in Hrec as ->.
        exists x, t. split_and!; [left|done..].
      * right. exists y, u. split_and!; [by right|done..].
    + intros y u [->|Hy]%elem_of_cons Hu; [|by eapply Hdone].
      rewrite Ht in Hu. injection Hu as <-. right. exists latest_tag.
      apply Hmono. apply elem_of_app. right. by left.
Qed.

(** X12. In a run that reaches the writer, every repository processed
    is accounted for, in the new unversioned set under its identifier
    or in the manifest under its path; and every record of the
    manifest pairs the path of a processed repository that was not in
    the cache ([actions/name] for the organization, the entry itself
    for [EXTRA_REPOS]) with the tag the selector returned for the tags
    fetched from it. *)
Theorem X12_manifest_records (net : transport) (fuel : nat) (w w' : world)
    (versions : list (string * string)) (new_unversioned : gset string) :
  collect net fuel w = (Returned (versions, new_unversioned), w') →
  ∃ repos,
    (fetch_repos net fuel ORG_NAME w).1 = Returned repos
    ∧ (∀ r, r ∈ repos →
         repo_name r ∈ new_unversioned
         ∨ ∃ latest_tag,
             (ORG_NAME +:+ "/" +:+ repo_name r, latest_tag) ∈ versions)
    ∧ (∀ full_repo, full_repo ∈ EXTRA_REPOS →
         full_repo ∈ new_unversioned
         ∨ ∃ latest_tag, (full_repo, latest_tag) ∈ versions)
    ∧ (∀ path latest_tag, (path, latest_tag) ∈ versions →
         (∃ r, r ∈ repos ∧ path = ORG_NAME +:+ "/" +:+ repo_name r
            ∧ (repo_name r ∉ cached w)
            ∧ ∃ w0 tags w1,
                fetch_tags net fuel ORG_NAME (repo_name r) w0
                  = (Returned tags, w1)
                ∧ get_latest_version_tag tags = Some latest_tag)
         ∨ (path ∈ EXTRA_REPOS ∧ (path ∉ cached w)
            ∧ ∃ org rn w0 tags w1,
                split_once "/" path = Some (org, rn)
                ∧ fetch_tags net fuel org rn w0 = (Returned tags, w1)
                ∧ get_latest_version_tag tags = Some latest_tag)).
Proof.
  intros (repos & w1 & acc1 & w2 & Hrepos & Hloop1 & Hloop2)%collect_run.
  pose proof (loop_spec _ _ _ _ _ _ _ _ _ Hloop2) as (_ & Hkeep & _).
  apply loop_versions_spec in Hloop1 as (_ & Horigin1 & Hdone1).
  apply loop_versions_spec in Hloop2 as (Hmono2 & Horigin2 & Hdone2).
  exists repos. split; [by rewrite Hrepos|]. simpl in *. split_and!.
  - intros r Hr. destruct (Hdone1 r _ Hr eq_refl) as [Hin|[tag Hin]].
    + left. by apply Hkeep.
    + right. exists tag. by apply Hmono2.
  - intros full_repo Hfull.
    destruct (extra_target full_repo) as [t|] eqn:Ht.
    + destruct (extra_target_inv _ _ Ht) as (_ & Hk & Hp).
      destruct (Hdone2 full_repo t Hfull Ht) as [Hin|[tag Hin]].
      * left. by rewrite <-Hk.
      * right. exists tag. by rewrite <-Hp.
    + exfalso. clear -Hfull Ht.
      repeat (apply elem_of_cons in Hfull as [->|Hfull]; [done|]).
      inversion Hfull.
  - intros path latest_tag
      [Hrec|(x & t & Hx & Ht & Hk & Hp & Hacc)]%Horigin2.
    + left. apply Horigin1 in Hrec
        as [Hrec|(r & t & Hr & [= <-] & Hk & Hp & Hacc)];
        [by inversion Hrec|].
      simpl in *. exists r. split_and!; [done..|].
      destruct Hacc as (w0 & tags & w3 & ? & ?). by exists w0, tags, w3.
    + right. simpl in *.
      apply extra_target_inv in Ht as (Hs & Hkey & Hpath).
      rewrite Hkey in Hk. rewrite Hpath in Hp. subst x. subst path.
      split_and!; [done..|].
      destruct Hacc as (w0 & tags & w3 & ? & ?).
      by exists (t_org t), (t_repo t), w0, tags, w3.
Qed.

Lemma X12_manifest_records_witness :
  ∃ repos,
    (fetch_repos cache_net 2 ORG_NAME cache_world).1 = Returned repos
    ∧ (∀ r, r ∈ repos →
         repo_name r ∈ cache_unversioned
         ∨ ∃ latest_tag,
             (ORG_NAME +:+ "/" +:+ repo_name r, latest_tag) ∈ cache_versions)
    ∧ (∀ full_repo, full_repo ∈ EXTRA_REPOS →
         full_repo ∈ cache_unversioned
         ∨ ∃ latest_tag, (full_repo, latest_tag) ∈ cache_versions)
    ∧ (∀ path latest_tag, (path, latest_tag) ∈ cache_versions →
         (∃ r, r ∈ repos ∧ path = ORG_NAME +:+ "/" +:+ repo_name r
            ∧ (repo_name r ∉ cached cache_world)
            ∧ ∃ w0 tags w1,
                fetch_tags cache_net 2 ORG_NAME (repo_name r) w0
                  = (Returned tags, w1)
                ∧ get_latest_version_tag tags = Some latest_tag)
         ∨ (path ∈ EXTRA_REPOS ∧ (path ∉ cached cache_world)
            ∧ ∃ org rn w0 tags w1,
                split_once "/" path = Some (org, rn)
                ∧ fetch_tags cache_net 2 org rn w0 = (Returned tags, w1)
                ∧ get_latest_version_tag tags = Some latest_tag)).
Proof.
  apply (X12_manifest_records cache_net 2 cache_world
           (collect cache_net 2 cache_world).2
           cache_versions cache_unversioned).
  vm_compute. reflexivity.
Defined.

(** ** The README and the order of the writes *)

Lemma prefix_app n b : String.prefix n (n +:+ b) = true.
Proof.
  induction n as [|c n IH]; [by destruct b|].
  rewrite append_cons. simpl. by destruct (ascii_dec c c).
Qed.

Lemma contains_prefix n h : String.prefix n h = true → contains n h = true.
Proof. intros H. destruct h; cbn [contains]; by rewrite H. Qed.

Lemma contains_here n b : contains n (n +:+ b) = true.
Proof. apply contains_prefix, prefix_app. Qed.

Lemma contains_app_r n a h : contains n h = true → contains n (a +:+ h) = true.
Proof.
  intros Hh. induction a as [|c a IH]; [done|].
  rewrite append_cons. cbn [contains]. rewrite IH. apply orb_true_r.
Qed.

Lemma contains_middle n a b : contains n (a +:+ n +:+ b) = true.
Proof. apply contains_app_r, contains_here. Qed.

Lemma update_readme_append re_sub content readme_text w :
  files w README_FILE = Some readme_text →
  contains README_START_MARKER readme_text
  && contains README_END_MARKER readme_text = false →
  update_readme re_sub content w
  = write_text README_FILE
      (Py.rstrip readme_text +:+ nl +:+ nl +:+ readme_section content +:+ nl)
      w.
Proof.
  intros Hfile Hmarkers. unfold update_readme, bind, read_text.
  cbv beta iota zeta. rewrite Hfile. cbv beta iota. by rewrite Hmarkers.
Qed.

(** X13. [update_readme] leaves everything as it is when there is no
    README.  When the README lacks one of the two markers, the new text
    is the old one without its trailing whitespace, a blank line, and
    the section; it then holds both markers and the manifest text, so
    that the next run replaces the section instead of adding a second
    one.  In every case only the README can change. *)
Theorem X13_update_readme (re_sub : string → string → option string)
    (content : string) (w : world) :
  (files w README_FILE = None →
   update_readme re_sub content w = (Returned tt, w))
  ∧ (∀ readme_text,
       files w README_FILE = Some readme_text →
       contains README_START_MARKER readme_text
       && contains README_END_MARKER readme_text = false →
       ∃ new_readme,
         (update_readme re_sub content w).1 = Returned tt
         ∧ files (update_readme re_sub content w).2 README_FILE
           = Some new_readme
         ∧ new_readme
           = Py.rstrip readme_text +:+ nl +:+ nl
             +:+ readme_section content +:+ nl
         ∧ contains README_START_MARKER new_readme = true
         ∧ contains README_END_MARKER new_readme = true
         ∧ contains content new_readme = true)
  ∧ requests (update_readme re_sub content w).2 = requests w
  ∧ files (update_readme re_sub content w).2 VERSIONS_FILE
    = files w VERSIONS_FILE
  ∧ files (update_readme re_sub content w).2 UNVERSIONED_FILE
    = files w UNVERSIONED_FILE.
Proof.
  split_and!; [| |apply update_readme_frame..].
  - intros Hnone. unfold update_readme, bind, read_text.
    cbv beta iota zeta. by rewrite Hnone.
  - intros readme_text Hfile Hmarkers.
    rewrite (update_readme_append _ _ _ _ Hfile Hmarkers).
    eexists. split_and!; [done|done|done|..].
    + unfold readme_section. rewrite !append_assoc.
      do 3 apply contains_app_r. apply contains_here.
    + unfold readme_section. rewrite !append_assoc.
      do 13 apply contains_app_r. apply contains_here.
    + unfold readme_section. rewrite !append_assoc.
      do 10 apply contains_app_r. apply contains_here.
Qed.

Lemma X13_update_readme_witness :
  update_readme (λ _ _, None) nl fresh_world = (Returned tt, fresh_world)
  ∧ ∃ new_readme,
      (update_readme (λ _ _, None) "actions/cache@v4" plain_readme_world).1
        = Returned tt
      ∧ files (update_readme (λ _ _, None) "actions/cache@v4"
                 plain_readme_world).2 README_FILE = Some new_readme
      ∧ new_readme
        = Py.rstrip ("# actions-latest" +:+ nl +:+ nl) +:+ nl +:+ nl
          +:+ readme_section "actions/cache@v4" +:+ nl
      ∧ contains README_START_MARKER new_readme = true
      ∧ contains README_END_MARKER new_readme = true
      ∧ contains "actions/cache@v4" new_readme = true.
Proof.
  split.
  - apply (proj1 (X13_update_readme (λ _ _, None) nl fresh_world)).
    reflexivity.
  - apply (proj1 (proj2 (X13_update_readme (λ _ _, None) "actions/cache@v4"
                           plain_readme_world))); reflexivity.
Defined.

Lemma update_readme_missing re_sub content w :
  files w README_FILE = None →
  update_readme re_sub content w = (Returned tt, w).
Proof.
  intros Hnone. unfold update_readme, bind, read_text.
  cbv beta iota zeta. by rewrite Hnone.
Qed.

Lemma update_readme_raise re_sub content readme_text w :
  files w README_FILE = Some readme_text →
  contains README_START_MARKER readme_text
  && contains README_END_MARKER readme_text = true →
  re_sub (readme_section content) readme_text = None →
  update_readme re_sub content w = (Raised, w).
Proof.
  intros Hfile Hmarkers Hsub. unfold update_readme, bind, read_text.
  cbv beta iota zeta. rewrite Hfile. cbv beta iota. rewrite Hmarkers.
  fold (readme_section content). by rewrite Hsub.
Qed.

(** X14. The writer writes the manifest first, the README second and
    the cache last.  Without a README both flat files are written and
    no README appears.  When the README has both markers and the regex
    substitution raises, the run ends raising with the manifest already
    replaced, the README as it was, and the cache file not rewritten. *)
Theorem X14_write_order (re_sub : string → string → option string)
    (versions : list (string * string)) (new_unversioned : gset string)
    (w : world) :
  (files w README_FILE = None →
   (publish re_sub versions new_unversioned w).1 = Returned tt
   ∧ files (publish re_sub versions new_unversioned w).2 VERSIONS_FILE
     = Some (versions_content versions)
   ∧ files (publish re_sub versions new_unversioned w).2 UNVERSIONED_FILE
     = Some (unversioned_text new_unversioned)
   ∧ files (publish re_sub versions new_unversioned w).2 README_FILE = None)
  ∧ (∀ readme_text,
       files w README_FILE = Some readme_text →
       contains README_START_MARKER readme_text
       && contains README_END_MARKER readme_text = true →
       re_sub (readme_section (versions_content versions)) readme_text
         = None →
       (publish re_sub versions new_unversioned w).1 = Raised
       ∧ files (publish re_sub versions new_unversioned w).2 VERSIONS_FILE
         = Some (versions_content versions)
       ∧ files (publish re_sub versions new_unversioned w).2 README_FILE
         = Some readme_text
       ∧ files (publish re_sub versions new_unversioned w).2 UNVERSIONED_FILE
         = files w UNVERSIONED_FILE).
Proof.
  pose (w1 := (write_text VERSIONS_FILE (versions_content versions) w).2).
  assert (publish re_sub versions new_unversioned w
          = bind (update_readme re_sub (versions_content versions))
                 (λ _, save_unversioned new_unversioned) w1) as Hpub
    by reflexivity.
  assert (files w1 README_FILE = files w README_FILE) as Hreadme
    by reflexivity.
  rewrite Hpub. unfold bind. split.
  - intros Hnone. rewrite update_readme_missing by congruence.
    split_and!; [done..|]. simpl. by rewrite <-Hnone.
  - intros readme_text Hfile Hmarkers Hsub.
    rewrite (update_readme_raise _ _ readme_text) by congruence.
    split_and!; [done|done|exact (eq_trans Hreadme Hfile)|done].
Qed.

Lemma X14_write_order_witness :
  (publish (λ _ _, None) [("actions/cache", "v4")] ∅ fresh_world).1
    = Returned tt
  ∧ (publish (λ _ _, None) [("actions/cache", "v4")] ∅
       marked_readme_world).1 = Raised
  ∧ files (publish (λ _ _, None) [("actions/cache", "v4")] ∅
             marked_readme_world).2 UNVERSIONED_FILE
    = Some ("old" +:+ nl).
Proof.
  destruct (X14_write_order (λ _ _, None) [("actions/cache", "v4")] ∅
              fresh_world) as [Hmissing _].
  destruct (X14_write_order (λ _ _, None) [("actions/cache", "v4")] ∅
              marked_readme_world) as [_ Hraise].
  destruct (Hmissing eq_refl) as (Hret & _).
  destruct (Hraise marked_readme eq_refl eq_refl eq_refl)
    as (Hr & _ & _ & Hcache).
  split_and!; [exact Hret|exact Hr|exact Hcache].
Defined.

(** ** Entries of [EXTRA_REPOS], and the lines of the manifest *)

Lemma split_once_None sep s :
  split_once sep s = None ↔ has_char sep s = false.
Proof.
  induction s as [|c s IH]; simpl; [done|].
  destruct (Ascii.eqb c sep); simpl; [done|].
  rewrite <-IH. by destruct (split_once sep s) as [[? ?]|].
Qed.

Lemma split_once_Some sep s a b :
  split_once sep s = Some (a, b) ↔
  s = a +:+ String sep b ∧ has_char sep a = false.
Proof.
  split.
  - revert a. induction s as [|c s IH]; intros a; simpl; [done|].
    destruct (Ascii.eqb_spec c sep) as [->|Hne].
    + by intros [= <- <-].
    + destruct (split_once sep s) as [[l r]|]; [|done].
      intros [= <- <-]. destruct (IH l eq_refl) as [-> Hl].
      split; [done|]. simpl. rewrite Hl.
      by apply Ascii.eqb_neq in Hne as ->.
  - intros [-> Ha]. induction a as [|c a IH].
    + simpl. by rewrite Ascii.eqb_refl.
    + simpl in Ha. apply orb_false_iff in Ha as [Hc Ha].
      rewrite append_cons. simpl. by rewrite Hc, (IH Ha).
Qed.

(** X15. An entry of the extra list is cut at its first slash: the
    owner is the text before it and holds no slash, the repository name
    is all the rest, further slashes included, and the two joined by a
    slash give the entry back.  An entry without a slash makes the loop
    raise before anything is requested or recorded for it. *)
Theorem X15_extra_entry_split (net : transport) (fuel : nat)
    (unversioned : gset string)
    (acc : list (string * string) * gset string)
    (full_repo : string) (w : world) :
  (∀ org rn,
     split_once "/" full_repo = Some (org, rn) ↔
     full_repo = org +:+ "/" +:+ rn ∧ has_char "/" org = false)
  ∧ (∀ org rn, split_once "/" full_repo = Some (org, rn) →
       process_extra_repo net fuel unversioned acc full_repo
       = process_repo net fuel unversioned org rn full_repo full_repo acc)
  ∧ (has_char "/" full_repo = false →
     process_extra_repo net fuel unversioned acc full_repo w = (Raised, w)).
Proof.
  split_and!.
  - intros org rn. apply split_once_Some.
  - intros org rn Hsplit. unfold process_extra_repo. by rewrite Hsplit.
  - intros Hnone%split_once_None. unfold process_extra_repo.
    by rewrite Hnone.
Qed.

Lemma X15_extra_entry_split_witness :
  split_once "/" "docker/build-push-action/v2"
  = Some ("docker", "build-push-action/v2")
  ∧ process_extra_repo quiet_net 1 ∅ ([], ∅) "setup-clojure" fresh_world
    = (Raised, fresh_world).
Proof.
  destruct (X15_extra_entry_split quiet_net 1 ∅ ([], ∅)
              "docker/build-push-action/v2" fresh_world) as (Hsplit & _).
  destruct (X15_extra_entry_split quiet_net 1 ∅ ([], ∅)
              "setup-clojure" fresh_world) as (_ & _ & Hraise).
  split.
  - apply Hsplit. split; reflexivity.
  - apply Hraise. reflexivity.
Defined.

Lemma no_linebreak_app a b :
  no_linebreak a = true → no_linebreak b = true →
  no_linebreak (a +:+ b) = true.
Proof.
  intros Ha Hb. induction a as [|c a IH]; [done|].
  rewrite append_cons. simpl in *. apply andb_true_iff in Ha as [-> Ha].
  by apply IH.
Qed.

(** X16. The manifest reads back line by line: when the paths hold no
    line boundary (the tags the selector returns never do), splitting
    the text of a non-empty manifest into lines gives exactly the lines
    [path@tag] of the sorted records, as many lines as records; the
    manifest of no record reads back as one empty line. *)
Theorem X16_manifest_lines (versions : list (string * string)) :
  (versions ≠ [] →
   Forall (λ x, no_linebreak x.1 = true ∧ no_linebreak x.2 = true) versions →
   splitlines (versions_content versions)
   = version_line <$> sort_versions versions
   ∧ length (splitlines (versions_content versions)) = length versions)
  ∧ splitlines (versions_content []) = [EmptyString].
Proof.
  split; [|reflexivity]. intros Hne Hclean.
  assert (splitlines (versions_content versions)
          = version_line <$> sort_versions versions) as Hlines.
  { unfold versions_content. rewrite join_lines.
    2:{ intros Hnil%fmap_nil_inv. apply Hne, Permutation_nil_r.
        by rewrite <-Hnil, sort_versions_perm. }
    apply splitlines_lines_text. apply Forall_fmap.
    rewrite sort_versions_perm. eapply Forall_impl; [exact Hclean|].
    intros [path tag] [Hp Ht]. simpl in *. unfold version_line. simpl.
    apply no_linebreak_app; [done|]. by apply (no_linebreak_app "@"). }
  split; [done|].
  by rewrite Hlines, length_fmap, sort_versions_perm.
Qed.

Lemma X16_manifest_lines_witness :
  splitlines (versions_content
                [("actions/setup-python", "v5"); ("actions/cache", "v4")])
  = ["actions/cache@v4"; "actions/setup-python@v5"].
Proof.
  destruct (X16_manifest_lines
              [("actions/setup-python", "v5"); ("actions/cache", "v4")])
    as [Hlines _].
  destruct Hlines as [-> _]; [discriminate| |reflexivity].
  repeat constructor.
Defined.
